(** * Janmapatrika: the chart and Vimshottari dasha engine

    A shallow embedding of [src/src/services/astrology.service.ts]
    (class [AstrologyService]) and the properties of its classifier,
    house, retrograde and dasha computations.  The parts of the
    application around the service follow: the dasha table, chart
    and planet table components, the derived charts of the
    application component, and the search of the city service
    ([src/src/services/city.service.ts]).

    Conventions of the embedding.
    - A JavaScript [number] that carries an angle or a duration in
      years is read in two ways.  The exact reading takes it as a
      rational ([Q]) with exact operations; it serves the properties
      that do not depend on rounding: the order and number of the
      periods, the table lookups, the calendar arithmetic.  The
      binary64 reading (modules [IEEE] and [Double]) rounds every
      [+], [-], [*], [/] and decimal literal to the nearest binary64
      number, ties to even, as the source does; [%], [Math.floor] and
      the truncation of a time value are exact.  It serves the
      properties of the numbers themselves: ranges, houses, sums of
      durations, the instants periods end at.  Overflow is left out:
      no number here comes near 2^1024.  Module [Primitive] compares
      the rounding of [IEEE] with the primitive floats.  Numbers the
      code keeps integral (indices, calendar fields, time values)
      are [Z].
    - A [Date] is its time value: milliseconds since the epoch, in
      [Z].  The range limit of a time value (8.64e15 ms) is left out.
      Local calendar fields are read in a zone with a fixed offset
      [tz] from UTC (no daylight saving changes).
    - Reading a missing key or index gives [undefined] in the source;
      the tables below are read with [!!], and the dasha generators
      return [None] where the source would go on with [undefined] and
      NaN.
    - A string is a [string] of the Standard Library, its characters
      standing for the code units of the source.  [toLowerCase],
      [trim], [localeCompare] and the parser behind [new Date(text)]
      are parameters; [Array.prototype.sort] is the stable sort by
      insertion. *)

From Stdlib Require Import ZArith QArith Qround Qabs Qpower Lia Lqa.
From Stdlib Require Import PrimFloat SpecFloat FloatOps Ascii.
From stdpp Require Import base option list list_numbers strings gmap.

Local Open Scope Z_scope.

(** ** JavaScript numbers, arrays and strings *)

Module JS.

(** [ToIntegerOrInfinity]: truncation towards zero. *)
Definition trunc (x : Q) : Z := Z.quot (Qnum x) (Zpos (Qden x)).

(** [Math.floor]. *)
Definition floor (x : Q) : Z := Qfloor x.

(** The [%] operator on numbers: the remainder has the sign of the
    dividend, [a - b * trunc (a / b)]. *)
Definition rem (a b : Q) : Q := (a - b * inject_Z (trunc (a / b)))%Q.

(** [x < y] as a test. *)
Definition ltb (x y : Q) : bool := negb (Qle_bool y x).

(** [arr[i]] for an integral index: [undefined] out of range. *)
Definition index {A} (arr : list A) (i : Z) : option A :=
  if i <? 0 then None else arr !! Z.to_nat i.

(** [arr.indexOf(x)]: the first position of [x], or [-1]. *)
Fixpoint indexOf (arr : list string) (x : string) : Z :=
  match arr with
  | [] => -1
  | y :: rest =>
      if String.eqb y x then 0
      else let r := indexOf rest x in if r <? 0 then -1 else r + 1
  end.

(** [a || b] on a string that may be [undefined]. *)
Definition orElse (a : option string) (b : string) : string :=
  match a with
  | Some s => if String.eqb s "" then b else s
  | None => b
  end.

(** [a === s] where [a] may be [undefined]. *)
Definition strictEq (a : option string) (s : string) : bool :=
  match a with
  | Some x => String.eqb x s
  | None => false
  end.

(** [arr.includes(a)]. *)
Definition includes (arr : list string) (a : option string) : bool :=
  existsb (strictEq a) arr.

End JS.

(** ** Static tables (lines 57-114) *)

Definition SIGNS : list string :=
  [ "Mesha"; "Vrishabha"; "Mithuna"; "Karkataka"; "Simha"; "Kanya";
    "Tula"; "Vrischika"; "Dhanu"; "Makara"; "Kumbha"; "Meena" ].

Definition NAKSHATRAS : list string :=
  [ "Ashwini"; "Bharani"; "Krittika"; "Rohini"; "Mrigashira"; "Ardra";
    "Punarvasu"; "Pushya"; "Ashlesha";
    "Magha"; "Purva Phalguni"; "Uttara Phalguni"; "Hasta"; "Chitra";
    "Swati"; "Vishakha"; "Anuradha"; "Jyeshtha";
    "Mula"; "Purva Ashadha"; "Uttara Ashadha"; "Shravana"; "Dhanishta";
    "Shatabhisha"; "Purva Bhadrapada"; "Uttara Bhadrapada"; "Revati" ].

Definition NAKSHATRA_LORDS : list string :=
  [ "Ketu"; "Shukra"; "Surya"; "Chandra"; "Kuja"; "Rahu"; "Guru";
    "Shani"; "Budha" ].

Definition DASHA_YEARS : gmap string Z :=
  list_to_map
    [ ("Ketu", 7); ("Shukra", 20); ("Surya", 6); ("Chandra", 10);
      ("Kuja", 7); ("Rahu", 18); ("Guru", 16); ("Shani", 19);
      ("Budha", 17) ].

Definition RASI_LORDS : gmap string string :=
  list_to_map
    [ ("Mesha", "Kuja"); ("Vrishabha", "Shukra"); ("Mithuna", "Budha");
      ("Karkataka", "Chandra"); ("Simha", "Surya"); ("Kanya", "Budha");
      ("Tula", "Shukra"); ("Vrischika", "Kuja"); ("Dhanu", "Guru");
      ("Makara", "Shani"); ("Kumbha", "Shani"); ("Meena", "Guru") ].

Definition PLANET_NAME_MAP : gmap string string :=
  list_to_map
    [ ("Sun", "Surya"); ("Moon", "Chandra"); ("Mars", "Kuja");
      ("Mercury", "Budha"); ("Jupiter", "Guru"); ("Venus", "Shukra");
      ("Saturn", "Shani"); ("Rahu", "Rahu"); ("Ketu", "Ketu");
      ("Ascendant", "Lagna") ].

(** ** [normalize] (lines 392-396) *)

(** The exact reading; [Double.normalize] is the binary64 one, where
    the sum with 360 rounds. *)
Definition normalize (deg : Q) : Q :=
  let d := JS.rem deg 360 in
  if JS.ltb d 0 then (d + 360)%Q else d.

(** ** Calendar dates

    The civil calendar behind [getFullYear], [getMonth], [getDate] and
    the [Date(year, month, day)] constructor: day numbers count from
    1970-01-01, the calendar is the proleptic Gregorian one. *)

Definition msPerDay : Z := 86400000.

(** Year, month (1..12) and day of the month (1..31) of a day number. *)
Definition civil_from_days (z : Z) : Z * Z * Z :=
  let z := z + 719468 in
  let era := z / 146097 in
  let doe := z - era * 146097 in
  let yoe := (doe - doe / 1460 + doe / 36524 - doe / 146096) / 365 in
  let doy := doe - (365 * yoe + yoe / 4 - yoe / 100) in
  let mp := (5 * doy + 2) / 153 in
  let d := doy - (153 * mp + 2) / 5 + 1 in
  let m := if mp <? 10 then mp + 3 else mp - 9 in
  let y := yoe + era * 400 in
  (if m <=? 2 then y + 1 else y, m, d).

(** Day number of a year, month (1..12) and day of the month. *)
Definition days_from_civil (y m d : Z) : Z :=
  let y := if m <=? 2 then y - 1 else y in
  let era := y / 400 in
  let yoe := y - era * 400 in
  let mp := if m <=? 2 then m + 9 else m - 3 in
  let doy := (153 * mp + 2) / 5 + d - 1 in
  let doe := yoe * 365 + yoe / 4 - yoe / 100 + doy in
  era * 146097 + doe - 719468.

(** ECMAScript's [DayFromYear]: the day number of 1 January. *)
Definition DayFromYear (y : Z) : Z :=
  365 * (y - 1970) + (y - 1969) / 4 - (y - 1901) / 100 + (y - 1601) / 400.

(** The value [{ y, m, d }] that [getDurationYMD] returns. *)
Module Dur.
Record t := mk { y : Z; m : Z; d : Z }.
End Dur.

Record DashaItem := mkDashaItem {
  planet : string;
  startDate : Z;
  endDate : Z;
  durationYear : Z;
  durationMonth : Z;
  durationDay : Z;
  level : Z;
  parentPlanets : option (list string)
}.

(** 365.2425 * 24 * 60 * 60 * 1000 (line 290), the exact product:
    31556952000.  In binary64 it is 31556951999.999996
    ([Double.msPerYear]). *)
Definition msPerYear : Q := ((3652425 # 10000) * 24 * 60 * 60 * 1000)%Q.

(** [addTime] (lines 288-294): [setTime] keeps the integral part of
    the sum.  The exact reading; [Double.addTime] rounds the product
    and the sum. *)
Definition addTime (date : Z) (years : Q) : Z :=
  let addedMs := (years * msPerYear)%Q in
  JS.trunc (inject_Z date + addedMs).

(** Lines 228 and 267: the length in years of a sub-period,
    [(parentYears * subYears) / 120]. *)
Definition durationYearsOf (parentYears : Q) (subYears : Z) : Q :=
  (parentYears * inject_Z subYears / 120)%Q.

Section HostZone.

(** Offset of local time from UTC, in milliseconds. *)
Variable tz : Z.

Definition localDay (t : Z) : Z := (t + tz) / msPerDay.

Definition getFullYear (t : Z) : Z := (civil_from_days (localDay t)).1.1.
Definition getMonth (t : Z) : Z := (civil_from_days (localDay t)).1.2 - 1.
Definition getDate (t : Z) : Z := (civil_from_days (localDay t)).2.

(** [new Date(year, month, date)]: local midnight of the day that lies
    [date - 1] days after the first of the month; a year in 0..99
    stands for 1900 + year. *)
Definition newDate (year month date : Z) : Z :=
  let yr := if (0 <=? year) && (year <=? 99) then 1900 + year else year in
  let ym := yr + month / 12 in
  let mn := month mod 12 in
  (days_from_civil ym (mn + 1) 1 + date - 1) * msPerDay - tz.

(** [getDurationYMD] (lines 297-313). *)
Definition getDurationYMD (start end_ : Z) : Dur.t :=
  let y0 := getFullYear end_ - getFullYear start in
  let m0 := getMonth end_ - getMonth start in
  let d0 := getDate end_ - getDate start in
  let '(m1, d1) :=
    if d0 <? 0 then
      let prevMonthDate := newDate (getFullYear end_) (getMonth end_) 0 in
      (m0 - 1, d0 + getDate prevMonthDate)
    else (m0, d0) in
  let '(y2, m2) := if m1 <? 0 then (y0 - 1, m1 + 12) else (y0, m1) in
  Dur.mk y2 m2 d1.

(** ** The dasha generators *)

(** 13.3333333333 (line 153). *)
Definition nakshatraSpan : Q := 133333333333 # 10000000000.

(** The loop of lines 188-206, over the values [idxs] of [i]. *)
Fixpoint mahadashaLoop (lordIndex : Z) (idxs : list Z) (currentDate : Z)
  : option (list DashaItem) :=
  match idxs with
  | [] => Some []
  | i :: rest =>
      let idx := Z.rem (lordIndex + i) 9 in
      planet ← JS.index NAKSHATRA_LORDS idx;
      years ← DASHA_YEARS !! planet;
      let endDate := addTime currentDate (inject_Z years) in
      dashas ← mahadashaLoop lordIndex rest endDate;
      Some (mkDashaItem planet currentDate endDate years 0 0 1 None :: dashas)
  end.

(** [calculateMahadashas] (lines 151-209). *)
Definition calculateMahadashas (moonLon : Q) (birthDate : Z)
  : option (list DashaItem) :=
  let moonNakshatraPos := (moonLon / nakshatraSpan)%Q in
  let nakshatraIndex := JS.floor moonNakshatraPos in
  let fractionTraversed := (moonNakshatraPos - inject_Z nakshatraIndex)%Q in
  let fractionRemaining := (1 - fractionTraversed)%Q in
  let lordIndex := Z.rem nakshatraIndex 9 in
  firstLord ← JS.index NAKSHATRA_LORDS lordIndex;
  totalYears ← DASHA_YEARS !! firstLord;
  let balanceYears := (inject_Z totalYears * fractionRemaining)%Q in
  let firstEndDate := addTime birthDate balanceYears in
  let firstDuration := getDurationYMD birthDate firstEndDate in
  dashas ← mahadashaLoop lordIndex (seqZ 1 8) firstEndDate;
  Some (mkDashaItem firstLord birthDate firstEndDate
          (Dur.y firstDuration) (Dur.m firstDuration) (Dur.d firstDuration) 1 None
        :: dashas).

(** The loop shared by lines 222-244 and 261-283: [parentYears] is
    [totalYears] at level 2 and [antarDurationYears] at level 3,
    [label] the prefix of the period's name. *)
Fixpoint subDashaLoop (parentYears : Q) (label : string) (lvl : Z)
    (parents : list string) (startIndex : Z) (idxs : list Z) (current : Z)
  : option (list DashaItem) :=
  match idxs with
  | [] => Some []
  | i :: rest =>
      let idx := Z.rem (startIndex + i) 9 in
      subPlanet ← JS.index NAKSHATRA_LORDS idx;
      subYears ← DASHA_YEARS !! subPlanet;
      let durationYears := durationYearsOf parentYears subYears in
      let end_ := addTime current durationYears in
      let dur := getDurationYMD current end_ in
      subDashas ← subDashaLoop parentYears label lvl parents startIndex rest end_;
      Some (mkDashaItem (label +:+ " - " +:+ subPlanet) current end_
              (Dur.y dur) (Dur.m dur) (Dur.d dur) lvl (Some parents)
            :: subDashas)
  end.

(** [calculateAntarDashas] (lines 212-246). *)
Definition calculateAntarDashas (parentPlanetName : string) (startDate : Z)
  : option (list DashaItem) :=
  totalYears ← DASHA_YEARS !! parentPlanetName;
  let startIndex := JS.indexOf NAKSHATRA_LORDS parentPlanetName in
  subDashaLoop (inject_Z totalYears) parentPlanetName 2
    [parentPlanetName] startIndex (seqZ 0 9) startDate.

(** [calculatePratyantarDashas] (lines 249-285). *)
Definition calculatePratyantarDashas (grandParentName parentName : string)
    (startDate : Z) : option (list DashaItem) :=
  gpYears ← DASHA_YEARS !! grandParentName;
  pYears ← DASHA_YEARS !! parentName;
  let antarDurationYears := (inject_Z gpYears * inject_Z pYears / 120)%Q in
  let startIndex := JS.indexOf NAKSHATRA_LORDS parentName in
  subDashaLoop antarDurationYears (grandParentName +:+ " - " +:+ parentName) 3
    [grandParentName; parentName] startIndex (seqZ 0 9) startDate.

End HostZone.

(** ** Chart points *)

Record PlanetData := mkPlanetData {
  name : string;
  sign : option string;
  signId : Z;
  nakshatra : string;
  nakshatraLord : option string;
  rasiLord : string;
  dignity : string;
  degree : Z * Z;
  position : Z * Z;
  isRetrograde : bool;
  longitude : Q;
  house : Z;
  navamsaSign : option string
}.

(** [toDMS] (lines 398-402): the degrees and minutes that the
    returned text prints.  This and the definitions that follow are
    the exact reading; module [Double] has the binary64 one. *)
Definition toDMS (deg : Q) : Z * Z :=
  let d := JS.floor deg in
  let m := JS.floor ((deg - inject_Z d) * 60) in
  (d, m).

(** [calculateNavamsaIndex] (lines 449-458). *)
Definition calculateNavamsaIndex (lon : Q) : Z :=
  let minutes := (lon * 60)%Q in
  let pada := JS.floor (minutes / 200) in
  Z.rem pada 12.

(** The entries of [rules] (lines 461-472). *)
Record DignityRule := mkRule { ex : string; deb : string; own : list string }.

Definition rules : gmap string DignityRule :=
  list_to_map
    [ ("Surya", mkRule "Mesha" "Tula" ["Simha"]);
      ("Chandra", mkRule "Vrishabha" "Vrischika" ["Karkataka"]);
      ("Kuja", mkRule "Makara" "Karkataka" ["Mesha"; "Vrischika"]);
      ("Budha", mkRule "Kanya" "Meena" ["Mithuna"; "Kanya"]);
      ("Guru", mkRule "Karkataka" "Makara" ["Dhanu"; "Meena"]);
      ("Shukra", mkRule "Meena" "Kanya" ["Vrishabha"; "Tula"]);
      ("Shani", mkRule "Tula" "Mesha" ["Makara"; "Kumbha"]);
      ("Rahu", mkRule "Vrishabha" "Vrischika" ["Kumbha"]);
      ("Ketu", mkRule "Vrischika" "Vrishabha" ["Vrischika"]);
      ("Lagna", mkRule "" "" []) ].

(** [calculateDignity] (lines 460-482); [sign] is [None] when the
    caller read it past the end of [SIGNS]. *)
Definition calculateDignity (planet : string) (sign : option string) : string :=
  match rules !! planet with
  | None => "-"
  | Some rule =>
      if JS.strictEq sign (ex rule) then "Exalted"
      else if JS.strictEq sign (deb rule) then "Debilitated"
      else if JS.includes (own rule) sign then "Own Sign"
      else "Neutral"
  end.

(** Line 413: [Math.floor(lon / 13.3333333)]. *)
Definition nakshatraIndexOf (lon : Q) : Z :=
  JS.floor (lon / (133333333 # 10000000)).

(** Lines 423-426: the house of a point, counted from 15 degrees
    before the ascendant. *)
Definition houseOf (lon ascLon : Q) : Z :=
  let adjLon := (lon - (ascLon - 15))%Q in
  let adjLon := if JS.ltb adjLon 0 then (adjLon + 360)%Q else adjLon in
  let adjLon := JS.rem adjLon 360 in
  JS.floor (adjLon / 30) + 1.

(** [formatPlanet] (lines 404-447). *)
Definition formatPlanet (englishName : string) (lon : Q) (isRetrograde : bool)
    (ascLon : Q) : PlanetData :=
  let name := JS.orElse (PLANET_NAME_MAP !! englishName) englishName in
  let signIndex := JS.floor (lon / 30) in
  let sign := JS.index SIGNS signIndex in
  let degInSign := JS.rem lon 30 in
  let nakshatraIndex := nakshatraIndexOf lon in
  let nakshatra := JS.orElse (JS.index NAKSHATRAS nakshatraIndex) "Unknown" in
  let lordIndex := Z.rem nakshatraIndex 9 in
  let nakshatraLord := JS.index NAKSHATRA_LORDS lordIndex in
  let rasiLord := JS.orElse (sign ≫= (RASI_LORDS !!.)) "-" in
  let dignity := calculateDignity name sign in
  let navamsaSignIndex := calculateNavamsaIndex lon in
  mkPlanetData name sign (signIndex + 1) nakshatra nakshatraLord rasiLord
    dignity (toDMS degInSign) (toDMS lon) isRetrograde lon
    (houseOf lon ascLon) (JS.index SIGNS navamsaSignIndex).

(** Lines 368-371: the hourly difference of two tropical longitudes
    after the two adjustments, and the test on it. *)
Definition hourlyDiff (elon elonPrev : Q) : Q :=
  let diff := (elon - elonPrev)%Q in
  let diff := if JS.ltb diff (-180) then (diff + 360)%Q else diff in
  if JS.ltb 180 diff then (diff - 360)%Q else diff.

Section Ephemeris.

(** What the astronomy library supplies: the tropical ecliptic
    longitude of a body at a date ([Ecliptic(GeoVector(body, t)).elon]),
    days since J2000 ([MakeTime(date).ut]), and the ascendant angle in
    degrees that lines 342-353 derive from sidereal time, obliquity
    and latitude with trigonometric functions. *)
Variable elon : string -> Z -> Q.
Variable ut : Z -> Q.
Variable ascDeg : Z -> Q -> Q -> Q.

(** The keys of [bodyMap], in insertion order (lines 329-337). *)
Definition bodyMap : list string :=
  [ "Sun"; "Moon"; "Mars"; "Mercury"; "Jupiter"; "Venus"; "Saturn" ].

(** Lines 363-372. *)
Definition bodyIsRetrograde (englishName : string) (date : Z) : bool :=
  if negb (String.eqb englishName "Sun") && negb (String.eqb englishName "Moon")
  then JS.ltb (hourlyDiff (elon englishName date)
                          (elon englishName (date - 3600000))) 0
  else false.

(** [calculatePositions] (lines 326-390). *)
Definition calculatePositions (date : Z) (lat lon ayanamsa : Q)
  : list PlanetData :=
  let siderealAsc := normalize (normalize (ascDeg date lat lon) - ayanamsa) in
  let planets :=
    (fun englishName =>
       let siderealLon := normalize (elon englishName date - ayanamsa) in
       formatPlanet englishName siderealLon
         (bodyIsRetrograde englishName date) siderealAsc) <$> bodyMap in
  let T := ((ut date + 2451545 - 2451545) / 36525)%Q in
  let meanNodeLon :=
    normalize ((12504452 # 100000) - (1934136261 # 1000000) * T
               + (20708 # 10000000) * T * T + (T * T * T) / 450000) in
  let siderealRahu := normalize (meanNodeLon - ayanamsa) in
  let siderealKetu := normalize (siderealRahu + 180) in
  planets ++
  [ formatPlanet "Rahu" siderealRahu true siderealAsc;
    formatPlanet "Ketu" siderealKetu true siderealAsc;
    formatPlanet "Ascendant" siderealAsc false siderealAsc ].

End Ephemeris.

(** ** Notions used to state the properties *)


(** Periods laid end to end from [start]: each begins where the one
    before ends, and none ends before it begins. *)
Fixpoint chained (start : Z) (tl : list DashaItem) : Prop :=
  match tl with
  | [] => True
  | p :: rest =>
      startDate p = start /\ startDate p <= endDate p /\ chained (endDate p) rest
  end.

(** The nakshatra index and the lord the specification names,
    with the span 360/27. *)
Definition spec_nakshatraIndex (lon : Q) : Z := JS.floor (lon / (360 / 27)).

Definition spec_firstLord (moonLon : Q) : option string :=
  JS.index NAKSHATRA_LORDS (spec_nakshatraIndex moonLon mod 9).

(** The difference of two longitudes brought into (-180, 180] by a
    multiple of 360, as the specification words the retrograde test. *)
Definition spec_wrappedDiff (elon elonPrev : Q) : Q :=
  let diff := (elon - elonPrev)%Q in
  (diff - 360 * inject_Z (Qceiling ((diff - 180) / 360)))%Q.

(** The allotment of the lord that turn [i] of a loop starting at
    [startIndex] reads, and the sum of these over the turns. *)
Definition yearsAt (startIndex i : Z) : option Z :=
  subPlanet ← JS.index NAKSHATRA_LORDS (Z.rem (startIndex + i) 9);
  DASHA_YEARS !! subPlanet.

Definition yearsSum (startIndex : Z) (idxs : list Z) : Z :=
  foldr (fun i acc => default 0 (yearsAt startIndex i) + acc) 0 idxs.

(** A duration in years that is [k] milliseconds, a whole number. *)
Definition integralYears (years : Q) (k : Z) : Prop :=
  (years * msPerYear == inject_Z k)%Q.

(** Lines 153-166: the balance of the first dasha, [balanceYears]. *)
Definition balanceYearsOf (moonLon : Q) : option Q :=
  let moonNakshatraPos := (moonLon / nakshatraSpan)%Q in
  let nakshatraIndex := JS.floor moonNakshatraPos in
  let fractionRemaining := (1 - (moonNakshatraPos - inject_Z nakshatraIndex))%Q in
  firstLord ← JS.index NAKSHATRA_LORDS (Z.rem nakshatraIndex 9);
  totalYears ← DASHA_YEARS !! firstLord;
  Some (inject_Z totalYears * fractionRemaining)%Q.

(** Nine periods, the first starting at [start], each of the others
    starting where the one before ends, none ending before it starts. *)
Definition contiguousFrom (start : Z) (tl : list DashaItem) : Prop :=
  length tl = 9%nat
  /\ (forall p, tl !! 0%nat = Some p -> startDate p = start)
  /\ (forall (i : nat) p q,
        tl !! i = Some p -> tl !! S i = Some q -> startDate q = endDate p)
  /\ Forall (fun p => startDate p <= endDate p) tl.

(** The balance of the first dasha as the specification computes it,
    with the span 360/27. *)
Definition spec_balanceYears (moonLon : Q) : option Q :=
  firstLord ← spec_firstLord moonLon;
  totalYears ← DASHA_YEARS !! firstLord;
  Some (inject_Z totalYears
        * (1 - (moonLon / (360 / 27) - inject_Z (spec_nakshatraIndex moonLon))))%Q.

(** ** The duration arithmetic on primitive floats

    The values of [durationYears] as the source computes them, on the
    kernel's binary64 floats: the allotments are read in the order of
    the cycle from the parent's place, and the sum is taken left to
    right.  The comparison is the one a test with a relative
    tolerance of 1e-9 makes. *)

Module Binary64.

Definition DASHA_YEARS : list PrimFloat.float :=
  [7; 20; 6; 10; 7; 18; 16; 19; 17]%float.

Definition cycleFrom (startIndex : nat) : list PrimFloat.float :=
  drop startIndex DASHA_YEARS ++ take startIndex DASHA_YEARS.

(** Line 228 at each turn of the loop. *)
Definition antarDurations (parent : nat) : list PrimFloat.float :=
  let totalYears := nth parent DASHA_YEARS 0%float in
  (fun subYears => (totalYears * subYears) / 120)%float <$> cycleFrom parent.

(** Lines 254 and 267 at each turn of the loop. *)
Definition pratyantarDurations (grandParent parent : nat) : list PrimFloat.float :=
  let gpYears := nth grandParent DASHA_YEARS 0%float in
  let pYears := nth parent DASHA_YEARS 0%float in
  let antarDurationYears := ((gpYears * pYears) / 120)%float in
  (fun subYears => (antarDurationYears * subYears) / 120)%float
    <$> cycleFrom parent.

Definition sum (l : list PrimFloat.float) : PrimFloat.float :=
  fold_left PrimFloat.add l 0%float.

Definition within (total expected : PrimFloat.float) : bool :=
  (PrimFloat.abs (total - expected) <=? expected / 1000000000)%float.

End Binary64.

(** * The rest of the application *)

(** The seven lords of the signs, the values of [RASI_LORDS]. *)
Definition classicalPlanets : list string :=
  ["Surya"; "Chandra"; "Kuja"; "Budha"; "Guru"; "Shukra"; "Shani"].

(** The instant a timeline laid from [start] ends at. *)
Definition timelineEnd (start : Z) (tl : list DashaItem) : Z :=
  default start (endDate <$> last tl).

(** [s.split(sep)] for a separator that is not empty: [skip] counts
    the characters of a separator just matched that are still to be
    passed over, [current] is the piece being read. *)
Fixpoint splitGo (sep : string) (skip : nat) (current s : string) : list string :=
  match s with
  | EmptyString => [current]
  | String c rest =>
      match skip with
      | S k => splitGo sep k current rest
      | O =>
          if String.prefix sep s
          then current :: splitGo sep (String.length sep - 1) "" rest
          else splitGo sep 0 (current +:+ String c "") rest
      end
  end.

Definition split (s sep : string) : list string := splitGo sep 0 "" s.

(** ** The dasha table component ([DashaTableComponent]) *)

Module DashaTable.

(** The signals [level], [history] and [currentRows]. *)
Record State := mkState {
  level : Z;
  history : list DashaItem;
  currentRows : list DashaItem
}.

Section Inputs.

(** The host zone, and the inputs [moonLongitude] and the birth
    instant that [birthDate] and [birthTime] parse to. *)
Variable tz : Z.
Variable moonLongitude : Q.
Variable dt : Z.

(** The effect of the constructor: nothing is computed for a
    longitude that is zero, which is falsy. *)
Definition init : option State :=
  if Qeq_bool moonLongitude 0 then Some (mkState 1 [] [])
  else rows ← calculateMahadashas tz moonLongitude dt;
       Some (mkState 1 [] rows).

(** [drillDown]. *)
Definition drillDown (item : DashaItem) (st : State) : option State :=
  if 3 <=? level st then Some st
  else
    let nextLevel := level st + 1 in
    let history' := history st ++ [item] in
    nextRows ←
      (if nextLevel =? 2
       then calculateAntarDashas tz (planet item) (startDate item)
       else if nextLevel =? 3
       then let parts := split (planet item) " - " in
            grandParent ← parts !! 0%nat;
            parent ← parts !! 1%nat;
            calculatePratyantarDashas tz grandParent parent (startDate item)
       else Some []);
    Some (mkState nextLevel history' nextRows).

(** [levelUp]. *)
Definition levelUp (st : State) : option State :=
  if level st <=? 1 then Some st
  else
    let currentHistory := history st in
    let prevItem := JS.index currentHistory (Z.of_nat (length currentHistory) - 2) in
    let newHistory := take (length currentHistory - 1) currentHistory in
    let level' := level st - 1 in
    if level' =? 1
    then rows ← calculateMahadashas tz moonLongitude dt;
         Some (mkState level' newHistory rows)
    else if level' =? 2
    then match prevItem with
         | Some mahadashaItem =>
             rows ← calculateAntarDashas tz (planet mahadashaItem)
                      (startDate mahadashaItem);
             Some (mkState level' newHistory rows)
         | None => Some (mkState level' newHistory (currentRows st))
         end
    else Some (mkState level' newHistory (currentRows st)).

End Inputs.

End DashaTable.

(** [P] holds at [z], [z + 1], ..., [z + fuel - 1]. *)
Fixpoint allFrom (fuel : nat) (z : Z) (P : Z -> bool) : bool :=
  match fuel with
  | O => true
  | S k => P z && allFrom k (z + 1) P
  end.

(** Day [doe] of the era gets a month in 1..12 and a day in 1..31. *)
Definition monthDayOk (doe : Z) : bool :=
  let c := civil_from_days (doe - 719468) in
  (1 <=? c.1.2) && (c.1.2 <=? 12) && (1 <=? c.2) && (c.2 <=? 31).

(** The day of the month of the day before the first of month
    [mn + 1] of year [yr]: the length of the month before. *)
Definition lastDayBefore (yr mn : Z) : Z :=
  (civil_from_days (days_from_civil yr (mn + 1) 1 - 1)).2.

Definition lastDayOk (yr : Z) : bool :=
  allFrom (Z.to_nat 12) 0
    (fun mn => (28 <=? lastDayBefore yr mn) && (lastDayBefore yr mn <=? 31)).

(** [{ ...p, sign: s }]: the point [p] with another sign. *)
Definition withSign (p : PlanetData) (s : option string) : PlanetData :=
  mkPlanetData (name p) s (signId p) (nakshatra p) (nakshatraLord p)
    (rasiLord p) (dignity p) (degree p) (position p) (isRetrograde p)
    (longitude p) (house p) (navamsaSign p).

(** ** The chart component ([SouthIndianChartComponent]) *)

Module SouthIndianChart.

(** [getPlanets]: the points drawn in a cell; [cell] is the parameter
    [sign] of the source, a name the field has here. *)
Definition getPlanets (planets : list PlanetData) (cell : string)
  : list PlanetData :=
  List.filter (fun p => JS.strictEq (sign p) cell) planets.

(** [formatPlanet]: the text of a point in its cell. *)
Definition formatPlanet (planet : PlanetData) : string :=
  let name := name planet in
  if isRetrograde planet && negb (String.eqb name "Rahu")
     && negb (String.eqb name "Ketu")
  then name +:+ " R"
  else name.

End SouthIndianChart.

(** ** The derived charts of the application component *)

Module App.

(** [navamsaPlanets]. *)
Definition navamsaPlanets (data : option (list PlanetData)) : list PlanetData :=
  match data with
  | None => []
  | Some planets => (fun p => withSign p (navamsaSign p)) <$> planets
  end.

(** [bhavaPlanets]. *)
Definition bhavaPlanets (data : option (list PlanetData)) : list PlanetData :=
  match data with
  | None => []
  | Some planets =>
      match List.find (fun p => String.eqb (name p) "Lagna") planets with
      | None => []
      | Some ascPlanet =>
          let ascSignIndex :=
            match sign ascPlanet with
            | Some s => JS.indexOf SIGNS s
            | None => -1
            end in
          (fun planet =>
             let houseNum := house planet in
             let targetSignIndex := Z.rem (ascSignIndex + (houseNum - 1)) 12 in
             withSign planet (JS.index SIGNS targetSignIndex)) <$> planets
      end
  end.

(** [getMoonLon]. *)
Definition getMoonLon (data : option (list PlanetData)) : Q :=
  match data ≫= List.find (fun x => String.eqb (name x) "Chandra") with
  | Some p => longitude p
  | None => 0%Q
  end.

End App.

(** An entry of the city table ([City] in city.service.ts). *)
Module City.
Record t := mk { name : string; lat : Q; lng : Q; state : string }.
End City.

Record ChartMeta := mkChartMeta {
  metaDate : string;
  metaTime : string;
  metaPlace : string;
  moonNakshatra : string
}.

Record ChartData := mkChartData {
  planets : list PlanetData;
  ascendantSign : string;
  ayanamsa : Q;
  meta : ChartMeta
}.

Section Chart.

(** The astronomy library as in [calculatePositions], the host zone,
    the parser behind [new Date(text)] ([None] for an invalid date)
    and the search of the city service. *)
Variable elon : string -> Z -> Q.
Variable ut : Z -> Q.
Variable ascDeg : Z -> Q -> Q -> Q.
Variable tz : Z.
Variable parseDate : string -> option Z.
Variable searchCities : string -> list City.t.

(** [getCoordinatesLocal] (lines 315-324). *)
Definition getCoordinatesLocal (place : string) : Q * Q :=
  let cities := searchCities (default "" (head (split place ","))) in
  match cities with
  | c :: _ => (City.lat c, City.lng c)
  | [] => (286139 # 10000, 772090 # 10000)%Q
  end.

(** [calculateChart] (lines 116-149); [inl] is the error thrown. *)
Definition calculateChart (date time place : string) : string + ChartData :=
  let coords := getCoordinatesLocal place in
  let dateTimeStr := date +:+ "T" +:+ time in
  match parseDate dateTimeStr with
  | None => inl "Invalid Date or Time provided."
  | Some dateObj =>
      let year := (inject_Z (getFullYear tz dateObj)
                   + inject_Z (getMonth tz dateObj) / 12)%Q in
      let ayanamsa := ((2385 # 100) + (139 # 10000) * (year - 2000))%Q in
      let planets :=
        calculatePositions elon ut ascDeg dateObj coords.1 coords.2 ayanamsa in
      let moon := List.find (fun p => String.eqb (name p) "Chandra") planets in
      let moonNakshatra :=
        match moon with Some m => nakshatra m | None => "-" end in
      inr (mkChartData planets
             (JS.orElse
                (List.find (fun p => String.eqb (name p) "Lagna") planets ≫= sign)
                "Mesha")
             ayanamsa
             (mkChartMeta date time place moonNakshatra))
  end.

End Chart.

(** ** The city service: reading the table *)

(** The double quote character. *)
Definition quoteChar : ascii := ascii_of_nat 34.
Definition commaChar : ascii := ascii_of_nat 44.

(** The loop of [splitCSVLine] over the characters still to read. *)
Fixpoint splitCSVLoop (line : string) (result : list string) (current : string)
    (inQuotes : bool) : list string :=
  match line with
  | EmptyString => result ++ [current]
  | String char rest =>
      if Ascii.eqb char quoteChar
      then splitCSVLoop rest result current (negb inQuotes)
      else if Ascii.eqb char commaChar && negb inQuotes
      then splitCSVLoop rest (result ++ [current]) "" inQuotes
      else splitCSVLoop rest result (current +:+ String char "") inQuotes
  end.

(** [splitCSVLine]. *)
Definition splitCSVLine (line : string) : list string :=
  splitCSVLoop line [] "" false.

(** Whether character [c] occurs in [s]. *)
Fixpoint occurs (c : ascii) (s : string) : bool :=
  match s with
  | EmptyString => false
  | String x rest => Ascii.eqb x c || occurs c rest
  end.

(** How often character [c] occurs in [s]. *)
Fixpoint countChar (c : ascii) (s : string) : nat :=
  match s with
  | EmptyString => 0
  | String x rest => (if Ascii.eqb x c then 1 else 0) + countChar c rest
  end.

(** ** The city service: [levenshtein]

    The matrix is kept by rows.  Row 0 holds 0, 1, ..., [a.length];
    row [i] starts with [i] and is filled from left to right out of
    the row above ([prevDiag] and the head of [prevRest] are the
    entries above-left and above) and the entry just written
    ([left]). *)

Fixpoint fillRow (bi : ascii) (a : list ascii) (prevDiag : Z)
    (prevRest : list Z) (left : Z) : list Z :=
  match a, prevRest with
  | aj :: a', up :: prevRest' =>
      let v :=
        if Ascii.eqb bi aj then prevDiag
        else Z.min (prevDiag + 1) (Z.min (left + 1) (up + 1)) in
      v :: fillRow bi a' up prevRest' v
  | _, _ => []
  end.

Definition nextRow (i : Z) (bi : ascii) (a : list ascii) (prev : list Z)
  : list Z :=
  match prev with
  | diag :: rest => i :: fillRow bi a diag rest i
  | [] => [i]
  end.

Fixpoint fillMatrix (b : list ascii) (i : Z) (a : list ascii) (prev : list Z)
  : list Z :=
  match b with
  | [] => prev
  | bi :: b' => fillMatrix b' (i + 1) a (nextRow i bi a prev)
  end.

(** [levenshtein] (lines 72-106). *)
Definition levenshtein (a b : string) : Z :=
  let la := String.list_ascii_of_string a in
  let lb := String.list_ascii_of_string b in
  if (length la =? 0)%nat then Z.of_nat (length lb)
  else if (length lb =? 0)%nat then Z.of_nat (length la)
  else
    default 0 (last (fillMatrix lb 1 la (seqZ 0 (Z.of_nat (length la) + 1)))).

(** The edit distance of two sequences given last character first. *)
Fixpoint editDistance (ra : list ascii) : list ascii -> Z :=
  match ra with
  | [] => fun rb => Z.of_nat (length rb)
  | x :: ra' =>
      fix inner (rb : list ascii) : Z :=
        match rb with
        | [] => Z.of_nat (length (x :: ra'))
        | y :: rb' =>
            if Ascii.eqb y x then editDistance ra' rb'
            else Z.min (editDistance ra' rb' + 1)
                   (Z.min (editDistance ra' (y :: rb') + 1) (inner rb' + 1))
        end
  end.

(** The entries of a row right of the prefix whose reverse is [ra]. *)
Fixpoint rowFrom (ra a : list ascii) (rb : list ascii) : list Z :=
  match a with
  | [] => []
  | x :: a' => editDistance (x :: ra) rb :: rowFrom (x :: ra) a' rb
  end.

(** ** The city service: [searchCities]

    [Array.prototype.sort] is stable; for a comparator that orders its
    arguments consistently its result is the one that insertion from
    the left gives. *)

Fixpoint insertBy {A : Type} (cmp : A -> A -> Q) (x : A) (l : list A) : list A :=
  match l with
  | [] => [x]
  | y :: l' =>
      if Qle_bool (cmp y x) 0 then y :: insertBy cmp x l' else x :: y :: l'
  end.

Definition sortBy {A : Type} (cmp : A -> A -> Q) (l : list A) : list A :=
  foldl (fun acc x => insertBy cmp x acc) [] l.

Module CityService.
Section Search.

(** [String.prototype.toLowerCase], [trim] and [localeCompare] of the
    host, and the table that [parseCSV] has filled. *)
Variable toLowerCase : string -> string.
Variable trim : string -> string.
Variable localeCompare : string -> string -> Z.
Variable cities : list City.t.

Definition maxFuzzyDist (queryLen : nat) : Z :=
  if (queryLen <=? 3)%nat then 0 else if (queryLen <=? 6)%nat then 1 else 2.

(** The score that the [map] callback gives a city (lines 32-51). *)
Definition score (normalizedQuery : string) (city : City.t) : Q :=
  let cityName := toLowerCase (City.name city) in
  if String.eqb cityName normalizedQuery then 0%Q
  else if String.prefix normalizedQuery cityName then 1%Q
  else
    match String.index 0 normalizedQuery cityName with
    | Some idx => (2 + inject_Z (Z.of_nat idx) * (1 # 100))%Q
    | None =>
        if 0 <? maxFuzzyDist (String.length normalizedQuery) then
          let dist := levenshtein normalizedQuery cityName in
          if dist <=? maxFuzzyDist (String.length normalizedQuery)
          then (10 + inject_Z dist)%Q
          else 1000%Q
        else 1000%Q
    end.

(** The comparator of the [sort] (lines 58-67). *)
Definition compare (a b : City.t * Q) : Q :=
  if negb (Qeq_bool a.2 b.2) then (a.2 - b.2)%Q
  else if negb (String.length (City.name a.1) =? String.length (City.name b.1))%nat
  then inject_Z (Z.of_nat (String.length (City.name a.1))
                 - Z.of_nat (String.length (City.name b.1)))
  else inject_Z (localeCompare (City.name a.1) (City.name b.1)).

(** [searchCities] (lines 20-70). *)
Definition searchCities (query : string) : list City.t :=
  if String.eqb query "" || (String.length (trim query) <? 2)%nat then []
  else
    let normalizedQuery := trim (toLowerCase query) in
    let candidates :=
      (fun city => (city, score normalizedQuery city)) <$> cities in
    take 20
      (fst <$> sortBy compare
                 (List.filter (fun c => JS.ltb c.2 1000) candidates)).

End Search.
End CityService.

(** A list in the order of a key: no element has a larger key than a
    later one. *)
Definition ordered {A : Type} (key : A -> Q) (l : list A) : Prop :=
  forall i j a b, (i <= j)%nat -> l !! i = Some a -> l !! j = Some b ->
    (key a <= key b)%Q.

(** ** The planet table ([sortedPlanets], planet-table.component.ts) *)
Module PlanetTable.

Definition order : list string :=
  ["Lagna"; "Surya"; "Chandra"; "Kuja"; "Budha"; "Guru"; "Shukra"; "Shani";
   "Rahu"; "Ketu"].

Definition rank (name : string) : Z :=
  let idx := JS.indexOf order name in
  if idx =? -1 then 99 else idx.

Definition sortedPlanets (planets : list PlanetData) : list PlanetData :=
  sortBy (fun a b => inject_Z (rank (name a) - rank (name b))) planets.

End PlanetTable.

(** What the retrograde flag and the text of the chart cell of a point
    have to do with its name. *)
Definition retrogradeMarked (p : PlanetData) : Prop :=
  (name p ∈ ["Surya"; "Chandra"; "Lagna"] ->
     isRetrograde p = false /\ SouthIndianChart.formatPlanet p = name p)
  /\ (name p ∈ ["Rahu"; "Ketu"] ->
     isRetrograde p = true /\ SouthIndianChart.formatPlanet p = name p)
  /\ (SouthIndianChart.formatPlanet p = name p +:+ " R"
      <-> isRetrograde p = true
          /\ name p ∈ ["Kuja"; "Budha"; "Guru"; "Shukra"; "Shani"])
  /\ (SouthIndianChart.formatPlanet p = name p
      \/ SouthIndianChart.formatPlanet p = name p +:+ " R").

(** * The binary64 reading *)

(** ** Rounding to the nearest binary64 number *)

Module IEEE.

Definition pow2 (k : Z) : Q := (2 ^ k)%Q.

(** The floor of the binary logarithm of a positive rational. *)
Definition ilog2 (x : Q) : Z :=
  let k := Z.log2 (Qnum x) - Z.log2 (Zpos (Qden x)) in
  if Qle_bool (pow2 k) x then k else k - 1.

(** The nearest integer, the even one of two that are equally near. *)
Definition rne (q : Q) : Z :=
  let f := Qfloor q in
  match (q - inject_Z f ?= 1 # 2)%Q with
  | Lt => f
  | Gt => f + 1
  | Eq => if Z.even f then f else f + 1
  end.

(** The exponent of the last place of the binary64 numbers around a
    positive [x]: 53 significant bits, and no exponent under -1074. *)
Definition ulpExp (x : Q) : Z := Z.max (ilog2 x - 52) (-1074).

Definition roundPos (x : Q) : Q :=
  (inject_Z (rne (x / pow2 (ulpExp x))) * pow2 (ulpExp x))%Q.

(** Rounding to the nearest binary64 number, ties to even.  Overflow
    to an infinity (from 2^1024 - 2^970 on) is left out. *)
Definition round (x : Q) : Q :=
  match (x ?= 0)%Q with
  | Gt => roundPos x
  | Lt => (- roundPos (- x))%Q
  | Eq => 0%Q
  end.

(** A rational that is a binary64 number. *)
Definition isDouble (x : Q) : Prop := (round x == x)%Q.

End IEEE.

(** ** The arithmetic of the service in binary64 *)

Module Double.
Import IEEE.

(** The operators [+], [-], [*] and [/] on numbers, and a decimal
    literal of the source. *)
Definition add (x y : Q) : Q := round (x + y).
Definition sub (x y : Q) : Q := round (x - y).
Definition mul (x y : Q) : Q := round (x * y).
Definition div (x y : Q) : Q := round (x / y).
Definition lit (q : Q) : Q := round q.

(** [normalize] (lines 392-396); the remainder of [%] is exact. *)
Definition normalize (deg : Q) : Q :=
  let d := JS.rem deg 360 in
  if JS.ltb d 0 then add d 360 else d.

(** The formula of the specification, [((d mod 360) + 360) mod 360],
    with [mod] read as the [%] operator and the sum rounded. *)
Definition normalize_spec (d : Q) : Q :=
  JS.rem (add (JS.rem d 360) 360) 360.

(** Lines 422-426 of [formatPlanet]. *)
Definition houseOf (lon ascLon : Q) : Z :=
  let adjLon := sub lon (sub ascLon 15) in
  let adjLon := if JS.ltb adjLon 0 then add adjLon 360 else adjLon in
  let adjLon := JS.rem adjLon 360 in
  JS.floor (div adjLon 30) + 1.

(** The formula of the specification,
    [floor(normalize(L - (asc - 15)) / 30) + 1], through [normalize]. *)
Definition houseOf_spec (lon ascLon : Q) : Z :=
  JS.floor (div (normalize (sub lon (sub ascLon 15))) 30) + 1.

(** [toDMS] (lines 398-402): degrees and minutes. *)
Definition toDMS (deg : Q) : Z * Z :=
  let d := JS.floor deg in
  let m := JS.floor (mul (sub deg (inject_Z d)) 60) in
  (d, m).

(** [calculateNavamsaIndex] (lines 449-458). *)
Definition calculateNavamsaIndex (lon : Q) : Z :=
  let minutes := mul lon 60 in
  let pada := JS.floor (div minutes 200) in
  Z.rem pada 12.

(** Line 413: [Math.floor(lon / 13.3333333)]. *)
Definition nakshatraIndexOf (lon : Q) : Z :=
  JS.floor (div lon (lit (133333333 # 10000000))).

(** [formatPlanet] (lines 404-447). *)
Definition formatPlanet (englishName : string) (lon : Q) (isRetrograde : bool)
    (ascLon : Q) : PlanetData :=
  let name := JS.orElse (PLANET_NAME_MAP !! englishName) englishName in
  let signIndex := JS.floor (div lon 30) in
  let sign := JS.index SIGNS signIndex in
  let degInSign := JS.rem lon 30 in
  let nakshatraIndex := nakshatraIndexOf lon in
  let nakshatra := JS.orElse (JS.index NAKSHATRAS nakshatraIndex) "Unknown" in
  let lordIndex := Z.rem nakshatraIndex 9 in
  let nakshatraLord := JS.index NAKSHATRA_LORDS lordIndex in
  let rasiLord := JS.orElse (sign ≫= (RASI_LORDS !!.)) "-" in
  let dignity := calculateDignity name sign in
  let navamsaSignIndex := calculateNavamsaIndex lon in
  mkPlanetData name sign (signIndex + 1) nakshatra nakshatraLord rasiLord
    dignity (toDMS degInSign) (toDMS lon) isRetrograde lon
    (houseOf lon ascLon) (JS.index SIGNS navamsaSignIndex).

(** Lines 368-371: the hourly difference of two tropical longitudes
    after the two adjustments. *)
Definition hourlyDiff (elon elonPrev : Q) : Q :=
  let diff := sub elon elonPrev in
  let diff := if JS.ltb diff (-180) then add diff 360 else diff in
  if JS.ltb 180 diff then sub diff 360 else diff.

Section Ephemeris.

(** The astronomy library, as in the exact reading; the longitudes
    it returns are binary64 numbers. *)
Variable elon : string -> Z -> Q.
Variable ut : Z -> Q.
Variable ascDeg : Z -> Q -> Q -> Q.

(** Lines 363-372. *)
Definition bodyIsRetrograde (englishName : string) (date : Z) : bool :=
  if negb (String.eqb englishName "Sun") && negb (String.eqb englishName "Moon")
  then JS.ltb (hourlyDiff (elon englishName date)
                          (elon englishName (date - 3600000))) 0
  else false.

(** [calculatePositions] (lines 326-390). *)
Definition calculatePositions (date : Z) (lat lon ayanamsa : Q)
  : list PlanetData :=
  let siderealAsc := normalize (sub (normalize (ascDeg date lat lon)) ayanamsa) in
  let planets :=
    (fun englishName =>
       let siderealLon := normalize (sub (elon englishName date) ayanamsa) in
       formatPlanet englishName siderealLon
         (bodyIsRetrograde englishName date) siderealAsc) <$> bodyMap in
  let jd := add (ut date) 2451545 in
  let T := div (sub jd 2451545) 36525 in
  let meanNodeLon :=
    normalize
      (add (add (sub (lit (12504452 # 100000)) (mul (lit (1934136261 # 1000000)) T))
                (mul (mul (lit (20708 # 10000000)) T) T))
           (div (mul (mul T T) T) 450000)) in
  let siderealRahu := normalize (sub meanNodeLon ayanamsa) in
  let siderealKetu := normalize (add siderealRahu 180) in
  planets ++
  [ formatPlanet "Rahu" siderealRahu true siderealAsc;
    formatPlanet "Ketu" siderealKetu true siderealAsc;
    formatPlanet "Ascendant" siderealAsc false siderealAsc ].

End Ephemeris.

(** Line 290: [365.2425 * 24 * 60 * 60 * 1000], which is
    31556951999.999996. *)
Definition msPerYear : Q :=
  mul (mul (mul (mul (lit (3652425 # 10000)) 24) 60) 60) 1000.

(** [addTime] (lines 288-294): [setTime] keeps the integral part of
    the rounded sum. *)
Definition addTime (date : Z) (years : Q) : Z :=
  let addedMs := mul years msPerYear in
  JS.trunc (add (inject_Z date) addedMs).

(** A period as the loop of a generator pushes it, with the local
    [durationYears] it was laid with. *)
Record Step := mkStep { durationYears : Q; period : DashaItem }.

Section HostZone.

Variable tz : Z.

(** The loop shared by lines 222-244 and 261-283. *)
Fixpoint subDashaLoop (parentYears : Q) (label : string) (lvl : Z)
    (parents : list string) (startIndex : Z) (idxs : list Z) (current : Z)
  : option (list Step) :=
  match idxs with
  | [] => Some []
  | i :: rest =>
      let idx := Z.rem (startIndex + i) 9 in
      subPlanet ← JS.index NAKSHATRA_LORDS idx;
      subYears ← DASHA_YEARS !! subPlanet;
      let durationYears := div (mul parentYears (inject_Z subYears)) 120 in
      let end_ := addTime current durationYears in
      let dur := getDurationYMD tz current end_ in
      subDashas ← subDashaLoop parentYears label lvl parents startIndex rest end_;
      Some (mkStep durationYears
              (mkDashaItem (label +:+ " - " +:+ subPlanet) current end_
                 (Dur.y dur) (Dur.m dur) (Dur.d dur) lvl (Some parents))
            :: subDashas)
  end.

(** The loop of [calculateAntarDashas] (lines 212-246). *)
Definition antarDashaSteps (parentPlanetName : string) (startDate : Z)
  : option (list Step) :=
  totalYears ← DASHA_YEARS !! parentPlanetName;
  let startIndex := JS.indexOf NAKSHATRA_LORDS parentPlanetName in
  subDashaLoop (inject_Z totalYears) parentPlanetName 2
    [parentPlanetName] startIndex (seqZ 0 9) startDate.

Definition calculateAntarDashas (parentPlanetName : string) (startDate : Z)
  : option (list DashaItem) :=
  match antarDashaSteps parentPlanetName startDate with
  | Some steps => Some (period <$> steps)
  | None => None
  end.

(** The loop of [calculatePratyantarDashas] (lines 249-285). *)
Definition pratyantarDashaSteps (grandParentName parentName : string)
    (startDate : Z) : option (list Step) :=
  gpYears ← DASHA_YEARS !! grandParentName;
  pYears ← DASHA_YEARS !! parentName;
  let antarDurationYears := div (mul (inject_Z gpYears) (inject_Z pYears)) 120 in
  let startIndex := JS.indexOf NAKSHATRA_LORDS parentName in
  subDashaLoop antarDurationYears (grandParentName +:+ " - " +:+ parentName) 3
    [grandParentName; parentName] startIndex (seqZ 0 9) startDate.

Definition calculatePratyantarDashas (grandParentName parentName : string)
    (startDate : Z) : option (list DashaItem) :=
  match pratyantarDashaSteps grandParentName parentName startDate with
  | Some steps => Some (period <$> steps)
  | None => None
  end.

(** The loop of lines 188-206, over the values [idxs] of [i]. *)
Fixpoint mahadashaLoop (lordIndex : Z) (idxs : list Z) (currentDate : Z)
  : option (list DashaItem) :=
  match idxs with
  | [] => Some []
  | i :: rest =>
      let idx := Z.rem (lordIndex + i) 9 in
      planet ← JS.index NAKSHATRA_LORDS idx;
      years ← DASHA_YEARS !! planet;
      let endDate := addTime currentDate (inject_Z years) in
      dashas ← mahadashaLoop lordIndex rest endDate;
      Some (mkDashaItem planet currentDate endDate years 0 0 1 None :: dashas)
  end.

(** [calculateMahadashas] (lines 151-209). *)
Definition calculateMahadashas (moonLon : Q) (birthDate : Z)
  : option (list DashaItem) :=
  let nakshatraSpan := lit nakshatraSpan in
  let moonNakshatraPos := div moonLon nakshatraSpan in
  let nakshatraIndex := JS.floor moonNakshatraPos in
  let fractionTraversed := sub moonNakshatraPos (inject_Z nakshatraIndex) in
  let fractionRemaining := sub 1 fractionTraversed in
  let lordIndex := Z.rem nakshatraIndex 9 in
  firstLord ← JS.index NAKSHATRA_LORDS lordIndex;
  totalYears ← DASHA_YEARS !! firstLord;
  let balanceYears := mul (inject_Z totalYears) fractionRemaining in
  let firstEndDate := addTime birthDate balanceYears in
  let firstDuration := getDurationYMD tz birthDate firstEndDate in
  dashas ← mahadashaLoop lordIndex (seqZ 1 8) firstEndDate;
  Some (mkDashaItem firstLord birthDate firstEndDate
          (Dur.y firstDuration) (Dur.m firstDuration) (Dur.d firstDuration) 1 None
        :: dashas).


End HostZone.

Section Chart.

(** The astronomy library, the host zone, the parser behind
    [new Date(text)] and the search of the city service, as in the
    exact reading. *)
Variable elon : string -> Z -> Q.
Variable ut : Z -> Q.
Variable ascDeg : Z -> Q -> Q -> Q.
Variable tz : Z.
Variable parseDate : string -> option Z.
Variable searchCities : string -> list City.t.

(** [getCoordinatesLocal] (lines 315-324). *)
Definition getCoordinatesLocal (place : string) : Q * Q :=
  let cities := searchCities (default "" (head (split place ","))) in
  match cities with
  | c :: _ => (City.lat c, City.lng c)
  | [] => (lit (286139 # 10000), lit (772090 # 10000))
  end.

(** Lines 129-130: the year with its fraction, and the ayanamsa. *)
Definition ayanamsaOf (dateObj : Z) : Q :=
  let year := add (inject_Z (getFullYear tz dateObj))
                  (div (inject_Z (getMonth tz dateObj)) 12) in
  add (lit (2385 # 100)) (mul (lit (139 # 10000)) (sub year 2000)).

(** [calculateChart] (lines 116-149); [inl] is the error thrown. *)
Definition calculateChart (date time place : string) : string + ChartData :=
  let coords := getCoordinatesLocal place in
  let dateTimeStr := date +:+ "T" +:+ time in
  match parseDate dateTimeStr with
  | None => inl "Invalid Date or Time provided."
  | Some dateObj =>
      let ayanamsa := ayanamsaOf dateObj in
      let planets :=
        calculatePositions elon ut ascDeg dateObj coords.1 coords.2 ayanamsa in
      let moon := List.find (fun p => String.eqb (name p) "Chandra") planets in
      let moonNakshatra :=
        match moon with Some m => nakshatra m | None => "-" end in
      inr (mkChartData planets
             (JS.orElse
                (List.find (fun p => String.eqb (name p) "Lagna") planets ≫= sign)
                "Mesha")
             ayanamsa
             (mkChartMeta date time place moonNakshatra))
  end.

End Chart.

(** The sum of a list of numbers formed in binary64 from left to
    right. *)
Definition total (xs : list Q) : Q := foldl add 0%Q xs.


End Double.

(** ** Notions and finite checks of the binary64 reading *)

Import IEEE.

(** The values of [durationYears] over the loop. *)
Definition loopYears (parentYears : Q) (startIndex : Z) (idxs : list Z) : list Q :=
  omap (fun i =>
          subYears ← yearsAt startIndex i;
          Some (Double.div (Double.mul parentYears (inject_Z subYears)) 120))
       idxs.


(** The milliseconds [addTime] adds for a step of the loop, line 291. *)
Definition addedMs (s : Double.Step) : Q :=
  Double.mul (Double.durationYears s) Double.msPerYear.






(** A full period of [y] years is [y] mean Gregorian years long to a
    quarter of a millisecond before [addTime] rounds the sum. *)
Definition yearsCheck (lord : string) : bool :=
  match DASHA_YEARS !! lord with
  | Some y =>
      let x := Double.mul (inject_Z y) Double.msPerYear in
      Qle_bool 0 x && Qle_bool x (inject_Z (2 ^ 40))
      && Qle_bool (Qabs (x - inject_Z y * 31556952000)) (1 # 4)
  | None => false
  end.

(** A period of the loop of [calculateMahadashas]: the full allotment
    of its lord, laid by [addTime]. *)
Definition fullPeriod (p : DashaItem) : Prop :=
  planet p ∈ NAKSHATRA_LORDS
  /\ DASHA_YEARS !! planet p = Some (durationYear p)
  /\ durationMonth p = 0 /\ durationDay p = 0 /\ level p = 1
  /\ endDate p = Double.addTime (startDate p) (inject_Z (durationYear p)).

(** Each period begins where the one before ends. *)
Fixpoint linked (start : Z) (tl : list DashaItem) : Prop :=
  match tl with
  | [] => True
  | p :: rest => startDate p = start /\ linked (endDate p) rest
  end.

(** A point as [formatPlanet] builds it from a binary64 longitude in
    [0, 360] and an ascendant there. *)
Definition wellPlaced (asc : Q) (p : PlanetData) : Prop :=
  isDouble (longitude p)
  /\ (0 <= longitude p)%Q /\ (longitude p <= 360)%Q
  /\ 1 <= house p <= 12
  /\ house p = Double.houseOf (longitude p) asc
  /\ (sign p = None <-> (longitude p == 360)%Q)
  /\ (forall s, sign p = Some s -> s ∈ SIGNS)
  /\ (exists s, navamsaSign p = Some s /\ s ∈ SIGNS)
  /\ nakshatra p ∈ NAKSHATRAS ++ ["Unknown"].

(** ** The primitive floats *)

Module Primitive.

(** The rational a finite primitive float stands for. *)
Definition value (f : PrimFloat.float) : option Q :=
  match Prim2SF f with
  | S754_zero _ => Some 0%Q
  | S754_finite s m e =>
      let v := (inject_Z (Z.pos m) * IEEE.pow2 e)%Q in
      Some (if s then (- v)%Q else v)
  | _ => None
  end.

(** A primitive float and a rational that are the same number; the
    same for two lists. *)
Definition agrees (f : PrimFloat.float) (q : Q) : bool :=
  match value f with
  | Some v => Qeq_bool v q
  | None => false
  end.

Definition agree (fs : list PrimFloat.float) (qs : list Q) : bool :=
  (length fs =? length qs)%nat && forallb (fun fq => agrees fq.1 fq.2) (zip fs qs).

(** The allotment of the lord at a position of the cycle. *)
Definition yearsOf (i : nat) : Q :=
  inject_Z (default 0 (DASHA_YEARS !! default "" (NAKSHATRA_LORDS !! i))).

End Primitive.

(** * Properties *)

(** ** Facts about the number operations *)

Module JSFacts.

Lemma ltb_lt (x y : Q) : JS.ltb x y = true <-> (x < y)%Q.
Proof.
  unfold JS.ltb. rewrite negb_true_iff, <- not_true_iff_false, Qle_bool_iff.
  split; [apply Qnot_le_lt | apply Qlt_not_le].
Qed.

Lemma ltb_ge (x y : Q) : JS.ltb x y = false <-> (y <= x)%Q.
Proof.
  unfold JS.ltb. rewrite negb_false_iff. apply Qle_bool_iff.
Qed.

Lemma floor_spec (x : Q) :
  (inject_Z (JS.floor x) <= x /\ x < inject_Z (JS.floor x) + 1)%Q.
Proof.
  unfold JS.floor. split; [apply Qfloor_le |].
  pose proof (Qlt_floor x) as H. rewrite inject_Z_plus in H. exact H.
Qed.

Lemma floor_unique (x : Q) (z : Z) :
  (inject_Z z <= x)%Q -> (x < inject_Z z + 1)%Q -> JS.floor x = z.
Proof.
  intros Hlo Hhi. destruct (floor_spec x) as [Flo Fhi].
  assert (H1 : (inject_Z z < inject_Z (JS.floor x + 1))%Q).
  { rewrite inject_Z_plus. change (inject_Z 1) with 1%Q. lra. }
  assert (H2 : (inject_Z (JS.floor x) < inject_Z (z + 1))%Q).
  { rewrite inject_Z_plus. change (inject_Z 1) with 1%Q. lra. }
  rewrite <- Zlt_Qlt in H1, H2. lia.
Qed.

Lemma trunc_nonneg (x : Q) : (0 <= x)%Q -> JS.trunc x = JS.floor x.
Proof.
  destruct x as [n dd]. unfold Qle, JS.trunc, JS.floor, Qfloor. simpl.
  intros H. apply Z.quot_div_nonneg; lia.
Qed.

Lemma trunc_opp (x : Q) : JS.trunc (- x) = - JS.trunc x.
Proof.
  destruct x as [n dd]. unfold JS.trunc. simpl. apply Z.quot_opp_l. discriminate.
Qed.

Lemma trunc_comp (x x' : Q) : (x == x')%Q -> JS.trunc x = JS.trunc x'.
Proof.
  intros E. destruct (Qlt_le_dec x 0) as [Hn | Hp].
  - assert (Ex : (- - x == x)%Q) by ring.
    assert (Ex' : (- - x' == x')%Q) by ring.
    replace x with (- - x)%Q by (destruct x; unfold Qopp; simpl; f_equal; lia).
    replace x' with (- - x')%Q by (destruct x'; unfold Qopp; simpl; f_equal; lia).
    rewrite !(trunc_opp (- _)). f_equal.
    rewrite !trunc_nonneg by lra. unfold JS.floor. apply Qfloor_comp. lra.
  - rewrite !trunc_nonneg by lra. unfold JS.floor. apply Qfloor_comp. exact E.
Qed.

Lemma trunc_inject (z : Z) : JS.trunc (inject_Z z) = z.
Proof. unfold JS.trunc. simpl. apply Z.quot_1_r. Qed.

(** Truncation moves towards zero by less than one. *)
Lemma trunc_spec_nonneg (x : Q) :
  (0 <= x)%Q -> (inject_Z (JS.trunc x) <= x /\ x < inject_Z (JS.trunc x) + 1)%Q.
Proof. intros H. rewrite trunc_nonneg by exact H. apply floor_spec. Qed.

Lemma trunc_spec_nonpos (x : Q) :
  (x <= 0)%Q -> (x <= inject_Z (JS.trunc x) /\ inject_Z (JS.trunc x) - 1 < x)%Q.
Proof.
  intros H. destruct (trunc_spec_nonneg (- x)) as [A B]; [lra |].
  rewrite trunc_opp, inject_Z_opp in A, B. lra.
Qed.

End JSFacts.

Import JSFacts.

(** ** [normalize] *)

Lemma rem_nonneg (a b : Q) :
  (0 < b)%Q -> (0 <= a)%Q -> (0 <= JS.rem a b /\ JS.rem a b < b)%Q.
Proof.
  intros Hb Ha. unfold JS.rem.
  assert (Hq : (0 <= a / b)%Q).
  { apply Qle_shift_div_l; [exact Hb | lra]. }
  destruct (trunc_spec_nonneg _ Hq) as [A B].
  set (t := inject_Z (JS.trunc (a / b))) in *.
  assert (E : (a == b * (a / b))%Q) by (field; lra).
  set (q := (a / b)%Q) in *. clearbody q t. nra.
Qed.

Lemma rem_nonpos (a b : Q) :
  (0 < b)%Q -> (a <= 0)%Q -> (- b < JS.rem a b /\ JS.rem a b <= 0)%Q.
Proof.
  intros Hb Ha. unfold JS.rem.
  assert (Hq : (a / b <= 0)%Q).
  { apply Qle_shift_div_r; [exact Hb | lra]. }
  destruct (trunc_spec_nonpos _ Hq) as [A B].
  set (t := inject_Z (JS.trunc (a / b))) in *.
  assert (E : (a == b * (a / b))%Q) by (field; lra).
  set (q := (a / b)%Q) in *. clearbody q t. nra.
Qed.

(** A remainder of a number already in range is the number. *)
Lemma rem_small (a b : Q) :
  (0 < b)%Q -> (0 <= a)%Q -> (a < b)%Q -> (JS.rem a b == a)%Q.
Proof.
  intros Hb H0 H1. unfold JS.rem.
  assert (Hq : (0 <= a / b)%Q) by (apply Qle_shift_div_l; [exact Hb | lra]).
  rewrite trunc_nonneg by exact Hq.
  rewrite (floor_unique (a / b) 0).
  - change (inject_Z 0) with 0%Q. ring.
  - exact Hq.
  - change (inject_Z 0) with 0%Q. apply Qlt_shift_div_r; [exact Hb | lra].
Qed.

Lemma rem_shift (a b : Q) :
  (0 < b)%Q -> (b <= a)%Q -> (a < b + b)%Q -> (JS.rem a b == a - b)%Q.
Proof.
  intros Hb H0 H1. unfold JS.rem.
  assert (Hq : (1 <= a / b)%Q) by (apply Qle_shift_div_l; [exact Hb | lra]).
  rewrite trunc_nonneg by lra.
  rewrite (floor_unique (a / b) 1).
  - change (inject_Z 1) with 1%Q. ring.
  - exact Hq.
  - change (inject_Z 1) with 1%Q. apply Qlt_shift_div_r; [exact Hb | lra].
Qed.

Lemma normalize_range (d : Q) : (0 <= normalize d /\ normalize d < 360)%Q.
Proof.
  unfold normalize. cbv zeta.
  destruct (JS.ltb (JS.rem d 360) 0) eqn:E.
  - apply ltb_lt in E.
    destruct (Qlt_le_dec d 0) as [Hd | Hd].
    + destruct (rem_nonpos d 360) as [A B]; lra.
    + destruct (rem_nonneg d 360) as [A B]; lra.
  - apply ltb_ge in E.
    destruct (Qlt_le_dec d 0) as [Hd | Hd].
    + destruct (rem_nonpos d 360) as [A B]; lra.
    + destruct (rem_nonneg d 360) as [A B]; lra.
Qed.

(** ** Houses *)

Lemma floor_comp (x x' : Q) : (x == x')%Q -> JS.floor x = JS.floor x'.
Proof. intros E. unfold JS.floor. apply Qfloor_comp. exact E. Qed.

Lemma rem_small_neg (a b : Q) :
  (0 < b)%Q -> (- b < a)%Q -> (a <= 0)%Q -> (JS.rem a b == a)%Q.
Proof.
  intros Hb H0 H1. unfold JS.rem.
  assert (E : JS.trunc (a / b) = 0).
  { assert (Ho : (a / b == - ((- a) / b))%Q) by (field; lra).
    rewrite (trunc_comp _ _ Ho), trunc_opp.
    assert (Hq : (0 <= (- a) / b)%Q) by (apply Qle_shift_div_l; [exact Hb | lra]).
    rewrite trunc_nonneg by exact Hq.
    rewrite (floor_unique (- a / b) 0); [reflexivity | exact Hq |].
    change (inject_Z 0) with 0%Q. apply Qlt_shift_div_r; [exact Hb | lra]. }
  rewrite E. change (inject_Z 0) with 0%Q. ring.
Qed.

(** Over one turn either side, the adjustment of lines 424-425 is
    [normalize]. *)
Lemma house_adjust_normalize (x : Q) :
  (-360 < x)%Q -> (x < 720)%Q ->
  (JS.rem (if JS.ltb x 0 then x + 360 else x) 360 == normalize x)%Q.
Proof.
  intros Lo Hi. unfold normalize. cbv zeta.
  destruct (JS.ltb x 0) eqn:E.
  - apply ltb_lt in E.
    pose proof (rem_small_neg x 360) as Hx.
    assert (Hn : JS.ltb (JS.rem x 360) 0 = true) by (apply ltb_lt; lra).
    rewrite Hn. pose proof (rem_small (x + 360) 360). lra.
  - apply ltb_ge in E.
    destruct (rem_nonneg x 360) as [A B]; [lra | exact E |].
    assert (Hn : JS.ltb (JS.rem x 360) 0 = false) by (apply ltb_ge; exact A).
    rewrite Hn. reflexivity.
Qed.

Lemma floor_div_band (v : Q) (w : Q) (k : Z) :
  (0 < w)%Q ->
  JS.floor (v / w) = k <-> (inject_Z k * w <= v /\ v < inject_Z k * w + w)%Q.
Proof.
  intros Hw. split.
  - intros <-. destruct (floor_spec (v / w)) as [A B].
    assert (E : (v == w * (v / w))%Q) by (field; lra).
    set (q := (v / w)%Q) in *. set (f := inject_Z (JS.floor q)) in *.
    clearbody q f. nra.
  - intros [A B]. apply floor_unique.
    + apply Qle_shift_div_l; [exact Hw | exact A].
    + apply Qlt_shift_div_r; [exact Hw | lra].
Qed.

Lemma normalize_turns (x : Q) : exists n : Z, (normalize x == x - 360 * inject_Z n)%Q.
Proof.
  unfold normalize, JS.rem. cbv zeta.
  set (t := JS.trunc (x / 360)).
  destruct (JS.ltb _ 0).
  - exists (t - 1). unfold Z.sub. rewrite inject_Z_plus, inject_Z_opp.
    change (inject_Z 1) with 1%Q. ring.
  - exists t. reflexivity.
Qed.

Lemma houseOf_normalize (lon ascLon : Q) :
  (0 <= lon)%Q -> (lon < 360)%Q -> (0 <= ascLon)%Q -> (ascLon < 360)%Q ->
  houseOf lon ascLon = JS.floor (normalize (lon - (ascLon - 15)) / 30) + 1.
Proof.
  intros. unfold houseOf. cbv zeta. f_equal. apply floor_comp.
  rewrite house_adjust_normalize by lra. reflexivity.
Qed.

(** ** Adding time, and the table of allotments *)

Lemma msPerYear_value : (msPerYear == 31556952000)%Q.
Proof. reflexivity. Qed.

Lemma addTime_integral (date : Z) (years : Q) (k : Z) :
  (years * msPerYear == inject_Z k)%Q -> addTime date years = date + k.
Proof.
  intros E. unfold addTime. cbv zeta.
  rewrite (trunc_comp _ (inject_Z (date + k))).
  - apply trunc_inject.
  - rewrite inject_Z_plus, E. reflexivity.
Qed.

Lemma addTime_ge (date : Z) (years : Q) :
  (0 <= years)%Q -> date <= addTime date years.
Proof.
  intros H. unfold addTime. cbv zeta.
  assert (Hm : (0 <= years * msPerYear)%Q).
  { rewrite msPerYear_value. lra. }
  set (x := (inject_Z date + years * msPerYear)%Q).
  assert (Hx : (inject_Z date <= x)%Q) by (unfold x; lra).
  destruct (Qlt_le_dec x 0) as [Hn | Hp].
  - destruct (trunc_spec_nonpos x) as [A _]; [lra |].
    rewrite Zle_Qle. lra.
  - destruct (trunc_spec_nonneg x Hp) as [A B].
    assert (Hlt : (inject_Z date < inject_Z (JS.trunc x + 1))%Q).
    { rewrite inject_Z_plus. change (inject_Z 1) with 1%Q. lra. }
    rewrite <- Zlt_Qlt in Hlt. lia.
Qed.

(** Every lord of the cycle has a positive allotment. *)
Lemma lord_years (j : Z) :
  0 <= j < 9 ->
  exists lord yrs,
    JS.index NAKSHATRA_LORDS j = Some lord /\ DASHA_YEARS !! lord = Some yrs
    /\ 0 < yrs.
Proof.
  intros Hj.
  assert (C : j = 0 \/ j = 1 \/ j = 2 \/ j = 3 \/ j = 4 \/ j = 5 \/ j = 6
              \/ j = 7 \/ j = 8) by lia.
  repeat (destruct C as [-> | C]); [.. | subst j];
    eexists _, _; (split; [reflexivity | split; [vm_compute; reflexivity | reflexivity]]).
Qed.

Lemma DASHA_YEARS_pos (lord : string) (yrs : Z) :
  DASHA_YEARS !! lord = Some yrs -> 0 < yrs.
Proof.
  unfold DASHA_YEARS. intros H. apply elem_of_list_to_map_2 in H.
  repeat (apply elem_of_cons in H as [H | H]; [inversion H; lia |]).
  by apply elem_of_nil in H.
Qed.

Lemma rem9_range (s i : Z) : 0 <= s -> 0 <= i -> 0 <= Z.rem (s + i) 9 < 9.
Proof. intros. apply Z.rem_bound_pos; lia. Qed.

(** ** The loops of the dasha generators *)

Section Loops.
Variable tz : Z.

Lemma subDashaLoop_cons parentYears label lvl parents s i idxs current tl :
  subDashaLoop tz parentYears label lvl parents s (i :: idxs) current = Some tl ->
  exists subPlanet subYears rest,
    JS.index NAKSHATRA_LORDS (Z.rem (s + i) 9) = Some subPlanet
    /\ DASHA_YEARS !! subPlanet = Some subYears
    /\ subDashaLoop tz parentYears label lvl parents s idxs
         (addTime current (durationYearsOf parentYears subYears)) = Some rest
    /\ tl = mkDashaItem (label +:+ " - " +:+ subPlanet) current
              (addTime current (durationYearsOf parentYears subYears))
              (Dur.y (getDurationYMD tz current
                        (addTime current (durationYearsOf parentYears subYears))))
              (Dur.m (getDurationYMD tz current
                        (addTime current (durationYearsOf parentYears subYears))))
              (Dur.d (getDurationYMD tz current
                        (addTime current (durationYearsOf parentYears subYears))))
              lvl (Some parents) :: rest.
Proof.
  simpl. intros H.
  destruct (JS.index NAKSHATRA_LORDS (Z.rem (s + i) 9)) as [subPlanet |]; [| discriminate].
  simpl in H. destruct (DASHA_YEARS !! subPlanet) as [subYears |] eqn:Ey; [| discriminate].
  simpl in H.
  destruct (subDashaLoop tz parentYears label lvl parents s idxs _) as [rest |] eqn:E;
    [| discriminate].
  simpl in H. injection H as <-. exists subPlanet, subYears, rest. auto.
Qed.

Lemma subDashaLoop_total parentYears label lvl parents s idxs current :
  0 <= s -> Forall (fun i => 0 <= i) idxs ->
  exists tl, subDashaLoop tz parentYears label lvl parents s idxs current = Some tl.
Proof.
  intros Hs Hi. revert current. induction Hi as [| i idxs Hi0 _ IH]; intros current.
  - exists []. reflexivity.
  - destruct (lord_years (Z.rem (s + i) 9)) as (lord & yrs & A & B & _).
    { apply rem9_range; assumption. }
    destruct (IH (addTime current (durationYearsOf parentYears yrs))) as [rest E].
    simpl. rewrite A. simpl. rewrite B. simpl. rewrite E. simpl. eauto.
Qed.

Lemma subDashaLoop_length parentYears label lvl parents s idxs current tl :
  subDashaLoop tz parentYears label lvl parents s idxs current = Some tl ->
  length tl = length idxs.
Proof.
  revert current tl. induction idxs as [| i idxs IH]; intros current tl H.
  - injection H as <-. reflexivity.
  - apply subDashaLoop_cons in H as (sp & sy & rest & _ & _ & Hr & ->).
    simpl. f_equal. eapply IH, Hr.
Qed.

Lemma subDashaLoop_chained parentYears label lvl parents s idxs current tl :
  (0 <= parentYears)%Q ->
  subDashaLoop tz parentYears label lvl parents s idxs current = Some tl ->
  chained current tl.
Proof.
  intros HP. revert current tl. induction idxs as [| i idxs IH]; intros current tl H.
  - injection H as <-. exact I.
  - apply subDashaLoop_cons in H as (sp & sy & rest & _ & Hy & Hr & ->).
    simpl. split; [reflexivity | split].
    + apply addTime_ge. unfold durationYearsOf.
      apply DASHA_YEARS_pos in Hy.
      assert (Hq : (0 < inject_Z sy)%Q) by (change 0%Q with (inject_Z 0); rewrite <- Zlt_Qlt; lia).
      apply Qle_shift_div_l; [lra | nra].
    + eapply IH, Hr.
Qed.

End Loops.

Lemma yearsSum_cycle (s : Z) : 0 <= s < 9 -> yearsSum s (seqZ 0 9) = 120.
Proof.
  intros Hs.
  assert (C : s = 0 \/ s = 1 \/ s = 2 \/ s = 3 \/ s = 4 \/ s = 5 \/ s = 6
              \/ s = 7 \/ s = 8) by lia.
  repeat (destruct C as [-> | C]); [.. | subst s]; vm_compute; reflexivity.
Qed.

Lemma lord_facts (L : string) :
  L ∈ NAKSHATRA_LORDS ->
  exists yrs, DASHA_YEARS !! L = Some yrs /\ 0 < yrs
              /\ 0 <= JS.indexOf NAKSHATRA_LORDS L < 9.
Proof.
  unfold NAKSHATRA_LORDS. intros H.
  repeat (apply elem_of_cons in H as [-> | H];
          [eexists; split; [vm_compute; reflexivity | split; [reflexivity | split; by vm_compute]] |]).
  by apply elem_of_nil in H.
Qed.

Lemma seqZ_nonneg (a n : Z) : 0 <= a -> Forall (fun i => 0 <= i) (seqZ a n).
Proof.
  intros Ha. apply Forall_forall. intros i Hi.
  apply elem_of_seqZ in Hi. lia.
Qed.

Lemma antar_integral (P sy : Z) :
  integralYears (durationYearsOf (inject_Z P) sy) (P * sy * 262974600).
Proof.
  unfold integralYears, durationYearsOf. rewrite msPerYear_value.
  rewrite !inject_Z_mult. change (inject_Z 262974600) with 262974600%Q. field.
Qed.

Lemma pratyantar_integral (G P sy : Z) :
  integralYears (durationYearsOf (inject_Z G * inject_Z P / 120) sy)
    (G * P * sy * 2191455).
Proof.
  unfold integralYears, durationYearsOf. rewrite msPerYear_value.
  rewrite !inject_Z_mult. change (inject_Z 2191455) with 2191455%Q. field.
Qed.

Section Maha.
Variable tz : Z.

Lemma mahadashaLoop_cons lordIndex i idxs current tl :
  mahadashaLoop lordIndex (i :: idxs) current = Some tl ->
  exists planet years rest,
    JS.index NAKSHATRA_LORDS (Z.rem (lordIndex + i) 9) = Some planet
    /\ DASHA_YEARS !! planet = Some years
    /\ mahadashaLoop lordIndex idxs (addTime current (inject_Z years)) = Some rest
    /\ tl = mkDashaItem planet current (addTime current (inject_Z years))
              years 0 0 1 None :: rest.
Proof.
  simpl. intros H.
  destruct (JS.index NAKSHATRA_LORDS (Z.rem (lordIndex + i) 9)) as [planet |];
    [| discriminate].
  simpl in H. destruct (DASHA_YEARS !! planet) as [years |] eqn:Ey; [| discriminate].
  simpl in H.
  destruct (mahadashaLoop lordIndex idxs _) as [rest |] eqn:E; [| discriminate].
  simpl in H. injection H as <-. exists planet, years, rest. auto.
Qed.

Lemma mahadashaLoop_total lordIndex idxs current :
  0 <= lordIndex -> Forall (fun i => 0 <= i) idxs ->
  exists tl, mahadashaLoop lordIndex idxs current = Some tl.
Proof.
  intros Hs Hi. revert current. induction Hi as [| i idxs Hi0 _ IH]; intros current.
  - exists []. reflexivity.
  - destruct (lord_years (Z.rem (lordIndex + i) 9)) as (lord & yrs & A & B & _).
    { apply rem9_range; assumption. }
    destruct (IH (addTime current (inject_Z yrs))) as [rest E].
    simpl. rewrite A. simpl. rewrite B. simpl. rewrite E. simpl. eauto.
Qed.

Lemma mahadashaLoop_length lordIndex idxs current tl :
  mahadashaLoop lordIndex idxs current = Some tl -> length tl = length idxs.
Proof.
  revert current tl. induction idxs as [| i idxs IH]; intros current tl H.
  - injection H as <-. reflexivity.
  - apply mahadashaLoop_cons in H as (sp & sy & rest & _ & _ & Hr & ->).
    simpl. f_equal. eapply IH, Hr.
Qed.

Lemma mahadashaLoop_chained lordIndex idxs current tl :
  mahadashaLoop lordIndex idxs current = Some tl -> chained current tl.
Proof.
  revert current tl. induction idxs as [| i idxs IH]; intros current tl H.
  - injection H as <-. exact I.
  - apply mahadashaLoop_cons in H as (sp & sy & rest & _ & Hy & Hr & ->).
    simpl. split; [reflexivity | split].
    + apply addTime_ge. apply DASHA_YEARS_pos in Hy.
      change 0%Q with (inject_Z 0). rewrite <- Zle_Qle. lia.
    + eapply IH, Hr.
Qed.

(** The periods after the first: the lords that follow in the cycle,
    each with its full allotment and no months or days. *)
Lemma mahadashaLoop_full lordIndex idxs current tl :
  mahadashaLoop lordIndex idxs current = Some tl ->
  Forall2 (fun i p =>
             JS.index NAKSHATRA_LORDS (Z.rem (lordIndex + i) 9) = Some (planet p)
             /\ DASHA_YEARS !! planet p = Some (durationYear p)
             /\ durationMonth p = 0 /\ durationDay p = 0 /\ level p = 1
             /\ endDate p = startDate p + durationYear p * 31556952000)
          idxs tl.
Proof.
  revert current tl. induction idxs as [| i idxs IH]; intros current tl H.
  - injection H as <-. constructor.
  - apply mahadashaLoop_cons in H as (sp & sy & rest & Hl & Hy & Hr & ->).
    constructor; [| eapply IH, Hr]. simpl.
    repeat split; try assumption.
    apply addTime_integral. rewrite msPerYear_value, inject_Z_mult. reflexivity.
Qed.

Lemma nakshatra_position_nonneg (moonLon : Q) :
  (0 <= moonLon)%Q -> 0 <= JS.floor (moonLon / nakshatraSpan).
Proof.
  intros H. unfold JS.floor.
  change 0 with (Qfloor 0). apply Qfloor_resp_le.
  apply Qle_shift_div_l; [reflexivity | lra].
Qed.

Lemma calculateMahadashas_inv moonLon birthDate tl :
  calculateMahadashas tz moonLon birthDate = Some tl ->
  exists firstLord totalYears balanceYears rest,
    JS.index NAKSHATRA_LORDS (Z.rem (JS.floor (moonLon / nakshatraSpan)) 9)
      = Some firstLord
    /\ DASHA_YEARS !! firstLord = Some totalYears
    /\ balanceYearsOf moonLon = Some balanceYears
    /\ mahadashaLoop (Z.rem (JS.floor (moonLon / nakshatraSpan)) 9) (seqZ 1 8)
         (addTime birthDate balanceYears) = Some rest
    /\ tl = mkDashaItem firstLord birthDate (addTime birthDate balanceYears)
              (Dur.y (getDurationYMD tz birthDate (addTime birthDate balanceYears)))
              (Dur.m (getDurationYMD tz birthDate (addTime birthDate balanceYears)))
              (Dur.d (getDurationYMD tz birthDate (addTime birthDate balanceYears)))
              1 None :: rest.
Proof.
  unfold calculateMahadashas, balanceYearsOf. cbv zeta. intros H.
  destruct (JS.index NAKSHATRA_LORDS _) as [firstLord |]; [| discriminate].
  cbn [mbind option_bind] in H |- *.
  destruct (DASHA_YEARS !! firstLord) as [totalYears |] eqn:Ey; [| discriminate].
  cbn [mbind option_bind] in H |- *.
  destruct (mahadashaLoop _ _ _) as [rest |] eqn:E; [| discriminate].
  cbn [mbind option_bind] in H. injection H as <-.
  eexists firstLord, totalYears, _, rest. eauto.
Qed.

Lemma balanceYearsOf_nonneg moonLon b :
  balanceYearsOf moonLon = Some b -> (0 <= b)%Q.
Proof.
  unfold balanceYearsOf. cbv zeta.
  destruct (floor_spec (moonLon / nakshatraSpan)) as [A B].
  set (q := (moonLon / nakshatraSpan)%Q) in *.
  set (f := JS.floor q) in *. clearbody f q. intros H.
  destruct (JS.index NAKSHATRA_LORDS _) as [firstLord |]; [| discriminate].
  cbn [mbind option_bind] in H.
  destruct (DASHA_YEARS !! firstLord) as [totalYears |] eqn:Ey; [| discriminate].
  cbn [mbind option_bind] in H. injection H as <-.
  apply DASHA_YEARS_pos in Ey.
  assert (Hq : (0 < inject_Z totalYears)%Q)
    by (change 0%Q with (inject_Z 0); rewrite <- Zlt_Qlt; lia).
  apply Qmult_le_0_compat; lra.
Qed.

Lemma calculateMahadashas_total moonLon birthDate :
  (0 <= moonLon)%Q ->
  exists tl, calculateMahadashas tz moonLon birthDate = Some tl.
Proof.
  intros H. pose proof (nakshatra_position_nonneg moonLon H) as Hn.
  unfold calculateMahadashas. cbv zeta.
  assert (Hr : 0 <= Z.rem (JS.floor (moonLon / nakshatraSpan)) 9 < 9)
    by (apply Z.rem_bound_pos; lia).
  destruct (lord_years _ Hr) as (lord & yrs & A & B & _).
  rewrite A. cbn [mbind option_bind]. rewrite B. cbn [mbind option_bind].
  edestruct (mahadashaLoop_total (Z.rem (JS.floor (moonLon / nakshatraSpan)) 9)
               (seqZ 1 8)) as [rest E]; [lia | apply seqZ_nonneg; lia |].
  rewrite E. cbn [mbind option_bind]. eauto.
Qed.

Lemma calculateMahadashas_chained moonLon birthDate tl :
  calculateMahadashas tz moonLon birthDate = Some tl ->
  length tl = 9%nat /\ chained birthDate tl.
Proof.
  intros H. apply calculateMahadashas_inv in H
    as (fl & ty & b & rest & _ & _ & Hb & Hr & ->).
  split.
  - simpl. rewrite (mahadashaLoop_length _ _ _ _ Hr). reflexivity.
  - simpl. split; [reflexivity | split].
    + apply addTime_ge. eapply balanceYearsOf_nonneg, Hb.
    + eapply mahadashaLoop_chained, Hr.
Qed.

End Maha.

Lemma chained_lookup (start : Z) (tl : list DashaItem) :
  chained start tl ->
  (forall p, tl !! 0%nat = Some p -> startDate p = start)
  /\ (forall (i : nat) p q,
        tl !! i = Some p -> tl !! S i = Some q -> startDate q = endDate p)
  /\ Forall (fun p => startDate p <= endDate p) tl.
Proof.
  revert start. induction tl as [| a tl IH]; intros start H.
  - repeat split; [intros ? [=] | intros ? ? ? [=] | constructor].
  - destruct H as (Hs & Hle & Hc).
    destruct (IH _ Hc) as (I0 & I1 & I2).
    repeat split.
    + intros p [= <-]. exact Hs.
    + intros [| i] p q Hp Hq; simpl in Hp, Hq.
      * injection Hp as <-. apply I0. exact Hq.
      * eapply I1; eassumption.
    + constructor; assumption.
Qed.

(** C6: the timelines of [calculateMahadashas] (for a Moon longitude
    that is not negative), [calculateAntarDashas] and
    [calculatePratyantarDashas] (for lords of the cycle) have nine
    periods; the first starts at the instant given, each of the
    others starts at the end of the one before, and none ends before
    it starts. *)
Theorem timelines_contiguous (tz : Z) (moonLon : Q) (G L : string)
    (birthDate start : Z) :
  (0 <= moonLon)%Q -> G ∈ NAKSHATRA_LORDS -> L ∈ NAKSHATRA_LORDS ->
  exists maha antar praty,
    calculateMahadashas tz moonLon birthDate = Some maha
    /\ calculateAntarDashas tz L start = Some antar
    /\ calculatePratyantarDashas tz G L start = Some praty
    /\ contiguousFrom birthDate maha
    /\ contiguousFrom start antar
    /\ contiguousFrom start praty.
Proof.
  intros Hm HG HL.
  destruct (calculateMahadashas_total tz moonLon birthDate Hm) as [maha Em].
  destruct (lord_facts G HG) as (yG & EG & HyG & _).
  destruct (lord_facts L HL) as (yL & EL & HyL & Hs).
  assert (QG : (0 < inject_Z yG)%Q)
    by (change 0%Q with (inject_Z 0); rewrite <- Zlt_Qlt; lia).
  assert (QL : (0 < inject_Z yL)%Q)
    by (change 0%Q with (inject_Z 0); rewrite <- Zlt_Qlt; lia).
  destruct (subDashaLoop_total tz (inject_Z yL) L 2 [L]
              (JS.indexOf NAKSHATRA_LORDS L) (seqZ 0 9) start)
    as [antar Ea]; [lia | apply seqZ_nonneg; lia |].
  destruct (subDashaLoop_total tz (inject_Z yG * inject_Z yL / 120)
              (G +:+ " - " +:+ L) 3 [G; L]
              (JS.indexOf NAKSHATRA_LORDS L) (seqZ 0 9) start)
    as [praty Ep]; [lia | apply seqZ_nonneg; lia |].
  exists maha, antar, praty.
  unfold calculateAntarDashas, calculatePratyantarDashas.
  rewrite EG, EL. cbn [mbind option_bind].
  split; [exact Em | split; [exact Ea | split; [exact Ep |]]].
  destruct (calculateMahadashas_chained tz _ _ _ Em) as [Lm Cm].
  pose proof (subDashaLoop_length _ _ _ _ _ _ _ _ _ Ea) as La.
  pose proof (subDashaLoop_length _ _ _ _ _ _ _ _ _ Ep) as Lp.
  assert (Ca : chained start antar).
  { eapply subDashaLoop_chained; [| exact Ea]. lra. }
  assert (Cp : chained start praty).
  { eapply subDashaLoop_chained; [| exact Ep].
    apply Qle_shift_div_l; [reflexivity | nra]. }
  unfold contiguousFrom.
  split; [split; [exact Lm | apply chained_lookup; exact Cm] |].
  split; [split; [exact La | apply chained_lookup; exact Ca] |].
  split; [exact Lp | apply chained_lookup; exact Cp].
Qed.

Lemma timelines_contiguous_witness :
  (0 <= 545 # 10)%Q /\ "Shani" ∈ NAKSHATRA_LORDS /\ "Budha" ∈ NAKSHATRA_LORDS /\
  exists maha antar praty,
    calculateMahadashas 0 (545 # 10) 946684800000 = Some maha
    /\ calculateAntarDashas 0 "Budha" 946684800000 = Some antar
    /\ calculatePratyantarDashas 0 "Shani" "Budha" 946684800000 = Some praty
    /\ contiguousFrom 946684800000 maha
    /\ contiguousFrom 946684800000 antar
    /\ contiguousFrom 946684800000 praty.
Proof.
  assert (Hm : (0 <= 545 # 10)%Q) by (unfold Qle; simpl; lia).
  assert (HG : "Shani" ∈ NAKSHATRA_LORDS)
    by (apply (list_elem_of_lookup_2 _ 7%nat); reflexivity).
  assert (HL : "Budha" ∈ NAKSHATRA_LORDS)
    by (apply (list_elem_of_lookup_2 _ 8%nat); reflexivity).
  split; [exact Hm | split; [exact HG | split; [exact HL |]]].
  exact (timelines_contiguous 0 (545 # 10) "Shani" "Budha" 946684800000
           946684800000 Hm HG HL).
Defined.

(** C2: the source divides by 13.3333333333 where the claim has
    360/27.  At the Moon longitude 359.9999999999 the claim starts
    the cycle at Budha with a balance under a millionth of a year;
    [calculateMahadashas] starts it at Ketu with a balance above six
    years. *)
Theorem mahadasha_first_lord_near_360 (tz birthDate : Z) :
  (0 <= 3599999999999 # 10000000000)%Q
  /\ (3599999999999 # 10000000000 < 360)%Q
  /\ spec_firstLord (3599999999999 # 10000000000) = Some "Budha"
  /\ (exists b', spec_balanceYears (3599999999999 # 10000000000) = Some b'
                  /\ (b' < 1 # 1000000)%Q)
  /\ exists first rest b,
       calculateMahadashas tz (3599999999999 # 10000000000) birthDate
         = Some (first :: rest)
       /\ planet first = "Ketu"
       /\ balanceYearsOf (3599999999999 # 10000000000) = Some b
       /\ (6 < b)%Q
       /\ endDate first = addTime birthDate b.
Proof.
  split; [unfold Qle; simpl; lia |].
  split; [unfold Qlt; simpl; lia |].
  split; [vm_compute; reflexivity |].
  split; [eexists; split; [vm_compute; reflexivity | vm_compute; reflexivity] |].
  destruct (calculateMahadashas_total tz (3599999999999 # 10000000000) birthDate)
    as [tl E]; [unfold Qle; simpl; lia |].
  destruct (calculateMahadashas_inv tz _ _ _ E)
    as (fl & ty & b & rest & Hl & Hy & Hb & Hr & ->).
  eexists _, rest, b.
  split; [exact E |].
  vm_compute in Hl. injection Hl as <-.
  split; [reflexivity | split; [exact Hb |]].
  vm_compute in Hb. injection Hb as <-.
  split; [vm_compute; reflexivity | reflexivity].
Qed.

(** C9: at the Moon longitude 54.5 the first lord is Kuja for every
    birth instant, and the balance the source computes is below
    6.3875 years (it divides by 13.3333333333, not 360/27).  For a
    birth at 2000-01-01 00:19:29.100 in a zone at UTC the first period
    ends at 23:59:59.997 on 2006-05-21, three milliseconds before the
    instant 6.3875 years after birth, and carries 6 years 4 months 20
    days where the span of 6.3875 years gives 6 years 4 months 21
    days. *)
Theorem mahadasha_54_5_first_period :
  (forall tz birthDate, exists first rest b,
      calculateMahadashas tz (545 # 10) birthDate = Some (first :: rest)
      /\ planet first = "Kuja"
      /\ balanceYearsOf (545 # 10) = Some b
      /\ (b < 63875 # 10000)%Q
      /\ endDate first = addTime birthDate b)
  /\ exists first rest,
      calculateMahadashas 0 (545 # 10) 946685969100 = Some (first :: rest)
      /\ endDate first = 1148255999997
      /\ (durationYear first, durationMonth first, durationDay first) = (6, 4, 20)
      /\ addTime 946685969100 (63875 # 10000) = 1148256000000
      /\ getDurationYMD 0 946685969100 1148256000000 = Dur.mk 6 4 21.
Proof.
  split.
  - intros tz birthDate.
    destruct (calculateMahadashas_total tz (545 # 10) birthDate)
      as [tl E]; [unfold Qle; simpl; lia |].
    destruct (calculateMahadashas_inv tz _ _ _ E)
      as (fl & ty & b & rest & Hl & Hy & Hb & Hr & ->).
    eexists _, rest, b.
    split; [exact E |].
    vm_compute in Hl. injection Hl as <-.
    split; [reflexivity | split; [exact Hb |]].
    vm_compute in Hb. injection Hb as <-.
    split; [vm_compute; reflexivity | reflexivity].
  - eexists _, _. split; [vm_compute; reflexivity |].
    repeat split; vm_compute; reflexivity.
Qed.

Lemma getDurationYMD_local (tz start end_ : Z) :
  getDurationYMD tz start end_ = getDurationYMD 0 (start + tz) (end_ + tz).
Proof.
  unfold getDurationYMD, getFullYear, getMonth, getDate, newDate, localDay.
  rewrite !Z.add_0_r, !Z.sub_0_r.
  repeat match goal with
  | |- context [(?a * msPerDay - tz + tz)] =>
      replace (a * msPerDay - tz + tz) with (a * msPerDay) by lia
  end.
  reflexivity.
Qed.

(** C10: in every zone there are instants [start] before [end_],
    [start] on the 31st of a month and [end_] on the 1st of March
    after a February of 28 days, for which [getDurationYMD] returns
    the day component -2 (the borrow adds 28 to -30); and
    [calculateAntarDashas] returns such a period: the first sub-period
    of Shukra from local midnight on 2019-10-31. *)
Theorem duration_day_can_be_negative (tz : Z) :
  (exists start end_,
      start < end_
      /\ getDate tz start = 31
      /\ (getFullYear tz end_, getMonth tz end_, getDate tz end_) = (2023, 2, 1)
      /\ getDate tz (newDate tz (getFullYear tz end_) (getMonth tz end_) 0) = 28
      /\ getDurationYMD tz start end_ = Dur.mk 0 1 (-2))
  /\ exists tl p,
      calculateAntarDashas tz "Shukra" (1572480000000 - tz) = Some tl
      /\ tl !! 0%nat = Some p
      /\ startDate p < endDate p
      /\ durationDay p = -2.
Proof.
  split.
  - exists (1675123200000 - tz), (1677628800000 - tz).
    split; [lia |].
    rewrite getDurationYMD_local.
    unfold getDate, getFullYear, getMonth, newDate, localDay.
    repeat match goal with
    | |- context [(?a - tz + tz)] => replace (a - tz + tz) with a by lia
    end.
    repeat split; vm_compute; reflexivity.
  - destruct (subDashaLoop_total tz (inject_Z 20) "Shukra" 2 ["Shukra"] 1
                (seqZ 0 9) (1572480000000 - tz))
      as [tl E]; [lia | apply seqZ_nonneg; lia |].
    assert (Ec : calculateAntarDashas tz "Shukra" (1572480000000 - tz) = Some tl).
    { unfold calculateAntarDashas.
      replace (DASHA_YEARS !! "Shukra") with (Some 20) by (vm_compute; reflexivity).
      exact E. }
    rewrite (seqZ_cons 0 9) in E by lia.
    apply subDashaLoop_cons in E as (sp & sy & rest & Hl & Hy & _ & ->).
    vm_compute in Hl. injection Hl as <-.
    vm_compute in Hy. injection Hy as <-.
    eexists _, _. split; [exact Ec | split; [reflexivity |]].
    cbn [startDate endDate durationDay].
    rewrite (addTime_integral _ _ _ (antar_integral 20 20)).
    rewrite getDurationYMD_local.
    replace (1572480000000 - tz + tz) with 1572480000000 by lia.
    replace (1572480000000 - tz + 20 * 20 * 262974600 + tz)
      with 1677669840000 by lia.
    split; [lia | vm_compute; reflexivity].
Qed.

(** ** Chart points *)

(** C3: the source divides by 13.3333333 where the claim has 360/27.
    At the longitude 359.99999999 the claim gives the index 26;
    line 413 gives 27, past the end of the table of 27 names, and
    the chart point is named Unknown. *)
Theorem nakshatra_index_past_table :
  (0 <= 35999999999 # 100000000)%Q
  /\ (35999999999 # 100000000 < 360)%Q
  /\ spec_nakshatraIndex (35999999999 # 100000000) = 26
  /\ nakshatraIndexOf (35999999999 # 100000000) = 27
  /\ JS.index NAKSHATRAS 27 = None
  /\ nakshatra (formatPlanet "Moon" (35999999999 # 100000000) false 0) = "Unknown".
Proof. repeat split; vm_compute; reflexivity || discriminate. Qed.

(** Where the index stays in the table. *)
Lemma nakshatraIndexOf_range (lon : Q) :
  (0 <= lon)%Q -> (lon < 360)%Q -> 0 <= nakshatraIndexOf lon <= 27.
Proof.
  intros L0 L1. unfold nakshatraIndexOf.
  destruct (floor_div_band lon (133333333 # 10000000)
              (JS.floor (lon / (133333333 # 10000000)))) as [F _];
    [reflexivity |].
  destruct (F eq_refl) as [A B].
  clear F. set (f := JS.floor _) in *. clearbody f.
  assert (H1 : (inject_Z (-1) < inject_Z f)%Q).
  { change (inject_Z (-1)) with (-1)%Q.
    lra. }
  assert (H2 : (inject_Z f < inject_Z 28)%Q).
  { change (inject_Z 28) with 28%Q.
    lra. }
  rewrite <- Zlt_Qlt in H1, H2. lia.
Qed.

(** C4 (amended): [calculateDignity] answers by the first match
    among exaltation sign, debilitation sign and own signs of the
    body's entry in [rules], in that order, and Neutral when none
    matches; every one of the nine bodies and Lagna has an entry; the
    entry of Lagna has no sign in it, so for each of the twelve signs
    the dignity of Lagna, and of the ascendant point of a chart, is
    Neutral.  The placeholder is returned only for a name with no
    entry. *)
Theorem dignity_first_match (planet sign : string) :
  match rules !! planet with
  | None => calculateDignity planet (Some sign) = "-"
  | Some rule =>
      (sign = ex rule -> calculateDignity planet (Some sign) = "Exalted")
      /\ (sign <> ex rule -> sign = deb rule ->
          calculateDignity planet (Some sign) = "Debilitated")
      /\ (sign <> ex rule -> sign <> deb rule -> sign ∈ own rule ->
          calculateDignity planet (Some sign) = "Own Sign")
      /\ (sign <> ex rule -> sign <> deb rule -> sign ∉ own rule ->
          calculateDignity planet (Some sign) = "Neutral")
  end
  /\ (planet ∈ ["Surya"; "Chandra"; "Kuja"; "Budha"; "Guru"; "Shukra"; "Shani";
               "Rahu"; "Ketu"; "Lagna"] -> is_Some (rules !! planet))
  /\ (sign ∈ SIGNS -> calculateDignity "Lagna" (Some sign) = "Neutral")
  /\ (sign ∈ SIGNS -> forall lon ascLon retro,
        JS.index SIGNS (JS.floor (lon / 30)) = Some sign ->
        dignity (formatPlanet "Ascendant" lon retro ascLon) = "Neutral").
Proof.
  assert (Hinc : forall l, JS.includes l (Some sign) = true <-> sign ∈ l).
  { intros l. unfold JS.includes. rewrite existsb_exists. split.
    - intros (x & Hx & E). simpl in E. apply String.eqb_eq in E. subst x.
      apply list_elem_of_In. exact Hx.
    - intros H. exists sign. split; [apply list_elem_of_In; exact H |].
      simpl. apply String.eqb_refl. }
  assert (HL : sign ∈ SIGNS -> calculateDignity "Lagna" (Some sign) = "Neutral").
  { unfold SIGNS. intros H.
    repeat (apply elem_of_cons in H as [-> | H]; [vm_compute; reflexivity |]).
    by apply elem_of_nil in H. }
  split; [| split; [| split; [exact HL |]]].
  - unfold calculateDignity. destruct (rules !! planet) as [rule |]; [| reflexivity].
    simpl. repeat split.
    + intros ->. rewrite String.eqb_refl. reflexivity.
    + intros N ->. apply String.eqb_neq in N. rewrite N, String.eqb_refl. reflexivity.
    + intros N1 N2 I. apply String.eqb_neq in N1, N2. rewrite N1, N2.
      apply Hinc in I. rewrite I. reflexivity.
    + intros N1 N2 I. apply String.eqb_neq in N1, N2. rewrite N1, N2.
      destruct (JS.includes (own rule) (Some sign)) eqn:E; [| reflexivity].
      apply Hinc in E. contradiction.
  - intros H.
    repeat (apply elem_of_cons in H as [-> | H]; [vm_compute; eauto |]).
    by apply elem_of_nil in H.
  - intros Hs lon ascLon retro Hi. unfold formatPlanet. cbv zeta.
    cbn [dignity]. rewrite Hi.
    replace (JS.orElse (PLANET_NAME_MAP !! "Ascendant") "Ascendant") with "Lagna"
      by (vm_compute; reflexivity).
    apply HL, Hs.
Qed.

(** C4, as stated, fails: the dignity of Lagna in Mesha is Neutral,
    not the placeholder. *)
Lemma lagna_dignity_is_not_placeholder :
  "Mesha" ∈ SIGNS
  /\ calculateDignity "Lagna" (Some "Mesha") = "Neutral"
  /\ calculateDignity "Lagna" (Some "Mesha") <> "-".
Proof.
  split; [apply (list_elem_of_lookup_2 _ 0%nat); reflexivity |].
  split; [vm_compute; reflexivity | vm_compute; discriminate].
Qed.

Lemma ceiling_unique (x : Q) (z : Z) :
  (inject_Z z - 1 < x)%Q -> (x <= inject_Z z)%Q -> Qceiling x = z.
Proof.
  intros Lo Hi. unfold Qceiling.
  assert (E : JS.floor (- x) = - z).
  { apply floor_unique; rewrite inject_Z_opp; lra. }
  unfold JS.floor in E. rewrite E. lia.
Qed.

Lemma hourlyDiff_range (cur prev : Q) :
  (0 <= cur)%Q -> (cur < 360)%Q -> (0 <= prev)%Q -> (prev < 360)%Q ->
  (-180 <= hourlyDiff cur prev)%Q /\ (hourlyDiff cur prev <= 180)%Q
  /\ (~ (cur - prev == -180)%Q ->
      (hourlyDiff cur prev == spec_wrappedDiff cur prev)%Q)
  /\ ((cur - prev == -180)%Q ->
      (hourlyDiff cur prev == -180)%Q /\ (spec_wrappedDiff cur prev == 180)%Q).
Proof.
  intros C0 C1 P0 P1. unfold hourlyDiff, spec_wrappedDiff. cbv zeta.
  set (d := (cur - prev)%Q).
  assert (D0 : (-360 < d)%Q) by (unfold d; lra).
  assert (D1 : (d < 360)%Q) by (unfold d; lra).
  clearbody d.
  destruct (JS.ltb d (-180)) eqn:E1.
  - apply ltb_lt in E1.
    assert (E2 : JS.ltb 180 (d + 360) = false) by (apply ltb_ge; lra).
    rewrite E2.
    assert (Ec : Qceiling ((d - 180) / 360) = -1).
    { apply ceiling_unique; change (inject_Z (-1)) with (-1)%Q.
      - apply Qlt_shift_div_l; [reflexivity | lra].
      - apply Qle_shift_div_r; [reflexivity | lra]. }
    rewrite Ec. change (inject_Z (-1)) with (-1)%Q.
    split; [lra | split; [lra | split; intros; [| split]; lra]].
  - apply ltb_ge in E1.
    destruct (JS.ltb 180 d) eqn:E2.
    + apply ltb_lt in E2.
      assert (Ec : Qceiling ((d - 180) / 360) = 1).
      { apply ceiling_unique; change (inject_Z 1) with 1%Q.
        - apply Qlt_shift_div_l; [reflexivity | lra].
        - apply Qle_shift_div_r; [reflexivity | lra]. }
      rewrite Ec. change (inject_Z 1) with 1%Q.
      split; [lra | split; [lra | split; intros; [| split]; lra]].
    + apply ltb_ge in E2.
      split; [lra | split; [lra | split]].
      * intros N.
        assert (Hd : (-180 < d)%Q).
        { destruct (Qlt_le_dec (-180) d) as [H | H]; [exact H |].
          exfalso. apply N. lra. }
        assert (Ec : Qceiling ((d - 180) / 360) = 0).
        { apply ceiling_unique; change (inject_Z 0) with 0%Q.
          - apply Qlt_shift_div_l; [reflexivity | lra].
          - apply Qle_shift_div_r; [reflexivity | lra]. }
        rewrite Ec. change (inject_Z 0) with 0%Q. lra.
      * intros Hd.
        assert (Ec : Qceiling ((d - 180) / 360) = -1).
        { apply ceiling_unique; change (inject_Z (-1)) with (-1)%Q.
          - apply Qlt_shift_div_l; [reflexivity | lra].
          - apply Qle_shift_div_r; [reflexivity | lra]. }
        rewrite Ec. change (inject_Z (-1)) with (-1)%Q. lra.
Qed.

(** ** The duration sums on primitive floats *)

Lemma antar_sums_within_tolerance :
  forallb (fun parent =>
             Binary64.within (Binary64.sum (Binary64.antarDurations parent)) (nth parent Binary64.DASHA_YEARS 0%float))
          (seq 0 9) = true.
Proof. vm_compute. reflexivity. Qed.

Lemma pratyantar_sums_within_tolerance :
  forallb (fun grandParent =>
     forallb (fun parent =>
                Binary64.within (Binary64.sum (Binary64.pratyantarDurations grandParent parent))
                  ((nth grandParent Binary64.DASHA_YEARS 0 * nth parent Binary64.DASHA_YEARS 0)
                   / 120)%float)
             (seq 0 9))
    (seq 0 9) = true.
Proof. vm_compute. reflexivity. Qed.

(** * Further properties *)

(** ** The fields of a point *)

Lemma floor_range (x : Q) (lo hi : Z) :
  (inject_Z lo <= x)%Q -> (x < inject_Z hi)%Q -> lo <= JS.floor x < hi.
Proof.
  intros Hlo Hhi. destruct (floor_spec x) as [A B].
  assert (H1 : (inject_Z lo < inject_Z (JS.floor x + 1))%Q).
  { rewrite inject_Z_plus. change (inject_Z 1) with 1%Q. lra. }
  assert (H2 : (inject_Z (JS.floor x) < inject_Z hi)%Q) by lra.
  rewrite <- Zlt_Qlt in H1, H2. lia.
Qed.

Lemma houseOf_range (lon ascLon : Q) :
  (0 <= lon)%Q -> (lon < 360)%Q -> (0 <= ascLon)%Q -> (ascLon < 360)%Q ->
  1 <= houseOf lon ascLon <= 12.
Proof.
  intros L0 L1 A0 A1. rewrite houseOf_normalize by assumption.
  destruct (normalize_range (lon - (ascLon - 15))) as [N0 N1].
  assert (H : 0 <= JS.floor (normalize (lon - (ascLon - 15)) / 30) < 12).
  { apply floor_range.
    - change (inject_Z 0) with 0%Q. apply Qle_shift_div_l; [reflexivity | lra].
    - change (inject_Z 12) with 12%Q. apply Qlt_shift_div_r; [reflexivity | lra]. }
  lia.
Qed.

Lemma sign_index_range (lon : Q) :
  (0 <= lon)%Q -> (lon < 360)%Q -> 0 <= JS.floor (lon / 30) < 12.
Proof.
  intros L0 L1. apply floor_range.
  - change (inject_Z 0) with 0%Q. apply Qle_shift_div_l; [reflexivity | lra].
  - change (inject_Z 12) with 12%Q. apply Qlt_shift_div_r; [reflexivity | lra].
Qed.

Lemma navamsa_index_range (lon : Q) :
  (0 <= lon)%Q -> 0 <= calculateNavamsaIndex lon < 12.
Proof.
  intros L0. unfold calculateNavamsaIndex. cbv zeta.
  apply Z.rem_bound_pos; [| lia].
  assert (H : 0 <= JS.floor (lon * 60 / 200)); [| lia].
  unfold JS.floor. change 0 with (Qfloor 0). apply Qfloor_resp_le.
  apply Qle_shift_div_l; [reflexivity | lra].
Qed.

Lemma cases_below_12 (k : Z) (P : Z -> Prop) :
  0 <= k < 12 ->
  P 0 -> P 1 -> P 2 -> P 3 -> P 4 -> P 5 -> P 6 -> P 7 -> P 8 -> P 9 ->
  P 10 -> P 11 -> P k.
Proof.
  intros Hk. intros.
  assert (C : k = 0 \/ k = 1 \/ k = 2 \/ k = 3 \/ k = 4 \/ k = 5 \/ k = 6
              \/ k = 7 \/ k = 8 \/ k = 9 \/ k = 10 \/ k = 11) by lia.
  repeat (destruct C as [-> | C]; [assumption |]). subst k. assumption.
Qed.

Lemma sign_lookup (k : Z) :
  0 <= k < 12 ->
  exists s, JS.index SIGNS k = Some s /\ s ∈ SIGNS
            /\ SIGNS !! Z.to_nat k = Some s
            /\ JS.orElse (Some s ≫= (RASI_LORDS !!.)) "-" ∈ classicalPlanets.
Proof.
  intros Hk. pattern k. apply (cases_below_12 k); [exact Hk | ..];
    (eexists; split; [reflexivity |
       split; [unfold SIGNS; repeat constructor |
       split; [reflexivity |]]]);
    unfold classicalPlanets; vm_compute (JS.orElse _ _); repeat constructor.
Qed.

Lemma nakshatra_lord_defined (lon : Q) :
  (0 <= lon)%Q -> (lon < 360)%Q ->
  exists l, JS.index NAKSHATRA_LORDS (Z.rem (nakshatraIndexOf lon) 9) = Some l
            /\ l ∈ NAKSHATRA_LORDS.
Proof.
  intros L0 L1. pose proof (nakshatraIndexOf_range lon L0 L1) as Hn.
  assert (Hr : 0 <= Z.rem (nakshatraIndexOf lon) 9 < 9)
    by (apply Z.rem_bound_pos; lia).
  destruct (lord_years _ Hr) as (l & yrs & A & _ & _).
  exists l. split; [exact A |].
  unfold JS.index in A. destruct (_ <? 0); [discriminate |].
  eapply list_elem_of_lookup_2, A.
Qed.

(** X1: for a longitude and an ascendant in [0, 360), [formatPlanet]
    fills every field from its table: the sign number is in 1..12 and
    the sign is the entry of [SIGNS] with that number, the lord of
    the sign is one of the seven planets, the lord of the nakshatra
    and the navamsa sign are found, and the house is in 1..12. *)
Theorem formatPlanet_well_formed (englishName : string) (lon : Q)
    (retro : bool) (ascLon : Q) :
  (0 <= lon)%Q -> (lon < 360)%Q -> (0 <= ascLon)%Q -> (ascLon < 360)%Q ->
  let p := formatPlanet englishName lon retro ascLon in
  1 <= signId p <= 12
  /\ (exists s, sign p = Some s /\ SIGNS !! Z.to_nat (signId p - 1) = Some s)
  /\ rasiLord p ∈ classicalPlanets
  /\ (exists l, nakshatraLord p = Some l /\ l ∈ NAKSHATRA_LORDS)
  /\ (exists s, navamsaSign p = Some s /\ s ∈ SIGNS)
  /\ 1 <= house p <= 12.
Proof.
  intros L0 L1 A0 A1 p.
  pose proof (sign_index_range lon L0 L1) as Hs.
  destruct (sign_lookup _ Hs) as (s & S1 & S2 & S3 & S4).
  destruct (nakshatra_lord_defined lon L0 L1) as (l & N1 & N2).
  destruct (sign_lookup _ (navamsa_index_range lon L0)) as (s' & V1 & V2 & _ & _).
  unfold p, formatPlanet. cbv zeta.
  cbn [signId sign rasiLord nakshatraLord navamsaSign house isRetrograde].
  split; [lia |].
  split; [exists s; split; [exact S1 |]; replace (JS.floor (lon / 30) + 1 - 1)
            with (JS.floor (lon / 30)) by lia; exact S3 |].
  split; [rewrite S1; exact S4 |].
  split; [exists l; split; [exact N1 | exact N2] |].
  split; [exists s'; split; [exact V1 | exact V2] |].
  apply houseOf_range; assumption.
Qed.

Lemma formatPlanet_well_formed_witness :
  (0 <= 545 # 10)%Q /\ (545 # 10 < 360)%Q /\ (0 <= 100)%Q /\ (100 < 360)%Q /\
  let p := formatPlanet "Moon" (545 # 10) false 100 in
  1 <= signId p <= 12
  /\ (exists s, sign p = Some s /\ SIGNS !! Z.to_nat (signId p - 1) = Some s)
  /\ rasiLord p ∈ classicalPlanets
  /\ (exists l, nakshatraLord p = Some l /\ l ∈ NAKSHATRA_LORDS)
  /\ (exists s, navamsaSign p = Some s /\ s ∈ SIGNS)
  /\ 1 <= house p <= 12.
Proof.
  assert (H1 : (0 <= 545 # 10)%Q) by (unfold Qle; simpl; lia).
  assert (H2 : (545 # 10 < 360)%Q) by (unfold Qlt; simpl; lia).
  assert (H3 : (0 <= 100)%Q) by (unfold Qle; simpl; lia).
  assert (H4 : (100 < 360)%Q) by (unfold Qlt; simpl; lia).
  split; [exact H1 | split; [exact H2 | split; [exact H3 | split; [exact H4 |]]]].
  exact (formatPlanet_well_formed "Moon" (545 # 10) false 100 H1 H2 H3 H4).
Defined.

(** ** [normalize] up to whole turns *)

Lemma normalize_unique (x y : Q) (n : Z) :
  (0 <= y)%Q -> (y < 360)%Q -> (y == x - 360 * inject_Z n)%Q ->
  (normalize x == y)%Q.
Proof.
  intros Y0 Y1 E. destruct (normalize_turns x) as [n' E'].
  destruct (normalize_range x) as [N0 N1].
  assert (Hn : n' = n).
  { assert (H1 : (inject_Z n' < inject_Z (n + 1))%Q)
      by (rewrite inject_Z_plus; change (inject_Z 1) with 1%Q; lra).
    assert (H2 : (inject_Z n < inject_Z (n' + 1))%Q)
      by (rewrite inject_Z_plus; change (inject_Z 1) with 1%Q; lra).
    rewrite <- Zlt_Qlt in H1, H2. lia. }
  subst n'. lra.
Qed.

(** ** The shape of the mahadasha timeline *)

Lemma trunc_nonpos (x : Q) : (x <= 0)%Q -> JS.trunc x = - JS.floor (- x).
Proof.
  intros H. rewrite <- trunc_nonneg by lra. rewrite trunc_opp. lia.
Qed.

Lemma trunc_mono (x x' : Q) : (x <= x')%Q -> JS.trunc x <= JS.trunc x'.
Proof.
  intros H.
  destruct (Qlt_le_dec x 0) as [Hn | Hp].
  - rewrite (trunc_nonpos x) by lra.
    destruct (Qlt_le_dec x' 0) as [Hn' | Hp'].
    + rewrite (trunc_nonpos x') by lra.
      assert (JS.floor (- x') <= JS.floor (- x)); [| lia].
      unfold JS.floor. apply Qfloor_resp_le. lra.
    + rewrite trunc_nonneg by exact Hp'.
      assert (0 <= JS.floor (- x)).
      { unfold JS.floor. change 0 with (Qfloor 0). apply Qfloor_resp_le. lra. }
      assert (0 <= JS.floor x').
      { unfold JS.floor. change 0 with (Qfloor 0). apply Qfloor_resp_le. lra. }
      lia.
  - rewrite !trunc_nonneg by lra. unfold JS.floor. apply Qfloor_resp_le. exact H.
Qed.

Lemma addTime_mono (date : Z) (years years' : Q) :
  (years <= years')%Q -> addTime date years <= addTime date years'.
Proof.
  intros H. unfold addTime. cbv zeta. apply trunc_mono.
  rewrite msPerYear_value. lra.
Qed.

Lemma timelineEnd_cons (start : Z) (p : DashaItem) (tl : list DashaItem) :
  timelineEnd start (p :: tl) = timelineEnd (endDate p) tl.
Proof.
  unfold timelineEnd. destruct tl as [| q tl]; [reflexivity |].
  rewrite last_cons. destruct (last (q :: tl)) eqn:E; [reflexivity |].
  apply last_None in E. discriminate.
Qed.

Lemma yearsAt_Some (s i : Z) (lord : string) (yrs : Z) :
  JS.index NAKSHATRA_LORDS (Z.rem (s + i) 9) = Some lord ->
  DASHA_YEARS !! lord = Some yrs -> yearsAt s i = Some yrs.
Proof. intros A B. unfold yearsAt. rewrite A. exact B. Qed.

Lemma mahadashaLoop_end lordIndex idxs current tl :
  mahadashaLoop lordIndex idxs current = Some tl ->
  timelineEnd current tl = current + yearsSum lordIndex idxs * 31556952000.
Proof.
  revert current tl. induction idxs as [| i idxs IH]; intros current tl H.
  - injection H as <-. unfold timelineEnd, yearsSum. simpl. lia.
  - apply mahadashaLoop_cons in H as (sp & sy & rest & Hl & Hy & Hr & ->).
    rewrite timelineEnd_cons. cbn [endDate].
    rewrite (IH _ _ Hr).
    rewrite (addTime_integral current (inject_Z sy) (sy * 31556952000)).
    + unfold yearsSum. cbn [foldr]. fold (yearsSum lordIndex idxs).
      rewrite (yearsAt_Some _ _ _ _ Hl Hy). simpl. lia.
    + rewrite msPerYear_value, inject_Z_mult. reflexivity.
Qed.

Lemma mahadashaLoop_planets lordIndex idxs current tl :
  mahadashaLoop lordIndex idxs current = Some tl ->
  mapM (fun i => JS.index NAKSHATRA_LORDS (Z.rem (lordIndex + i) 9)) idxs
  = Some (planet <$> tl).
Proof.
  revert current tl. induction idxs as [| i idxs IH]; intros current tl H.
  - injection H as <-. reflexivity.
  - apply mahadashaLoop_cons in H as (sp & sy & rest & Hl & Hy & Hr & ->).
    cbn [mapM]. rewrite Hl. cbn [mbind option_bind]. rewrite (IH _ _ Hr). reflexivity.
Qed.

Lemma mahadashaLoop_full_periods lordIndex idxs current tl :
  mahadashaLoop lordIndex idxs current = Some tl ->
  Forall (fun p =>
            DASHA_YEARS !! planet p = Some (durationYear p)
            /\ durationMonth p = 0 /\ durationDay p = 0
            /\ endDate p - startDate p = durationYear p * 31556952000) tl.
Proof.
  intros H. apply mahadashaLoop_full in H.
  induction H as [| i p idxs tl (_ & A & B & C & _ & D) _ IH]; constructor.
  - split; [exact A | split; [exact B | split; [exact C | lia]]].
  - exact IH.
Qed.

Lemma rotate_Permutation {A} (n : nat) (l : list A) : rotate n l ≡ₚ l.
Proof.
  unfold rotate. rewrite Permutation_app_comm, take_drop. reflexivity.
Qed.

Lemma cycle_from (s : Z) :
  0 <= s < 9 ->
  exists first years,
    JS.index NAKSHATRA_LORDS s = Some first
    /\ DASHA_YEARS !! first = Some years
    /\ yearsAt s 0 = Some years
    /\ yearsSum s (seqZ 1 8) = 120 - years
    /\ (cons first <$> mapM (fun i => JS.index NAKSHATRA_LORDS (Z.rem (s + i) 9))
                        (seqZ 1 8))
       = Some (rotate (Z.to_nat s) NAKSHATRA_LORDS).
Proof.
  intros Hs.
  assert (C : s = 0 \/ s = 1 \/ s = 2 \/ s = 3 \/ s = 4 \/ s = 5 \/ s = 6
              \/ s = 7 \/ s = 8) by lia.
  repeat (destruct C as [-> | C]); [.. | subst s];
    eexists _, _; (split; [reflexivity |]);
    repeat split; vm_compute; reflexivity.
Qed.

Lemma balanceYearsOf_le moonLon b fl ty :
  balanceYearsOf moonLon = Some b ->
  JS.index NAKSHATRA_LORDS (Z.rem (JS.floor (moonLon / nakshatraSpan)) 9)
    = Some fl ->
  DASHA_YEARS !! fl = Some ty ->
  (b <= inject_Z ty)%Q.
Proof.
  unfold balanceYearsOf. cbv zeta.
  destruct (floor_spec (moonLon / nakshatraSpan)) as [A B].
  set (q := (moonLon / nakshatraSpan)%Q) in *.
  set (f := JS.floor q) in *. clearbody f q. intros H Hl Hy.
  rewrite Hl in H. cbn [mbind option_bind] in H.
  rewrite Hy in H. cbn [mbind option_bind] in H. injection H as <-.
  apply DASHA_YEARS_pos in Hy.
  assert (Hq : (0 < inject_Z ty)%Q)
    by (change 0%Q with (inject_Z 0); rewrite <- Zlt_Qlt; lia).
  assert (Hf : (0 <= inject_Z ty * (q - inject_Z f))%Q)
    by (apply Qmult_le_0_compat; lra).
  lra.
Qed.

Lemma mahadasha_periods (tz : Z) (moonLon : Q) (birthDate : Z) :
  (0 <= moonLon)%Q ->
  exists first rest firstYears,
    calculateMahadashas tz moonLon birthDate = Some (first :: rest)
    /\ length rest = 8%nat
    /\ startDate first = birthDate
    /\ DASHA_YEARS !! planet first = Some firstYears
    /\ endDate first - startDate first <= firstYears * 31556952000
    /\ Forall (fun p =>
                 DASHA_YEARS !! planet p = Some (durationYear p)
                 /\ durationMonth p = 0 /\ durationDay p = 0
                 /\ endDate p - startDate p = durationYear p * 31556952000) rest
    /\ timelineEnd birthDate (first :: rest) - endDate first
       = (120 - firstYears) * 31556952000
    /\ planet <$> (first :: rest)
       = rotate (Z.to_nat (Z.rem (JS.floor (moonLon / nakshatraSpan)) 9))
           NAKSHATRA_LORDS.
Proof.
  intros Hm.
  destruct (calculateMahadashas_total tz moonLon birthDate Hm) as [tl E].
  destruct (calculateMahadashas_inv tz _ _ _ E)
    as (fl & ty & b & rest & Hl & Hy & Hb & Hr & ->).
  pose proof (nakshatra_position_nonneg moonLon Hm) as Hn.
  set (s := Z.rem (JS.floor (moonLon / nakshatraSpan)) 9) in *.
  assert (Hs : 0 <= s < 9) by (apply Z.rem_bound_pos; lia).
  destruct (cycle_from s Hs) as (first & years & C1 & C2 & C3 & C4 & C5).
  rewrite Hl in C1. injection C1 as <-. rewrite Hy in C2. injection C2 as <-.
  eexists _, rest, ty. split; [exact E |].
  split; [rewrite (mahadashaLoop_length _ _ _ _ Hr); reflexivity |].
  split; [reflexivity |].
  split; [exact Hy |].
  cbn [endDate startDate].
  split.
  { assert (Hle : addTime birthDate b <= addTime birthDate (inject_Z ty)).
    { apply addTime_mono. eapply balanceYearsOf_le; eassumption. }
    rewrite (addTime_integral birthDate (inject_Z ty) (ty * 31556952000)) in Hle.
    - lia.
    - rewrite msPerYear_value, inject_Z_mult. reflexivity. }
  split; [eapply mahadashaLoop_full_periods, Hr |].
  split.
  { rewrite timelineEnd_cons. cbn [endDate].
    rewrite (mahadashaLoop_end _ _ _ _ Hr), C4. lia. }
  rewrite (mahadashaLoop_planets _ _ _ _ Hr) in C5.
  cbn [fmap option_fmap option_map] in C5. injection C5 as <-. reflexivity.
Qed.

(** ** The dasha table *)

Lemma split_label (L sub : string) :
  L ∈ NAKSHATRA_LORDS -> sub ∈ NAKSHATRA_LORDS ->
  split (L +:+ " - " +:+ sub) " - " = [L; sub].
Proof.
  unfold NAKSHATRA_LORDS. intros HL Hs.
  repeat (apply elem_of_cons in HL as [-> | HL]);
    try (by apply elem_of_nil in HL);
    repeat (apply elem_of_cons in Hs as [-> | Hs]);
    try (by apply elem_of_nil in Hs); vm_compute; reflexivity.
Qed.

Section Tiling.
Variable tz : Z.

Lemma subDashaLoop_end parentYears label lvl parents s idxs current tl c :
  (forall sy date, addTime date (durationYearsOf parentYears sy) = date + c * sy) ->
  subDashaLoop tz parentYears label lvl parents s idxs current = Some tl ->
  timelineEnd current tl = current + c * yearsSum s idxs.
Proof.
  intros Hc. revert current tl. induction idxs as [| i idxs IH]; intros current tl H.
  - injection H as <-. unfold timelineEnd, yearsSum. simpl. lia.
  - apply subDashaLoop_cons in H as (sp & sy & rest & Hl & Hy & Hr & ->).
    rewrite timelineEnd_cons. cbn [endDate].
    rewrite (IH _ _ Hr), Hc.
    unfold yearsSum. cbn [foldr]. fold (yearsSum s idxs).
    rewrite (yearsAt_Some _ _ _ _ Hl Hy). simpl. lia.
Qed.

Lemma subDashaLoop_items parentYears label lvl parents s idxs current tl c :
  (forall sy date, addTime date (durationYearsOf parentYears sy) = date + c * sy) ->
  0 <= s -> Forall (fun i => 0 <= i) idxs ->
  subDashaLoop tz parentYears label lvl parents s idxs current = Some tl ->
  Forall (fun q => exists sub sy,
              sub ∈ NAKSHATRA_LORDS /\ DASHA_YEARS !! sub = Some sy
              /\ planet q = label +:+ " - " +:+ sub
              /\ endDate q = startDate q + c * sy
              /\ level q = lvl /\ parentPlanets q = Some parents) tl.
Proof.
  intros Hc Hs Hi. revert current tl.
  induction Hi as [| i idxs Hi0 _ IH]; intros current tl H.
  - injection H as <-. constructor.
  - apply subDashaLoop_cons in H as (sp & sy & rest & Hl & Hy & Hr & ->).
    constructor; [| eapply IH, Hr].
    exists sp, sy. cbn [planet endDate startDate level parentPlanets].
    split.
    { unfold JS.index in Hl. destruct (_ <? 0); [discriminate |].
      eapply list_elem_of_lookup_2, Hl. }
    split; [exact Hy | split; [reflexivity | split; [apply Hc | auto]]].
Qed.

Lemma antar_step (P sy date : Z) :
  addTime date (durationYearsOf (inject_Z P) sy) = date + P * 262974600 * sy.
Proof.
  rewrite (addTime_integral _ _ _ (antar_integral P sy)). lia.
Qed.

Lemma pratyantar_step (G P sy date : Z) :
  addTime date (durationYearsOf (inject_Z G * inject_Z P / 120) sy)
  = date + G * P * 2191455 * sy.
Proof.
  rewrite (addTime_integral _ _ _ (pratyantar_integral G P sy)). lia.
Qed.

End Tiling.

Section Drill.
Variable tz : Z.

Lemma antar_timeline (L : string) (start : Z) :
  L ∈ NAKSHATRA_LORDS ->
  exists yL tl,
    DASHA_YEARS !! L = Some yL
    /\ calculateAntarDashas tz L start = Some tl
    /\ length tl = 9%nat
    /\ timelineEnd start tl = start + yL * 31556952000
    /\ Forall (fun q => exists sub sy,
                 sub ∈ NAKSHATRA_LORDS /\ DASHA_YEARS !! sub = Some sy
                 /\ planet q = L +:+ " - " +:+ sub
                 /\ endDate q = startDate q + yL * 262974600 * sy
                 /\ level q = 2 /\ parentPlanets q = Some [L]) tl.
Proof.
  intros HL. destruct (lord_facts L HL) as (yL & EL & _ & Hs).
  destruct (subDashaLoop_total tz (inject_Z yL) L 2 [L]
              (JS.indexOf NAKSHATRA_LORDS L) (seqZ 0 9) start)
    as [tl E]; [lia | apply seqZ_nonneg; lia |].
  exists yL, tl. unfold calculateAntarDashas. rewrite EL. cbn [mbind option_bind].
  split; [reflexivity | split; [exact E |]].
  split; [rewrite (subDashaLoop_length _ _ _ _ _ _ _ _ _ E); reflexivity |].
  split.
  - rewrite (subDashaLoop_end tz _ _ _ _ _ _ _ _ (yL * 262974600) (antar_step yL) E).
    rewrite yearsSum_cycle by exact Hs. ring.
  - exact (subDashaLoop_items tz _ _ _ _ _ _ _ _ _ (antar_step yL) (proj1 Hs)
             (seqZ_nonneg 0 9 ltac:(lia)) E).
Qed.

Lemma pratyantar_timeline (G L : string) (start : Z) :
  G ∈ NAKSHATRA_LORDS -> L ∈ NAKSHATRA_LORDS ->
  exists yG yL tl,
    DASHA_YEARS !! G = Some yG /\ DASHA_YEARS !! L = Some yL
    /\ calculatePratyantarDashas tz G L start = Some tl
    /\ length tl = 9%nat
    /\ timelineEnd start tl = start + yG * 262974600 * yL
    /\ Forall (fun q => exists sub,
                 sub ∈ NAKSHATRA_LORDS
                 /\ planet q = (G +:+ " - " +:+ L) +:+ " - " +:+ sub
                 /\ level q = 3 /\ parentPlanets q = Some [G; L]) tl.
Proof.
  intros HG HL. destruct (lord_facts G HG) as (yG & EG & _ & _).
  destruct (lord_facts L HL) as (yL & EL & _ & Hs).
  destruct (subDashaLoop_total tz (inject_Z yG * inject_Z yL / 120)
              (G +:+ " - " +:+ L) 3 [G; L]
              (JS.indexOf NAKSHATRA_LORDS L) (seqZ 0 9) start)
    as [tl E]; [lia | apply seqZ_nonneg; lia |].
  exists yG, yL, tl. unfold calculatePratyantarDashas.
  rewrite EG, EL. cbn [mbind option_bind].
  split; [reflexivity | split; [reflexivity | split; [exact E |]]].
  split; [rewrite (subDashaLoop_length _ _ _ _ _ _ _ _ _ E); reflexivity |].
  split.
  - rewrite (subDashaLoop_end tz _ _ _ _ _ _ _ _ (yG * yL * 2191455)
               (pratyantar_step yG yL) E).
    rewrite yearsSum_cycle by exact Hs. ring.
  - pose proof (subDashaLoop_items tz _ _ _ _ _ _ _ _ (yG * yL * 2191455)
                  (pratyantar_step yG yL) (proj1 Hs)
                  (seqZ_nonneg 0 9 ltac:(lia)) E) as F.
    eapply Forall_impl; [exact F |].
    intros q (sub & sy & A & _ & B & _ & C & D). exists sub. auto.
Qed.

Lemma mahadasha_lords moonLon birthDate maha p :
  calculateMahadashas tz moonLon birthDate = Some maha ->
  p ∈ maha -> planet p ∈ NAKSHATRA_LORDS.
Proof.
  intros E Hp.
  destruct (calculateMahadashas_inv tz _ _ _ E)
    as (fl & ty & b & rest & Hl & Hy & Hb & Hr & ->).
  apply elem_of_cons in Hp as [-> | Hp].
  - cbn [planet]. unfold JS.index in Hl. destruct (_ <? 0); [discriminate |].
    eapply list_elem_of_lookup_2, Hl.
  - pose proof (mahadashaLoop_full _ _ _ _ Hr) as F.
    apply list_elem_of_lookup in Hp as [i Hi].
    destruct (Forall2_lookup_r _ _ _ _ _ F Hi) as (j & _ & Hj & _).
    unfold JS.index in Hj. destruct (_ <? 0); [discriminate |].
    eapply list_elem_of_lookup_2, Hj.
Qed.

(** X7: in the dasha table of a Moon longitude above zero,
    [levelUp] after [drillDown] gives back the table as it was, at
    both depths; [levelUp] at the top and [drillDown] at the third
    level change nothing. *)
Theorem levelUp_undoes_drillDown (moonLon : Q) (dt : Z) :
  (0 < moonLon)%Q ->
  exists st1,
    DashaTable.init tz moonLon dt = Some st1
    /\ DashaTable.level st1 = 1 /\ DashaTable.history st1 = []
    /\ DashaTable.levelUp tz moonLon dt st1 = Some st1
    /\ forall p,
         p ∈ DashaTable.currentRows st1 ->
         exists st2,
           DashaTable.drillDown tz p st1 = Some st2
           /\ DashaTable.levelUp tz moonLon dt st2 = Some st1
           /\ forall q,
                q ∈ DashaTable.currentRows st2 ->
                exists st3,
                  DashaTable.drillDown tz q st2 = Some st3
                  /\ DashaTable.levelUp tz moonLon dt st3 = Some st2
                  /\ forall r, DashaTable.drillDown tz r st3 = Some st3.
Proof.
  intros Hm.
  destruct (calculateMahadashas_total tz moonLon dt) as [maha E]; [lra |].
  exists (DashaTable.mkState 1 [] maha).
  unfold DashaTable.init.
  assert (Hz : Qeq_bool moonLon 0 = false).
  { destruct (Qeq_bool moonLon 0) eqn:Q0; [| reflexivity].
    apply Qeq_bool_eq in Q0. lra. }
  rewrite Hz, E. cbn [mbind option_bind].
  split; [reflexivity | split; [reflexivity | split; [reflexivity |
    split; [reflexivity |]]]].
  intros p Hp. cbn [DashaTable.currentRows] in Hp.
  assert (HL : planet p ∈ NAKSHATRA_LORDS) by (eapply mahadasha_lords; eassumption).
  destruct (antar_timeline (planet p) (startDate p) HL)
    as (yL & tl & EL & Ea & La & Enda & Fa).
  exists (DashaTable.mkState 2 [p] tl).
  unfold DashaTable.drillDown, DashaTable.levelUp.
  cbn [DashaTable.level DashaTable.history DashaTable.currentRows Z.leb
    Z.compare Pos.compare Pos.compare_cont Z.add Z.sub Z.opp Z.pos_sub
    Z.eqb Pos.add Pos.eqb app length Nat.sub take Z.succ_double Z.pred_double
    Z.double Pos.pred_double].
  rewrite Ea, E. cbn [mbind option_bind].
  split; [reflexivity | split; [reflexivity |]].
  intros q Hq. rewrite Forall_forall in Fa.
  destruct (Fa q Hq) as (sub & sy & Hsub & Hsy & Hlabel & Hend & _ & _).
  destruct (pratyantar_timeline (planet p) sub (startDate q) HL Hsub)
    as (yG & ys & tl3 & EG & Es & Ep & Lp & Endp & _).
  exists (DashaTable.mkState 3 [p; q] tl3).
  rewrite Hlabel, (split_label _ _ HL Hsub).
  cbn [lookup list_lookup mbind option_bind]. rewrite Ep.
  cbn [mbind option_bind].
  split; [reflexivity |].
  split; [| reflexivity].
  cbn -[calculateAntarDashas calculateMahadashas calculatePratyantarDashas].
  change (3 - 1) with 2. change (Z.of_nat 2 - 2) with 0.
  change (JS.index [p; q] 0) with (Some p).
  cbn -[calculateAntarDashas calculateMahadashas calculatePratyantarDashas].
  rewrite Ea. reflexivity.
Qed.

End Drill.

Lemma levelUp_undoes_drillDown_witness :
  (0 < 545 # 10)%Q /\
  exists st1,
    DashaTable.init 0 (545 # 10) 946684800000 = Some st1
    /\ DashaTable.level st1 = 1 /\ DashaTable.history st1 = []
    /\ DashaTable.levelUp 0 (545 # 10) 946684800000 st1 = Some st1
    /\ forall p,
         p ∈ DashaTable.currentRows st1 ->
         exists st2,
           DashaTable.drillDown 0 p st1 = Some st2
           /\ DashaTable.levelUp 0 (545 # 10) 946684800000 st2 = Some st1
           /\ forall q,
                q ∈ DashaTable.currentRows st2 ->
                exists st3,
                  DashaTable.drillDown 0 q st2 = Some st3
                  /\ DashaTable.levelUp 0 (545 # 10) 946684800000 st3 = Some st2
                  /\ forall r, DashaTable.drillDown 0 r st3 = Some st3.
Proof.
  assert (H1 : (0 < 545 # 10)%Q) by (unfold Qlt; simpl; lia).
  split; [exact H1 |].
  exact (levelUp_undoes_drillDown 0 (545 # 10) 946684800000 H1).
Defined.

(** ** The calendar and the bounds of a duration *)

Lemma allFrom_spec (fuel : nat) (z : Z) (P : Z -> bool) :
  allFrom fuel z P = true ->
  forall i, z <= i < z + Z.of_nat fuel -> P i = true.
Proof.
  revert z. induction fuel as [| k IH]; intros z H i Hi; [lia |].
  cbn [allFrom] in H. apply andb_true_iff in H as [H0 H1].
  destruct (Z.eq_dec i z) as [-> | Hne]; [exact H0 |].
  apply (IH (z + 1) H1). lia.
Qed.

Lemma allFrom_below (n : Z) (P : Z -> bool) :
  allFrom (Z.to_nat n) 0 P = true -> forall i, 0 <= i < n -> P i = true.
Proof.
  intros H i Hi. apply (allFrom_spec _ _ _ H). lia.
Qed.

(** The calendar of a day depends on its place in the cycle of 400
    years only, but for the year. *)
Lemma civil_from_days_cycle (z : Z) :
  civil_from_days z
  = let c := civil_from_days ((z + 719468) mod 146097 - 719468) in
    (c.1.1 + 400 * ((z + 719468) / 146097), c.1.2, c.2).
Proof.
  unfold civil_from_days. cbv zeta.
  replace ((z + 719468) mod 146097 - 719468 + 719468)
    with ((z + 719468) mod 146097) by lia.
  pose proof (Z.mod_pos_bound (z + 719468) 146097 ltac:(lia)) as Hb.
  rewrite (Z.div_small ((z + 719468) mod 146097) 146097) by lia.
  replace ((z + 719468) mod 146097 - 0 * 146097)
    with (z + 719468 - (z + 719468) / 146097 * 146097)
    by (rewrite Z.mod_eq by lia; lia).
  set (doe := z + 719468 - (z + 719468) / 146097 * 146097).
  cbn [fst snd]. destruct (_ <=? 2); f_equal; f_equal; lia.
Qed.

Lemma monthDayOk_cycle : allFrom (Z.to_nat 146097) 0 monthDayOk = true.
Proof. vm_compute. reflexivity. Qed.

Lemma civil_from_days_range (z : Z) :
  1 <= (civil_from_days z).1.2 <= 12 /\ 1 <= (civil_from_days z).2 <= 31.
Proof.
  rewrite civil_from_days_cycle. cbv zeta. cbn [fst snd].
  pose proof (Z.mod_pos_bound (z + 719468) 146097 ltac:(lia)) as Hb.
  pose proof (allFrom_below _ _ monthDayOk_cycle
                ((z + 719468) mod 146097) Hb) as H.
  unfold monthDayOk in H. cbv zeta in H.
  rewrite !andb_true_iff, !Z.leb_le in H. lia.
Qed.

Lemma days_from_civil_cycle (y m d k : Z) :
  days_from_civil (y + 400 * k) m d = days_from_civil y m d + 146097 * k.
Proof.
  unfold days_from_civil. cbv zeta.
  set (y' := if m <=? 2 then y - 1 else y).
  replace (if m <=? 2 then y + 400 * k - 1 else y + 400 * k) with (y' + k * 400)
    by (unfold y'; destruct (m <=? 2); lia).
  rewrite Z.div_add by lia.
  replace (y' + k * 400 - (y' / 400 + k) * 400) with (y' - y' / 400 * 400) by ring.
  ring.
Qed.

Lemma civil_from_days_shift (z k : Z) :
  (civil_from_days (z + 146097 * k)).2 = (civil_from_days z).2.
Proof.
  rewrite (civil_from_days_cycle z), (civil_from_days_cycle (z + 146097 * k)).
  cbv zeta. cbn [fst snd].
  replace (z + 146097 * k + 719468) with (z + 719468 + k * 146097) by lia.
  rewrite Z_mod_plus_full. reflexivity.
Qed.

Lemma lastDayOk_cycle : allFrom (Z.to_nat 400) 0 lastDayOk = true.
Proof. vm_compute. reflexivity. Qed.

Lemma lastDayBefore_cycle (yr k mn : Z) :
  lastDayBefore (yr + 400 * k) mn = lastDayBefore yr mn.
Proof.
  unfold lastDayBefore. rewrite days_from_civil_cycle.
  replace (days_from_civil yr (mn + 1) 1 + 146097 * k - 1)
    with (days_from_civil yr (mn + 1) 1 - 1 + 146097 * k) by ring.
  apply civil_from_days_shift.
Qed.

Lemma lastDayBefore_range (yr mn : Z) :
  0 <= mn < 12 -> 28 <= lastDayBefore yr mn <= 31.
Proof.
  intros Hm.
  pose proof (Z.mod_pos_bound yr 400 ltac:(lia)) as Hb.
  pose proof (Z.div_mod yr 400 ltac:(lia)) as Hd.
  replace yr with (yr mod 400 + 400 * (yr / 400)) by lia.
  rewrite lastDayBefore_cycle.
  generalize dependent (yr mod 400). intros y Hb _.
  pose proof (allFrom_below _ _ lastDayOk_cycle y Hb) as H.
  pose proof (allFrom_below 12 _ H mn Hm) as H'.
  apply andb_true_iff in H' as [H1 H2].
  apply Z.leb_le in H1, H2. split; assumption.
Qed.

Lemma getDate_newDate_zero (tz year month : Z) :
  0 <= month < 12 ->
  28 <= getDate tz (newDate tz year month 0) <= 31.
Proof.
  intros Hm.
  assert (E : getDate tz (newDate tz year month 0)
              = lastDayBefore
                  (if (0 <=? year) && (year <=? 99) then 1900 + year else year)
                  month).
  { unfold getDate, newDate, localDay, lastDayBefore. cbv zeta.
    rewrite (Z.div_small month 12) by lia. rewrite (Z.mod_small month 12) by lia.
    set (yr := if (0 <=? year) && (year <=? 99) then 1900 + year else year).
    replace ((days_from_civil (yr + 0) (month + 1) 1 + 0 - 1) * msPerDay - tz + tz)
      with ((days_from_civil yr (month + 1) 1 - 1) * msPerDay)
      by (rewrite !Z.add_0_r; ring).
    rewrite Z.div_mul by (unfold msPerDay; lia). reflexivity. }
  rewrite E. apply lastDayBefore_range. exact Hm.
Qed.

(** X8: [getDurationYMD] gives months in 0..11 and days in -2..30
    for any two instants; the days are negative only from a start on
    the 30th or 31st to an end on the 1st or 2nd of a month. *)
Theorem getDurationYMD_bounds (tz start end_ : Z) :
  0 <= Dur.m (getDurationYMD tz start end_) <= 11
  /\ -2 <= Dur.d (getDurationYMD tz start end_) <= 30
  /\ (Dur.d (getDurationYMD tz start end_) < 0 ->
      30 <= getDate tz start /\ getDate tz end_ <= 2).
Proof.
  unfold getDurationYMD. cbv zeta.
  pose proof (civil_from_days_range (localDay tz start)) as [Ms Ds].
  pose proof (civil_from_days_range (localDay tz end_)) as [Me De].
  assert (Hm : 0 <= getMonth tz end_ < 12) by (unfold getMonth; lia).
  pose proof (getDate_newDate_zero tz (getFullYear tz end_) (getMonth tz end_) Hm)
    as HL.
  set (L := getDate tz (newDate tz (getFullYear tz end_) (getMonth tz end_) 0)) in *.
  unfold getMonth, getDate in *.
  set (ms := (civil_from_days (localDay tz start)).1.2) in *.
  set (ds := (civil_from_days (localDay tz start)).2) in *.
  set (me := (civil_from_days (localDay tz end_)).1.2) in *.
  set (de := (civil_from_days (localDay tz end_)).2) in *.
  clearbody L ms ds me de.
  destruct (de - ds <? 0) eqn:Ed;
    [apply Z.ltb_lt in Ed | apply Z.ltb_ge in Ed];
    (destruct (_ <? 0) eqn:Em;
       [apply Z.ltb_lt in Em | apply Z.ltb_ge in Em]);
    cbn [Dur.m Dur.d]; lia.
Qed.

(** ** The cells of the charts *)

Lemma SIGNS_NoDup : NoDup SIGNS.
Proof.
  apply (bool_decide_unpack _). vm_compute. reflexivity.
Qed.

(** The cells of a chart hold every point that has one of the signs
    of the cells, once. *)
Lemma cells_partition (signs : list string) (planets : list PlanetData) :
  NoDup signs ->
  Forall (fun p => exists s, sign p = Some s /\ s ∈ signs) planets ->
  concat (SouthIndianChart.getPlanets planets <$> signs) ≡ₚ planets.
Proof.
  intros Hnd. induction planets as [| p ps IH]; intros HF.
  - clear. induction signs as [| s signs IH]; [reflexivity |].
    rewrite fmap_cons. cbn [concat]. exact IH.
  - apply Forall_cons in HF as [(s0 & Hs0 & Hin) HF].
    specialize (IH HF). rewrite <- IH at 2. clear IH HF.
    revert Hin. induction Hnd as [| s signs Hnotin Hnd IH]; intros Hin.
    + by apply elem_of_nil in Hin.
    + rewrite !fmap_cons. cbn [concat].
      unfold SouthIndianChart.getPlanets at 1 3. cbn [List.filter].
      rewrite Hs0. cbn [JS.strictEq].
      destruct (String.eqb s0 s) eqn:E.
      * apply String.eqb_eq in E. subst s0.
        cbn [app]. apply Permutation_skip. apply Permutation_app_head.
        clear -Hnotin Hs0. induction signs as [| s' signs IH]; [reflexivity |].
        rewrite !fmap_cons. cbn [concat].
        unfold SouthIndianChart.getPlanets at 1 3. cbn [List.filter].
        rewrite Hs0. cbn [JS.strictEq].
        assert (Hne : String.eqb s s' = false).
        { apply String.eqb_neq. intros ->. apply Hnotin. left. }
        rewrite Hne. apply Permutation_app_head. apply IH.
        intros Hin. apply Hnotin. right. exact Hin.
      * apply String.eqb_neq in E.
        apply elem_of_cons in Hin as [-> | Hin]; [contradiction |].
        rewrite (IH Hin). symmetry. apply Permutation_middle.
Qed.

Lemma sign_position (s : string) :
  s ∈ SIGNS ->
  0 <= JS.indexOf SIGNS s < 12 /\ JS.index SIGNS (JS.indexOf SIGNS s) = Some s.
Proof.
  unfold SIGNS. intros H.
  repeat (apply elem_of_cons in H as [-> | H]; [by vm_compute |]).
  by apply elem_of_nil in H.
Qed.

(** ** Splitting a line of the city table *)

Lemma append_cons (c : ascii) (s t : string) :
  String c s +:+ t = String c (s +:+ t).
Proof. reflexivity. Qed.

Lemma append_nil_r (s : string) : s +:+ "" = s.
Proof.
  induction s as [| c s IH]; [reflexivity |]. by rewrite append_cons, IH.
Qed.

Lemma append_assoc (s t u : string) : (s +:+ t) +:+ u = s +:+ (t +:+ u).
Proof.
  induction s as [| c s IH]; [reflexivity |]. by rewrite !append_cons, IH.
Qed.

Lemma occurs_append (c : ascii) (s t : string) :
  occurs c (s +:+ t) = occurs c s || occurs c t.
Proof.
  induction s as [| x s IH]; [reflexivity |].
  rewrite append_cons. cbn [occurs]. rewrite IH. by rewrite orb_assoc.
Qed.

Lemma concat_snoc (sep : string) (l : list string) (x : string) :
  l <> [] ->
  String.concat sep (l ++ [x]) = String.concat sep l +:+ sep +:+ x.
Proof.
  induction l as [| a l IH]; [done |]. intros _.
  destruct l as [| b l].
  - cbn. reflexivity.
  - change ((a :: b :: l) ++ [x]) with (a :: ((b :: l) ++ [x])).
    change (String.concat sep (a :: (b :: l) ++ [x]))
      with (a +:+ sep +:+ String.concat sep ((b :: l) ++ [x])).
    rewrite IH by done.
    change (String.concat sep (a :: b :: l))
      with (a +:+ sep +:+ String.concat sep (b :: l)).
    by rewrite !append_assoc.
Qed.

Lemma concat_last_append (sep : string) (l : list string) (x y : string) :
  String.concat sep (l ++ [x +:+ y]) = String.concat sep (l ++ [x]) +:+ y.
Proof.
  destruct l as [| a l].
  - reflexivity.
  - rewrite !concat_snoc by done. by rewrite !append_assoc.
Qed.

Lemma splitCSVLoop_plain (line : string) (result : list string) (current : string) :
  occurs quoteChar line = false ->
  String.concat "," (splitCSVLoop line result current false)
  = String.concat "," (result ++ [current]) +:+ line
  /\ length (splitCSVLoop line result current false)
     = (length result + 1 + countChar commaChar line)%nat
  /\ (Forall (fun f => occurs commaChar f = false) result ->
      occurs commaChar current = false ->
      Forall (fun f => occurs commaChar f = false)
        (splitCSVLoop line result current false)).
Proof.
  revert result current. induction line as [| char rest IH]; intros result current Hq.
  - cbn [splitCSVLoop countChar]. rewrite append_nil_r, length_app. cbn [length].
    split; [reflexivity | split; [lia |]].
    intros HF Hc. apply Forall_app. split; [exact HF |]. by constructor.
  - cbn [occurs] in Hq. apply orb_false_iff in Hq as [Hc Hq].
    cbn [splitCSVLoop countChar]. rewrite Hc.
    destruct (Ascii.eqb char commaChar) eqn:Ec; cbn [andb negb].
    + apply Ascii.eqb_eq in Ec. subst char.
      destruct (IH (result ++ [current]) "" Hq) as (I1 & I2 & I3).
      rewrite I1, I2, length_app. cbn [length].
      split; [| split; [lia |]].
      * rewrite concat_snoc by (destruct result; done).
        rewrite append_nil_r, !append_assoc. reflexivity.
      * intros HF Hcur. apply I3; [| reflexivity].
        apply Forall_app. split; [exact HF |]. by constructor.
    + destruct (IH result (current +:+ String char "") Hq) as (I1 & I2 & I3).
      rewrite I1, I2.
      split; [| split; [lia |]].
      * rewrite concat_last_append, append_assoc. reflexivity.
      * intros HF Hcur. apply I3; [exact HF |].
        rewrite occurs_append, Hcur. cbn [occurs orb]. rewrite Ec. reflexivity.
Qed.

Lemma splitCSVLoop_no_quote (line : string) (result : list string)
    (current : string) (inQuotes : bool) :
  Forall (fun f => occurs quoteChar f = false) result ->
  occurs quoteChar current = false ->
  Forall (fun f => occurs quoteChar f = false)
    (splitCSVLoop line result current inQuotes).
Proof.
  revert result current inQuotes.
  induction line as [| char rest IH]; intros result current inQuotes HF Hc.
  - cbn [splitCSVLoop]. apply Forall_app. split; [exact HF |]. by constructor.
  - cbn [splitCSVLoop]. destruct (Ascii.eqb char quoteChar) eqn:Eq.
    + apply IH; assumption.
    + destruct (Ascii.eqb char commaChar && negb inQuotes).
      * apply IH; [| reflexivity]. apply Forall_app. split; [exact HF |].
        by constructor.
      * apply IH; [exact HF |]. rewrite occurs_append, Hc. cbn [occurs orb].
        rewrite Eq. reflexivity.
Qed.

(** X11: no field that [splitCSVLine] returns holds a double quote;
    for a line without one, joining the fields with commas gives the
    line back, there is one field more than commas, and no field
    holds a comma. *)
Theorem splitCSVLine_fields (line : string) :
  Forall (fun f => occurs quoteChar f = false) (splitCSVLine line)
  /\ (occurs quoteChar line = false ->
      String.concat "," (splitCSVLine line) = line
      /\ length (splitCSVLine line) = S (countChar commaChar line)
      /\ Forall (fun f => occurs commaChar f = false) (splitCSVLine line)).
Proof.
  split.
  - apply splitCSVLoop_no_quote; [constructor | reflexivity].
  - intros Hq. destruct (splitCSVLoop_plain line [] "" Hq) as (A & B & C).
    split; [exact A | split; [exact B |]].
    apply C; [constructor | reflexivity].
Qed.

(** ** The edit distance *)

Lemma editDistance_nil_r (ra : list ascii) :
  editDistance ra [] = Z.of_nat (length ra).
Proof. destruct ra; reflexivity. Qed.

Lemma editDistance_cons (x y : ascii) (ra rb : list ascii) :
  editDistance (x :: ra) (y :: rb)
  = if Ascii.eqb y x then editDistance ra rb
    else Z.min (editDistance ra rb + 1)
           (Z.min (editDistance ra (y :: rb) + 1) (editDistance (x :: ra) rb + 1)).
Proof. reflexivity. Qed.

Lemma fillRow_spec (bi : ascii) (a ra rb : list ascii) :
  fillRow bi a (editDistance ra rb) (rowFrom ra a rb) (editDistance ra (bi :: rb))
  = rowFrom ra a (bi :: rb).
Proof.
  revert ra. induction a as [| x a IH]; intros ra; [reflexivity |].
  cbn [rowFrom fillRow]. rewrite (editDistance_cons x bi ra rb).
  f_equal. rewrite <- (editDistance_cons x bi ra rb). apply IH.
Qed.

Lemma rowFrom_first (ra a : list ascii) :
  rowFrom ra a [] = seqZ (Z.of_nat (length ra) + 1) (Z.of_nat (length a)).
Proof.
  revert ra. induction a as [| x a IH]; intros ra; [reflexivity |].
  cbn [rowFrom]. rewrite IH, editDistance_nil_r.
  rewrite (seqZ_cons (Z.of_nat (length ra) + 1) (Z.of_nat (length (x :: a))))
    by (cbn [length]; lia).
  cbn [length]. f_equal; [lia |]. f_equal; lia.
Qed.

Lemma fillMatrix_spec (b a rb : list ascii) (i : Z) :
  i = Z.of_nat (length rb) + 1 ->
  fillMatrix b i a (editDistance [] rb :: rowFrom [] a rb)
  = editDistance [] (rev b ++ rb) :: rowFrom [] a (rev b ++ rb).
Proof.
  revert rb i. induction b as [| bi b IH]; intros rb i Hi; [reflexivity |].
  cbn [fillMatrix nextRow rev].
  replace i with (editDistance [] (bi :: rb)) by (cbn [editDistance length]; lia).
  rewrite fillRow_spec. rewrite <- app_assoc. cbn [app].
  apply IH. cbn [length]. cbn [editDistance length] in *. lia.
Qed.

Lemma last_rowFrom (ra a rb : list ascii) (d : Z) :
  last (d :: rowFrom ra a rb)
  = Some (match a with [] => d | _ => editDistance (rev a ++ ra) rb end).
Proof.
  revert ra d. induction a as [| x a IH]; intros ra d; [reflexivity |].
  cbn [rowFrom]. rewrite last_cons, IH. cbn [rev].
  destruct a as [| y a]; [reflexivity |].
  rewrite <- app_assoc. reflexivity.
Qed.

Lemma levenshtein_editDistance (a b : string) :
  levenshtein a b
  = editDistance (rev (String.list_ascii_of_string a)) (rev (String.list_ascii_of_string b)).
Proof.
  unfold levenshtein. cbv zeta.
  set (la := String.list_ascii_of_string a). set (lb := String.list_ascii_of_string b).
  destruct la as [| x la].
  - cbn [length Nat.eqb rev editDistance]. by rewrite length_rev.
  - cbn [length Nat.eqb]. destruct lb as [| y lb].
    + cbn [length Nat.eqb]. change (rev []) with (@nil ascii).
      rewrite editDistance_nil_r, length_rev. reflexivity.
    + cbn [length Nat.eqb].
      rewrite (seqZ_cons 0) by lia.
      replace (Z.pred (Z.of_nat (S (length la)) + 1)) with (Z.of_nat (length (x :: la)))
        by (cbn [length]; lia).
      change (Z.succ 0) with 1.
      replace (seqZ 1 (Z.of_nat (length (x :: la))))
        with (rowFrom [] (x :: la) []).
      * change (0 :: rowFrom [] (x :: la) [])
          with (editDistance [] [] :: rowFrom [] (x :: la) []).
        rewrite (fillMatrix_spec (y :: lb) (x :: la) [] 1) by reflexivity.
        rewrite last_rowFrom. cbn [default]. rewrite !app_nil_r. reflexivity.
      * rewrite rowFrom_first. reflexivity.
Qed.

Lemma editDistance_nonneg (ra rb : list ascii) : 0 <= editDistance ra rb.
Proof.
  revert rb. induction ra as [| x ra IH]; intros rb; [cbn; lia |].
  induction rb as [| y rb IHb]; [cbn [editDistance]; lia |].
  rewrite editDistance_cons. destruct (Ascii.eqb y x); [apply IH |].
  pose proof (IH rb). pose proof (IH (y :: rb)). lia.
Qed.

Lemma editDistance_refl (l : list ascii) : editDistance l l = 0.
Proof.
  induction l as [| x l IH]; [reflexivity |].
  rewrite editDistance_cons, Ascii.eqb_refl. exact IH.
Qed.

Lemma editDistance_zero (ra rb : list ascii) : editDistance ra rb = 0 -> ra = rb.
Proof.
  revert rb. induction ra as [| x ra IH]; intros rb.
  - cbn [editDistance]. destruct rb; [reflexivity | cbn [length]; lia].
  - induction rb as [| y rb IHb]; [cbn [editDistance length]; lia |].
    rewrite editDistance_cons. destruct (Ascii.eqb y x) eqn:E.
    + apply Ascii.eqb_eq in E. subst y. intros H. f_equal. apply IH, H.
    + pose proof (editDistance_nonneg ra rb).
      pose proof (editDistance_nonneg ra (y :: rb)).
      pose proof (editDistance_nonneg (x :: ra) rb). lia.
Qed.

Lemma editDistance_bounds (ra rb : list ascii) :
  Z.abs (Z.of_nat (length ra) - Z.of_nat (length rb)) <= editDistance ra rb
  /\ editDistance ra rb <= Z.max (Z.of_nat (length ra)) (Z.of_nat (length rb)).
Proof.
  revert rb. induction ra as [| x ra IH]; intros rb; [cbn [editDistance length]; lia |].
  induction rb as [| y rb IHb]; [cbn [editDistance length]; lia |].
  rewrite editDistance_cons.
  pose proof (IH rb). pose proof (IH (y :: rb)).
  cbn [length] in *. destruct (Ascii.eqb y x); lia.
Qed.

Lemma editDistance_sym (ra rb : list ascii) :
  editDistance ra rb = editDistance rb ra.
Proof.
  revert rb. induction ra as [| x ra IH]; intros rb.
  - by rewrite editDistance_nil_r.
  - induction rb as [| y rb IHb]; [by rewrite editDistance_nil_r |].
    rewrite !editDistance_cons, (Ascii.eqb_sym x y).
    rewrite (IH rb), (IH (y :: rb)), IHb.
    destruct (Ascii.eqb y x); [reflexivity |]. lia.
Qed.

Lemma list_ascii_of_string_inj (a b : string) :
  String.list_ascii_of_string a = String.list_ascii_of_string b -> a = b.
Proof.
  intros H. rewrite <- (String.string_of_list_ascii_of_string a),
    <- (String.string_of_list_ascii_of_string b). by rewrite H.
Qed.

Lemma length_list_ascii (a : string) :
  length (String.list_ascii_of_string a) = String.length a.
Proof. induction a as [| c a IH]; [reflexivity |]. cbn. by rewrite IH. Qed.

(** X12: [levenshtein] is zero from a string to itself and only
    then, is the same in both directions, is at least the difference
    of the lengths and at most the greater length. *)
Theorem levenshtein_metric (a b : string) :
  levenshtein a a = 0
  /\ (levenshtein a b = 0 -> a = b)
  /\ levenshtein a b = levenshtein b a
  /\ Z.abs (Z.of_nat (String.length a) - Z.of_nat (String.length b))
     <= levenshtein a b
  /\ levenshtein a b
     <= Z.max (Z.of_nat (String.length a)) (Z.of_nat (String.length b)).
Proof.
  rewrite !levenshtein_editDistance.
  split; [apply editDistance_refl |].
  split.
  { intros H. apply editDistance_zero in H. apply list_ascii_of_string_inj.
    apply (f_equal (@rev ascii)) in H. rewrite !rev_involutive in H. exact H. }
  split; [apply editDistance_sym |].
  pose proof (editDistance_bounds (rev (String.list_ascii_of_string a))
                (rev (String.list_ascii_of_string b))) as H.
  rewrite !length_rev, !length_list_ascii in H. exact H.
Qed.

(** ** Searching the city table *)

Lemma insertBy_Permutation {A : Type} (cmp : A -> A -> Q) (x : A) (l : list A) :
  insertBy cmp x l ≡ₚ x :: l.
Proof.
  induction l as [| y l IH]; [reflexivity |].
  cbn [insertBy]. destruct (Qle_bool (cmp y x) 0); [| reflexivity].
  rewrite IH. apply Permutation_swap.
Qed.

Lemma sortBy_Permutation {A : Type} (cmp : A -> A -> Q) (l : list A) :
  sortBy cmp l ≡ₚ l.
Proof.
  unfold sortBy.
  assert (G : forall acc, foldl (fun acc x => insertBy cmp x acc) acc l ≡ₚ acc ++ l).
  { induction l as [| x l IH]; intros acc; cbn [foldl].
    - by rewrite app_nil_r.
    - rewrite IH, insertBy_Permutation. apply Permutation_middle. }
  exact (G []).
Qed.

(** Insertion keeps a list ordered by any key that the comparator
    respects. *)
Section Ordered.
Context {A : Type} (cmp : A -> A -> Q) (key : A -> Q).
Hypothesis cmp_lt : forall a b, (key a < key b)%Q -> (cmp a b < 0)%Q.
Hypothesis cmp_gt : forall a b, (key b < key a)%Q -> (0 < cmp a b)%Q.

Lemma ordered_cons (x : A) (l : list A) :
  ordered key (x :: l) <-> (forall b, b ∈ l -> (key x <= key b)%Q) /\ ordered key l.
Proof.
  split.
  - intros H. split.
    + intros b Hb. apply list_elem_of_lookup_1 in Hb as [j Hj].
      apply (H 0%nat (S j) x b); [lia | reflexivity | exact Hj].
    + intros i j a b Hij Ha Hb. apply (H (S i) (S j) a b); [lia | exact Ha | exact Hb].
  - intros [H1 H2] i j a b Hij Ha Hb.
    destruct i as [| i]; cbn in Ha.
    + injection Ha as <-. destruct j as [| j]; cbn in Hb.
      * injection Hb as <-. apply Qle_refl.
      * apply H1. eapply list_elem_of_lookup_2, Hb.
    + destruct j as [| j]; [lia |]. cbn in Hb.
      apply (H2 i j a b); [lia | exact Ha | exact Hb].
Qed.

Lemma insertBy_ordered (x : A) (l : list A) :
  ordered key l -> ordered key (insertBy cmp x l).
Proof.
  induction l as [| y l IH]; intros Hl.
  - cbn [insertBy]. apply ordered_cons. split; [| intros i j a b _ Ha; discriminate Ha].
    intros b Hb. inversion Hb.
  - cbn [insertBy]. apply ordered_cons in Hl as [Hy Hl].
    destruct (Qle_bool (cmp y x) 0) eqn:E.
    + apply ordered_cons. split; [| apply IH, Hl].
      intros b Hb. rewrite insertBy_Permutation in Hb.
      apply elem_of_cons in Hb as [-> | Hb]; [| apply Hy, Hb].
      apply Qle_bool_iff in E.
      destruct (Qlt_le_dec (key x) (key y)) as [Lt | Le]; [| exact Le].
      pose proof (cmp_gt y x Lt). lra.
    + apply ordered_cons. split; [| apply ordered_cons; split; assumption].
      assert (Hxy : (key x <= key y)%Q).
      { destruct (Qlt_le_dec (key y) (key x)) as [Lt | Le]; [| exact Le].
        pose proof (cmp_lt y x Lt) as C.
        assert (Qle_bool (cmp y x) 0 = true) by (apply Qle_bool_iff; lra).
        congruence. }
      intros b Hb. apply elem_of_cons in Hb as [-> | Hb]; [exact Hxy |].
      pose proof (Hy b Hb). lra.
Qed.

Lemma sortBy_ordered (l : list A) : ordered key (sortBy cmp l).
Proof.
  unfold sortBy.
  assert (G : forall acc, ordered key acc ->
                ordered key (foldl (fun acc x => insertBy cmp x acc) acc l)).
  { induction l as [| x l IH]; intros acc Hacc; cbn [foldl]; [exact Hacc |].
    apply IH, insertBy_ordered, Hacc. }
  apply G. intros i j a b _ Ha. discriminate Ha.
Qed.

End Ordered.

Lemma maxFuzzyDist_range (n : nat) :
  0 <= CityService.maxFuzzyDist n <= 2
  /\ ((n <= 3)%nat -> CityService.maxFuzzyDist n = 0).
Proof.
  unfold CityService.maxFuzzyDist.
  destruct (n <=? 3)%nat eqn:E3; [split; [lia | reflexivity] |].
  apply Nat.leb_gt in E3.
  destruct (n <=? 6)%nat; split; lia.
Qed.

Section SearchFacts.
Variable toLowerCase : string -> string.
Variable trim : string -> string.
Variable localeCompare : string -> string -> Z.
Variable cities : list City.t.

(** What a score tells about the way a city matched. *)
Lemma score_cases (q : string) (c : City.t) :
  let n := toLowerCase (City.name c) in
  (0 <= CityService.score toLowerCase q c)%Q
  /\ ((CityService.score toLowerCase q c == 0)%Q <-> n = q)
  /\ ((CityService.score toLowerCase q c < 1000)%Q ->
      n = q \/ String.prefix q n = true \/ String.index 0 q n <> None
      \/ (3 < String.length q)%nat
         /\ levenshtein q n <= CityService.maxFuzzyDist (String.length q)).
Proof.
  intros n. unfold CityService.score. fold n.
  destruct (maxFuzzyDist_range (String.length q)) as [[M0 M2] M3].
  set (mx := CityService.maxFuzzyDist (String.length q)) in *. clearbody mx.
  destruct (String.eqb n q) eqn:E.
  { apply String.eqb_eq in E.
    split; [lra |]. split; [split; [intros _; exact E | reflexivity] |].
    intros _. left. exact E. }
  apply String.eqb_neq in E.
  destruct (String.prefix q n) eqn:P.
  { split; [lra |]. split; [split; [intros H; exfalso; lra | intros H; contradiction] |].
    intros _. right. left. reflexivity. }
  destruct (String.index 0 q n) as [idx |] eqn:I.
  { assert (0 <= inject_Z (Z.of_nat idx))%Q
      by (change 0%Q with (inject_Z 0); rewrite <- Zle_Qle; lia).
    split; [lra |]. split; [split; [intros H0; exfalso; lra | intros H0; contradiction] |].
    intros _. right. right. left. discriminate. }
  destruct (0 <? mx) eqn:Z0.
  2:{ split; [lra |]. split; [split; [intros H; exfalso; lra | intros H; contradiction] |].
      intros H. exfalso. lra. }
  apply Z.ltb_lt in Z0.
  destruct (levenshtein q n <=? mx) eqn:L.
  2:{ split; [lra |]. split; [split; [intros H; exfalso; lra | intros H; contradiction] |].
      intros H. exfalso. lra. }
  apply Z.leb_le in L.
  destruct (levenshtein_metric q n) as (_ & _ & _ & Lb & _).
  assert (0 <= inject_Z (levenshtein q n))%Q
    by (change 0%Q with (inject_Z 0); rewrite <- Zle_Qle; lia).
  split; [lra |]. split; [split; [intros H0; exfalso; lra | intros H0; contradiction] |].
  intros _. right. right. right. split; [| exact L].
  destruct (le_lt_dec (String.length q) 3) as [Le | Gt]; [| exact Gt].
  specialize (M3 Le). lia.
Qed.

Lemma compare_lt (a b : City.t * Q) :
  (a.2 < b.2)%Q -> (CityService.compare localeCompare a b < 0)%Q.
Proof.
  intros H. unfold CityService.compare.
  destruct (Qeq_bool a.2 b.2) eqn:E; cbn [negb]; [| lra].
  apply Qeq_bool_iff in E. lra.
Qed.

Lemma compare_gt (a b : City.t * Q) :
  (b.2 < a.2)%Q -> (0 < CityService.compare localeCompare a b)%Q.
Proof.
  intros H. unfold CityService.compare.
  destruct (Qeq_bool a.2 b.2) eqn:E; cbn [negb]; [| lra].
  apply Qeq_bool_iff in E. lra.
Qed.

Lemma filter_candidates (q : string) (l : list City.t) :
  let kept :=
    List.filter (fun c : City.t * Q => JS.ltb c.2 1000)
      ((fun city => (city, CityService.score toLowerCase q city)) <$> l) in
  sublist (fst <$> kept) l
  /\ Forall (fun p => p.2 = CityService.score toLowerCase q p.1 /\ (p.2 < 1000)%Q) kept.
Proof.
  induction l as [| c l [IH1 IH2]]; [split; constructor |].
  cbn [fmap list_fmap List.filter]. cbn [snd].
  destruct (JS.ltb (CityService.score toLowerCase q c) 1000) eqn:E.
  - split; [cbn; by apply sublist_skip |].
    constructor; [| exact IH2]. split; [reflexivity |].
    cbn [snd]. by apply ltb_lt.
  - split; [by apply sublist_cons | exact IH2].
Qed.

(** X13: [searchCities] returns nothing for a query that trims to
    under two characters and at most twenty cities otherwise, each
    an entry of the table taken no more often than it stands there
    and each matching the query: by name, prefix, substring or, for a
    query of more than three characters, within [maxFuzzyDist]
    edits (one up to six characters, two beyond).  The results come
    in the order of their score, so no other match precedes a match
    by name. *)
Theorem searchCities_results (query : string) :
  let res := CityService.searchCities toLowerCase trim localeCompare cities query in
  let q := trim (toLowerCase query) in
  ((String.length (trim query) < 2)%nat -> res = [])
  /\ (length res <= 20)%nat
  /\ res ⊆+ cities
  /\ (forall c, c ∈ res ->
        let n := toLowerCase (City.name c) in
        n = q \/ String.prefix q n = true \/ String.index 0 q n <> None
        \/ (3 < String.length q)%nat
           /\ levenshtein q n <= CityService.maxFuzzyDist (String.length q))
  /\ (forall i j a b, (i <= j)%nat -> res !! i = Some a -> res !! j = Some b ->
        (CityService.score toLowerCase q a <= CityService.score toLowerCase q b)%Q
        /\ (toLowerCase (City.name b) = q -> toLowerCase (City.name a) = q)).
Proof.
  intros res q. subst res. unfold CityService.searchCities.
  destruct (String.eqb query "" || (String.length (trim query) <? 2)%nat) eqn:G.
  { split; [reflexivity |]. split; [cbn; lia |].
    split; [apply submseteq_nil_l |].
    split; [intros c Hc; inversion Hc |].
    intros i j a b _ Ha. discriminate Ha. }
  apply orb_false_iff in G as [_ G]. apply Nat.ltb_ge in G.
  cbv zeta. fold q.
  destruct (filter_candidates q cities) as [S F]. cbv zeta in S, F.
  set (kept := List.filter _ _) in *.
  pose proof (sortBy_Permutation (CityService.compare localeCompare) kept) as P.
  pose proof (sortBy_ordered (CityService.compare localeCompare) snd
                compare_lt compare_gt kept) as O.
  set (sorted := sortBy (CityService.compare localeCompare) kept) in *. clearbody sorted.
  rewrite <- P in F. rewrite Forall_forall in F.
  assert (R : forall i a, take 20 (fst <$> sorted) !! i = Some a ->
            exists p, sorted !! i = Some p /\ p.1 = a).
  { intros i a H. apply lookup_take_Some in H as [H _].
    apply list_lookup_fmap_Some in H as (p & Hp & ->). by exists p. }
  split; [intros H; lia |].
  split; [rewrite length_take; lia |].
  split.
  { transitivity (fst <$> sorted).
    - apply sublist_submseteq, sublist_take.
    - rewrite P. apply sublist_submseteq, S. }
  split.
  { intros c Hc. apply list_elem_of_lookup_1 in Hc as [i Hi].
    apply R in Hi as (p & Hp & <-).
    destruct (F p (list_elem_of_lookup_2 _ _ _ Hp)) as [F1 F2].
    rewrite F1 in F2.
    destruct (score_cases q p.1) as (_ & _ & C). specialize (C F2).
    destruct C as [C | [C | [C | [C1 C2]]]]; [tauto | tauto | tauto |].
    right. right. right. split; [exact C1 | exact C2]. }
  intros i j a b Hij Ha Hb.
  apply R in Ha as (pa & Hpa & <-). apply R in Hb as (pb & Hpb & <-).
  destruct (F pa (list_elem_of_lookup_2 _ _ _ Hpa)) as [Fa _].
  destruct (F pb (list_elem_of_lookup_2 _ _ _ Hpb)) as [Fb _].
  pose proof (O i j pa pb Hij Hpa Hpb) as Le. rewrite Fa, Fb in Le.
  split; [exact Le |].
  intros Eb.
  destruct (score_cases q pa.1) as (A0 & A1 & _).
  destruct (score_cases q pb.1) as (_ & B1 & _).
  apply A1. apply B1 in Eb. lra.
Qed.

End SearchFacts.

(** ** The planet table *)

Lemma insertBy_fmap {A B : Type} (f : A -> B) (cmp : A -> A -> Q)
    (cmp' : B -> B -> Q) (x : A) (l : list A) :
  (forall a b, cmp a b = cmp' (f a) (f b)) ->
  f <$> insertBy cmp x l = insertBy cmp' (f x) (f <$> l).
Proof.
  intros H. induction l as [| y l IH]; [reflexivity |].
  cbn [insertBy fmap list_fmap]. rewrite <- H.
  destruct (Qle_bool (cmp y x) 0); [| reflexivity].
  cbn [fmap list_fmap]. f_equal. exact IH.
Qed.

Lemma sortBy_fmap {A B : Type} (f : A -> B) (cmp : A -> A -> Q)
    (cmp' : B -> B -> Q) (l : list A) :
  (forall a b, cmp a b = cmp' (f a) (f b)) ->
  f <$> sortBy cmp l = sortBy cmp' (f <$> l).
Proof.
  intros H. unfold sortBy.
  assert (G : forall acc,
            f <$> foldl (fun acc x => insertBy cmp x acc) acc l
            = foldl (fun acc x => insertBy cmp' x acc) (f <$> acc) (f <$> l)).
  { induction l as [| x l IH]; intros acc; [reflexivity |].
    cbn [foldl fmap list_fmap]. rewrite IH. f_equal.
    apply insertBy_fmap, H. }
  exact (G []).
Qed.

Lemma positions_names (elon : string -> Z -> Q) (ut : Z -> Q)
    (ascDeg : Z -> Q -> Q -> Q) (date : Z) (lat lon ayanamsa : Q) :
  name <$> calculatePositions elon ut ascDeg date lat lon ayanamsa
  = ["Surya"; "Chandra"; "Kuja"; "Budha"; "Guru"; "Shukra"; "Shani";
     "Rahu"; "Ketu"; "Lagna"].
Proof. reflexivity. Qed.

(** X14: [sortedPlanets] permutes its rows into the order of their
    rank, and the table of a chart from [calculatePositions] reads
    Lagna, Surya, Chandra, Kuja, Budha, Guru, Shukra, Shani, Rahu,
    Ketu. *)
Theorem sortedPlanets_order (elon : string -> Z -> Q) (ut : Z -> Q)
    (ascDeg : Z -> Q -> Q -> Q) (date : Z) (lat lon ayanamsa : Q)
    (planets : list PlanetData) :
  PlanetTable.sortedPlanets planets ≡ₚ planets
  /\ (forall i j a b, (i <= j)%nat ->
        PlanetTable.sortedPlanets planets !! i = Some a ->
        PlanetTable.sortedPlanets planets !! j = Some b ->
        PlanetTable.rank (name a) <= PlanetTable.rank (name b))
  /\ name <$> PlanetTable.sortedPlanets
                (calculatePositions elon ut ascDeg date lat lon ayanamsa)
     = PlanetTable.order.
Proof.
  split; [apply sortBy_Permutation |].
  split.
  - intros i j a b Hij Ha Hb.
    pose proof (sortBy_ordered
                  (fun a b => inject_Z (PlanetTable.rank (name a)
                                        - PlanetTable.rank (name b)))
                  (fun p => inject_Z (PlanetTable.rank (name p)))) as O.
    cbv beta in O. rewrite Zle_Qle.
    apply (O ltac:(intros x y H; rewrite <- Zlt_Qlt in H;
                   change 0%Q with (inject_Z 0); rewrite <- Zlt_Qlt; lia)
             ltac:(intros x y H; rewrite <- Zlt_Qlt in H;
                   change 0%Q with (inject_Z 0); rewrite <- Zlt_Qlt; lia)
             planets i j a b Hij Ha Hb).
  - unfold PlanetTable.sortedPlanets.
    rewrite (sortBy_fmap name _
               (fun a b => inject_Z (PlanetTable.rank a - PlanetTable.rank b)))
      by reflexivity.
    rewrite positions_names. vm_compute. reflexivity.
Qed.

(** ** Retrograde marks *)

Lemma label_formatPlanet (e : string) (lon : Q) (r : bool) (asc : Q) :
  let n := JS.orElse (PLANET_NAME_MAP !! e) e in
  name (formatPlanet e lon r asc) = n
  /\ isRetrograde (formatPlanet e lon r asc) = r
  /\ SouthIndianChart.formatPlanet (formatPlanet e lon r asc)
     = if r && negb (String.eqb n "Rahu") && negb (String.eqb n "Ketu")
       then n +:+ " R" else n.
Proof. repeat split. Qed.

Ltac settle_membership :=
  repeat match goal with
  | H : _ ∈ [] |- _ => inversion H
  | H : _ ∈ _ :: _ |- _ =>
      apply elem_of_cons in H as [H | H]; [discriminate H |]
  end.

Lemma retrogradeMarked_point (e : string) (lon : Q) (r : bool) (asc : Q) :
  e ∈ ["Sun"; "Moon"; "Mars"; "Mercury"; "Jupiter"; "Venus"; "Saturn";
       "Rahu"; "Ketu"; "Ascendant"] ->
  (e ∈ ["Sun"; "Moon"; "Ascendant"] -> r = false) ->
  (e ∈ ["Rahu"; "Ketu"] -> r = true) ->
  retrogradeMarked (formatPlanet e lon r asc).
Proof.
  intros He Hf Ht. unfold retrogradeMarked.
  destruct (label_formatPlanet e lon r asc) as (-> & -> & ->). cbv zeta.
  repeat (apply elem_of_cons in He as [-> | He]); [.. | inversion He].
  all: try (rewrite (Hf ltac:(repeat constructor)));
       try (rewrite (Ht ltac:(repeat constructor)));
       clear Hf Ht;
       match goal with
       | |- context [JS.orElse ?m ?e] =>
           let v := eval vm_compute in (JS.orElse m e) in
           change (JS.orElse m e) with v
       end;
       destruct r;
       repeat match goal with
       | |- context [if ?c then ?a else ?b] =>
           let v := eval vm_compute in (if c then a else b) in
           change (if c then a else b) with v
       end;
       repeat match goal with
       | |- context [?s +:+ " R"] =>
           let v := eval vm_compute in (s +:+ " R") in
           change (s +:+ " R") with v
       end;
       (split; [intros H; first [split; reflexivity | exfalso; settle_membership] |]);
       (split; [intros H; first [split; reflexivity | exfalso; settle_membership] |]);
       (split; [| first [left; reflexivity | right; reflexivity]]);
       (split; [intros H; first [discriminate H | split; [reflexivity | repeat constructor]]
               | intros [H1 H2]; first [reflexivity | discriminate H1
                                        | exfalso; settle_membership]]).
Qed.

(** X16: in a chart from [calculatePositions], Surya, Chandra and
    Lagna are never retrograde, Rahu and Ketu are always flagged
    retrograde but drawn without the mark, and the mark R is drawn
    exactly on those of Kuja, Budha, Guru, Shukra and Shani that are
    retrograde. *)
Theorem retrograde_marks (elon : string -> Z -> Q) (ut : Z -> Q)
    (ascDeg : Z -> Q -> Q -> Q) (date : Z) (lat lon ayanamsa : Q) :
  Forall retrogradeMarked (calculatePositions elon ut ascDeg date lat lon ayanamsa).
Proof.
  unfold calculatePositions. cbv zeta. unfold bodyMap.
  rewrite !fmap_cons, fmap_nil. cbn [app].
  repeat (apply Forall_cons; split;
          [apply retrogradeMarked_point;
           [repeat constructor
           | intros H; first [reflexivity | exfalso; settle_membership]
           | intros H; first [reflexivity | exfalso; settle_membership]] |]).
  constructor.
Qed.

(** * Properties of the binary64 reading *)

(** ** Powers of two *)

Lemma pow2_pos (k : Z) : (0 < pow2 k)%Q.
Proof. apply Qpower_0_lt. reflexivity. Qed.

Lemma pow2_add (a b : Z) : (pow2 (a + b) == pow2 a * pow2 b)%Q.
Proof. apply Qpower_plus. discriminate. Qed.

Lemma pow2_succ (a : Z) : (pow2 (a + 1) == 2 * pow2 a)%Q.
Proof. rewrite pow2_add. change (pow2 1) with 2%Q. ring. Qed.

Lemma pow2_le (a b : Z) : a <= b -> (pow2 a <= pow2 b)%Q.
Proof. intros H. apply Qpower_le_compat_l; [exact H | discriminate]. Qed.

Lemma pow2_lt_inv (a b : Z) : (pow2 a < pow2 b)%Q -> a < b.
Proof. intros H. apply (Qpower_lt_compat_l_inv 2); [exact H | reflexivity]. Qed.

Lemma pow2_Z (k : Z) : 0 <= k -> (pow2 k == inject_Z (2 ^ k))%Q.
Proof. intros H. unfold pow2. rewrite (Zpower_Qpower 2 k H). reflexivity. Qed.

Lemma pow2_sub (a b : Z) : (pow2 (a - b) == pow2 a / pow2 b)%Q.
Proof.
  assert (H : (pow2 a == pow2 (a - b) * pow2 b)%Q).
  { rewrite <- pow2_add. replace (a - b + b) with a by lia. reflexivity. }
  pose proof (pow2_pos b). rewrite H. field. lra.
Qed.

(** ** The binary logarithm *)

Lemma ilog2_spec (x : Q) :
  (0 < x)%Q -> (pow2 (ilog2 x) <= x)%Q /\ (x < pow2 (ilog2 x + 1))%Q.
Proof.
  intros Hx. destruct x as [n d]. unfold ilog2. cbn [Qnum Qden]. cbv zeta.
  assert (Hn : 0 < n) by (unfold Qlt in Hx; cbn in Hx; lia).
  set (a := Z.log2 n). set (b := Z.log2 (Z.pos d)).
  destruct (Z.log2_spec n Hn) as [A1 A2]. fold a in A1, A2.
  destruct (Z.log2_spec (Z.pos d) ltac:(lia)) as [B1 B2]. fold b in B1, B2.
  assert (Ha : 0 <= a) by apply Z.log2_nonneg.
  assert (Hb : 0 <= b) by apply Z.log2_nonneg.
  assert (E : (n # d == inject_Z n / inject_Z (Z.pos d))%Q) by apply Qmake_Qdiv.
  assert (Dpos : (0 < inject_Z (Z.pos d))%Q) by (unfold Qlt; cbn; lia).
  assert (QA1 : (pow2 a <= inject_Z n)%Q) by (rewrite pow2_Z by lia; rewrite <- Zle_Qle; lia).
  assert (QA2 : (inject_Z n < 2 * pow2 a)%Q).
  { rewrite <- pow2_succ, pow2_Z by lia. rewrite <- Zlt_Qlt.
    replace (a + 1) with (Z.succ a) by lia. lia. }
  assert (QB1 : (pow2 b <= inject_Z (Z.pos d))%Q) by (rewrite pow2_Z by lia; rewrite <- Zle_Qle; lia).
  assert (QB2 : (inject_Z (Z.pos d) < 2 * pow2 b)%Q).
  { rewrite <- pow2_succ, pow2_Z by lia. rewrite <- Zlt_Qlt.
    replace (b + 1) with (Z.succ b) by lia. lia. }
  pose proof (pow2_pos a) as PA. pose proof (pow2_pos b) as PB.
  assert (K : (pow2 (a - b) * pow2 b == pow2 a)%Q).
  { rewrite <- pow2_add. replace (a - b + b) with a by lia. reflexivity. }
  pose proof (pow2_pos (a - b)) as PK.
  set (X := (n # d)%Q) in *.
  assert (XD : (X * inject_Z (Z.pos d) == inject_Z n)%Q).
  { rewrite E. field. lra. }
  set (D := inject_Z (Z.pos d)) in *. set (N := inject_Z n) in *.
  set (P := pow2 (a - b)) in *. set (A := pow2 a) in *. set (B := pow2 b) in *.
  clearbody X D N A B.
  assert (U : (X < 2 * P)%Q).
  { apply Qnot_le_lt. intros C.
    assert ((2 * P) * B <= X * D)%Q by (apply Qmult_le_compat_nonneg; split; lra).
    lra. }
  assert (Lw : (P < 2 * X)%Q).
  { apply Qnot_le_lt. intros C.
    assert ((2 * X) * D < P * (2 * B))%Q.
    { apply Qmult_le_lt_compat_pos; split; lra. }
    lra. }
  destruct (Qle_bool P X) eqn:Q.
  - apply Qle_bool_iff in Q. split; [exact Q |].
    rewrite pow2_succ. exact U.
  - assert (Q' : (X < P)%Q).
    { apply Qnot_le_lt. intros C. apply Qle_bool_iff in C. congruence. }
    pose proof (pow2_succ (a - b - 1)) as S1.
    replace (a - b - 1 + 1) with (a - b) in * by lia.
    fold P in S1. split; [lra | exact Q'].
Qed.

Lemma ilog2_unique (x : Q) (k : Z) :
  (pow2 k <= x)%Q -> (x < pow2 (k + 1))%Q -> ilog2 x = k.
Proof.
  intros L U.
  assert (Hx : (0 < x)%Q) by (pose proof (pow2_pos k); lra).
  destruct (ilog2_spec x Hx) as [L' U'].
  assert (k < ilog2 x + 1) by (apply pow2_lt_inv; lra).
  assert (ilog2 x < k + 1) by (apply pow2_lt_inv; lra).
  lia.
Qed.

Lemma ilog2_comp (x y : Q) : (0 < x)%Q -> (x == y)%Q -> ilog2 x = ilog2 y.
Proof.
  intros Hx E. destruct (ilog2_spec x Hx) as [L U].
  symmetry. apply ilog2_unique; lra.
Qed.

Lemma ilog2_mono (x y : Q) : (0 < x)%Q -> (x <= y)%Q -> ilog2 x <= ilog2 y.
Proof.
  intros Hx Hxy. destruct (ilog2_spec x Hx) as [L _].
  destruct (ilog2_spec y ltac:(lra)) as [_ U].
  assert (ilog2 x < ilog2 y + 1) by (apply pow2_lt_inv; lra). lia.
Qed.

(** ** The nearest integer *)

Lemma rne_cases (q : Q) : rne q = Qfloor q \/ rne q = Qfloor q + 1.
Proof.
  unfold rne. destruct (_ ?= _)%Q; auto. destruct (Z.even _); auto.
Qed.

Lemma rne_near (q : Q) :
  (q - (1 # 2) <= inject_Z (rne q))%Q /\ (inject_Z (rne q) <= q + (1 # 2))%Q.
Proof.
  pose proof (Qfloor_le q) as F1. pose proof (Qlt_floor q) as F2.
  rewrite inject_Z_plus in F2. change (inject_Z 1) with 1%Q in F2.
  unfold rne. set (f := Qfloor q) in *.
  destruct (Qcompare_spec (q - inject_Z f) (1 # 2)) as [E | E | E].
  - destruct (Z.even f); [| rewrite inject_Z_plus; change (inject_Z 1) with 1%Q]; lra.
  - lra.
  - rewrite inject_Z_plus. change (inject_Z 1) with 1%Q. lra.
Qed.

Lemma rne_comp (q r : Q) : (q == r)%Q -> rne q = rne r.
Proof.
  intros E. unfold rne. rewrite (Qfloor_comp q r E).
  assert (E' : (q - inject_Z (Qfloor r) == r - inject_Z (Qfloor r))%Q) by lra.
  rewrite (Qcompare_comp _ _ E' _ _ (Qeq_refl (1 # 2))). reflexivity.
Qed.

Lemma rne_Z (z : Z) : rne (inject_Z z) = z.
Proof.
  unfold rne. rewrite Qfloor_Z.
  assert (E : (inject_Z z - inject_Z z ?= 1 # 2)%Q = Lt).
  { set (y := inject_Z z). clearbody y. change (y - y < 1 # 2)%Q. lra. }
  rewrite E. reflexivity.
Qed.

Lemma rne_mono (q r : Q) : (q <= r)%Q -> rne q <= rne r.
Proof.
  intros H. pose proof (Qfloor_resp_le q r H) as F.
  destruct (Z.eq_dec (Qfloor q) (Qfloor r)) as [E | N].
  - unfold rne. rewrite E. set (f := Qfloor r).
    destruct (Qcompare_spec (q - inject_Z f) (1 # 2)) as [A | A | A];
      destruct (Qcompare_spec (r - inject_Z f) (1 # 2)) as [B | B | B];
      try lia; try (exfalso; lra); destruct (Z.even f); lia.
  - destruct (rne_cases q) as [-> | ->]; destruct (rne_cases r) as [-> | ->]; lia.
Qed.

Lemma rne_le (q : Q) (z : Z) : (q <= inject_Z z)%Q -> rne q <= z.
Proof. intros H. rewrite <- (rne_Z z). apply rne_mono, H. Qed.

Lemma rne_ge (q : Q) (z : Z) : (inject_Z z <= q)%Q -> z <= rne q.
Proof. intros H. rewrite <- (rne_Z z). apply rne_mono, H. Qed.

(** ** Rounding a positive number *)

Lemma ulpExp_comp (x y : Q) : (0 < x)%Q -> (x == y)%Q -> ulpExp x = ulpExp y.
Proof. intros H E. unfold ulpExp. by rewrite (ilog2_comp x y H E). Qed.

Lemma ulpExp_mono (x y : Q) : (0 < x)%Q -> (x <= y)%Q -> ulpExp x <= ulpExp y.
Proof. intros H L. unfold ulpExp. pose proof (ilog2_mono x y H L). lia. Qed.

Lemma roundPos_comp (x y : Q) :
  (0 < x)%Q -> (x == y)%Q -> (roundPos x == roundPos y)%Q.
Proof.
  intros H E. unfold roundPos. rewrite <- (ulpExp_comp x y H E).
  assert (E' : (x / pow2 (ulpExp x) == y / pow2 (ulpExp x))%Q)
    by (unfold Qdiv; apply Qmult_comp; [exact E | reflexivity]).
  rewrite (rne_comp _ _ E'). reflexivity.
Qed.

(** The scaled number and its nearest integer. *)
Lemma roundPos_scaled (x : Q) :
  (x == x / pow2 (ulpExp x) * pow2 (ulpExp x))%Q.
Proof. pose proof (pow2_pos (ulpExp x)). field. lra. Qed.

Lemma roundPos_nonneg (x : Q) : (0 < x)%Q -> (0 <= roundPos x)%Q.
Proof.
  intros H. unfold roundPos. pose proof (pow2_pos (ulpExp x)) as U.
  assert (0 <= rne (x / pow2 (ulpExp x))).
  { apply rne_ge. change (inject_Z 0) with 0%Q.
    apply Qle_shift_div_l; [exact U | lra]. }
  assert (inject_Z 0 <= inject_Z (rne (x / pow2 (ulpExp x))))%Q by (rewrite <- Zle_Qle; lia).
  change (inject_Z 0) with 0%Q in *. apply Qmult_le_0_compat; lra.
Qed.

Lemma roundPos_error (x : Q) :
  (0 < x)%Q ->
  (x - (1 # 2) * pow2 (ulpExp x) <= roundPos x)%Q
  /\ (roundPos x <= x + (1 # 2) * pow2 (ulpExp x))%Q.
Proof.
  intros H. unfold roundPos. pose proof (pow2_pos (ulpExp x)) as U.
  pose proof (roundPos_scaled x) as S.
  destruct (rne_near (x / pow2 (ulpExp x))) as [N1 N2].
  set (u := pow2 (ulpExp x)) in *. set (q := (x / u)%Q) in *.
  set (m := inject_Z (rne q)) in *. clearbody m q u.
  assert ((q - (1 # 2)) * u <= m * u)%Q by (apply Qmult_le_compat_r; lra).
  assert (m * u <= (q + (1 # 2)) * u)%Q by (apply Qmult_le_compat_r; lra).
  split; lra.
Qed.

Lemma roundPos_upper (x : Q) (k : Z) :
  (0 < x)%Q -> (x <= pow2 k)%Q -> ulpExp x <= k -> (roundPos x <= pow2 k)%Q.
Proof.
  intros H L E. unfold roundPos. pose proof (pow2_pos (ulpExp x)) as U.
  assert (P : (pow2 k == inject_Z (2 ^ (k - ulpExp x)) * pow2 (ulpExp x))%Q).
  { rewrite <- pow2_Z by lia. rewrite <- pow2_add.
    replace (k - ulpExp x + ulpExp x) with k by lia. reflexivity. }
  assert (R : rne (x / pow2 (ulpExp x)) <= 2 ^ (k - ulpExp x)).
  { apply rne_le. apply Qle_shift_div_r; [exact U |]. lra. }
  rewrite P. apply Qmult_le_compat_r; [| lra]. rewrite <- Zle_Qle. exact R.
Qed.

Lemma roundPos_lower (x : Q) (k : Z) :
  (pow2 k <= x)%Q -> ulpExp x <= k -> (pow2 k <= roundPos x)%Q.
Proof.
  intros L E. unfold roundPos. pose proof (pow2_pos (ulpExp x)) as U.
  assert (P : (pow2 k == inject_Z (2 ^ (k - ulpExp x)) * pow2 (ulpExp x))%Q).
  { rewrite <- pow2_Z by lia. rewrite <- pow2_add.
    replace (k - ulpExp x + ulpExp x) with k by lia. reflexivity. }
  assert (R : 2 ^ (k - ulpExp x) <= rne (x / pow2 (ulpExp x))).
  { apply rne_ge. apply Qle_shift_div_l; [exact U |]. lra. }
  rewrite P. apply Qmult_le_compat_r; [| lra]. rewrite <- Zle_Qle. exact R.
Qed.

Lemma roundPos_mono (x y : Q) :
  (0 < x)%Q -> (x <= y)%Q -> (roundPos x <= roundPos y)%Q.
Proof.
  intros H L. pose proof (ulpExp_mono x y H L) as E.
  destruct (Z.eq_dec (ulpExp x) (ulpExp y)) as [Eq | Ne].
  - unfold roundPos. rewrite Eq. pose proof (pow2_pos (ulpExp y)) as U.
    apply Qmult_le_compat_r; [| lra]. rewrite <- Zle_Qle. apply rne_mono.
    apply Qmult_le_compat_r; [exact L |]. apply Qlt_le_weak, Qinv_lt_0_compat, U.
  - destruct (ilog2_spec x H) as [_ Ux].
    destruct (ilog2_spec y ltac:(lra)) as [Ly _].
    unfold ulpExp in E, Ne.
    assert (I : ilog2 x + 1 <= ilog2 y) by lia.
    apply Qle_trans with (pow2 (ilog2 y)).
    + apply roundPos_upper; [exact H | | unfold ulpExp; lia].
      pose proof (pow2_le _ _ I). lra.
    + apply roundPos_lower; [exact Ly | unfold ulpExp; lia].
Qed.

(** ** Rounding *)

Lemma round_pos (x : Q) : (0 < x)%Q -> round x = roundPos x.
Proof.
  intros H. unfold round.
  destruct (Qcompare_spec x 0) as [E | E | E]; [lra | lra | reflexivity].
Qed.

Lemma round_neg (x : Q) : (x < 0)%Q -> round x = (- roundPos (- x))%Q.
Proof.
  intros H. unfold round.
  destruct (Qcompare_spec x 0) as [E | E | E]; [lra | reflexivity | lra].
Qed.

Lemma round_zero (x : Q) : (x == 0)%Q -> round x = 0%Q.
Proof.
  intros H. unfold round.
  destruct (Qcompare_spec x 0) as [E | E | E]; [reflexivity | lra | lra].
Qed.

Lemma round_comp (x y : Q) : (x == y)%Q -> (round x == round y)%Q.
Proof.
  intros E. destruct (Q_dec x 0) as [[N | P] | Z].
  - rewrite (round_neg x N), (round_neg y ltac:(lra)).
    rewrite (roundPos_comp (- x) (- y)); [reflexivity | lra | lra].
  - rewrite (round_pos x P), (round_pos y ltac:(lra)).
    apply roundPos_comp; [lra | exact E].
  - rewrite (round_zero x Z), (round_zero y ltac:(lra)). reflexivity.
Qed.

#[export] Instance round_proper : Proper (Qeq ==> Qeq) round.
Proof. intros x y E. apply round_comp, E. Qed.

Lemma round_opp (x : Q) : (round (- x) == - round x)%Q.
Proof.
  destruct (Q_dec x 0) as [[N | P] | Z].
  - rewrite (round_neg x N), (round_pos (- x) ltac:(lra)). lra.
  - rewrite (round_pos x P), (round_neg (- x) ltac:(lra)).
    rewrite (roundPos_comp (- - x) x); [reflexivity | lra | lra].
  - rewrite (round_zero x Z), (round_zero (- x) ltac:(lra)). reflexivity.
Qed.

Lemma round_nonneg (x : Q) : (0 <= x)%Q -> (0 <= round x)%Q.
Proof.
  intros H. destruct (Q_dec x 0) as [[N | P] | Z].
  - lra.
  - rewrite (round_pos x P). apply roundPos_nonneg, P.
  - rewrite (round_zero x Z). lra.
Qed.

Lemma round_nonpos (x : Q) : (x <= 0)%Q -> (round x <= 0)%Q.
Proof.
  intros H. pose proof (round_nonneg (- x) ltac:(lra)) as R.
  rewrite round_opp in R. lra.
Qed.

Theorem round_mono (x y : Q) : (x <= y)%Q -> (round x <= round y)%Q.
Proof.
  intros L. destruct (Q_dec x 0) as [[Nx | Px] | Zx].
  - destruct (Q_dec y 0) as [[Ny | Py] | Zy].
    + rewrite (round_neg x Nx), (round_neg y Ny).
      pose proof (roundPos_mono (- y) (- x) ltac:(lra) ltac:(lra)). lra.
    + pose proof (round_nonpos x ltac:(lra)). pose proof (round_nonneg y ltac:(lra)). lra.
    + pose proof (round_nonpos x ltac:(lra)). pose proof (round_nonneg y ltac:(lra)). lra.
  - rewrite (round_pos x Px), (round_pos y ltac:(lra)).
    apply roundPos_mono; assumption.
  - rewrite (round_zero x Zx). apply round_nonneg. lra.
Qed.

Lemma ulpExp_le (x : Q) (k : Z) :
  (0 < x)%Q -> (x < pow2 (k + 1))%Q -> -1074 <= k - 52 -> ulpExp x <= k - 52.
Proof.
  intros H U K. destruct (ilog2_spec x H) as [L _].
  assert (ilog2 x < k + 1) by (apply pow2_lt_inv; lra).
  unfold ulpExp. lia.
Qed.

Lemma ulpExp_ge (x : Q) (k : Z) :
  (pow2 k <= x)%Q -> k - 52 <= ulpExp x.
Proof.
  intros L. pose proof (pow2_pos k).
  destruct (ilog2_spec x ltac:(lra)) as [_ U].
  assert (k < ilog2 x + 1) by (apply pow2_lt_inv; lra).
  unfold ulpExp. lia.
Qed.

(** The error of rounding a number under [2 ^ (k + 1)] in size. *)
Theorem round_error (x : Q) (k : Z) :
  (Qabs x < pow2 (k + 1))%Q -> -1074 <= k - 52 ->
  (Qabs (round x - x) <= pow2 (k - 53))%Q.
Proof.
  intros B K.
  assert (P : (pow2 (k - 52) == 2 * pow2 (k - 53))%Q).
  { rewrite <- pow2_succ. replace (k - 53 + 1) with (k - 52) by lia. reflexivity. }
  assert (G : forall z, (0 < z)%Q -> (z < pow2 (k + 1))%Q ->
              (z - pow2 (k - 53) <= roundPos z)%Q /\ (roundPos z <= z + pow2 (k - 53))%Q).
  { intros z Hz Uz. destruct (roundPos_error z Hz) as [E1 E2].
    pose proof (pow2_le _ _ (ulpExp_le z k Hz Uz K)). split; lra. }
  apply Qabs_Qle_condition.
  destruct (Q_dec x 0) as [[N | Px] | Z].
  - rewrite (Qabs_neg x ltac:(lra)) in B. rewrite (round_neg x N).
    destruct (G (- x)%Q ltac:(lra) B). split; lra.
  - rewrite (Qabs_pos x ltac:(lra)) in B. rewrite (round_pos x Px).
    destruct (G x Px B). split; lra.
  - rewrite (round_zero x Z). pose proof (pow2_pos (k - 53)). split; lra.
Qed.

(** ** Binary64 numbers *)

Lemma roundPos_fix (x : Q) (m e : Z) :
  (0 < x)%Q -> (x == inject_Z m * pow2 e)%Q -> m < 2 ^ 53 -> -1074 <= e ->
  (roundPos x == x)%Q.
Proof.
  intros H E M Le. pose proof (pow2_pos e) as Pe.
  assert (U : (x < pow2 (e + 52 + 1))%Q).
  { rewrite E. replace (e + 52 + 1) with (53 + e) by lia. rewrite pow2_add.
    apply Qmult_lt_compat_r; [exact Pe |]. rewrite pow2_Z by lia.
    rewrite <- Zlt_Qlt. exact M. }
  pose proof (ulpExp_le x (e + 52) H U ltac:(lia)) as Ue.
  set (ue := ulpExp x) in *.
  assert (S : (x / pow2 ue == inject_Z (m * 2 ^ (e - ue)))%Q).
  { rewrite E, inject_Z_mult, <- pow2_Z by lia. rewrite pow2_sub.
    pose proof (pow2_pos ue). field. lra. }
  unfold roundPos. fold ue. rewrite (rne_comp _ _ S), rne_Z.
  rewrite E, inject_Z_mult, <- pow2_Z by lia. rewrite pow2_sub.
  pose proof (pow2_pos ue). field. lra.
Qed.

(** A number with at most 53 significant bits and an exponent in
    range is a binary64 number. *)
Theorem isDouble_scaled (m e : Z) :
  Z.abs m < 2 ^ 53 -> -1074 <= e -> isDouble (inject_Z m * pow2 e).
Proof.
  intros M Le. unfold isDouble. pose proof (pow2_pos e) as Pe.
  set (x := (inject_Z m * pow2 e)%Q).
  destruct (Z.lt_trichotomy m 0) as [N | [Z | P]].
  - assert (Hx : (x < 0)%Q).
    { unfold x. assert (inject_Z m < inject_Z 0)%Q by (rewrite <- Zlt_Qlt; lia).
      change (inject_Z 0) with 0%Q in *.
      set (p := pow2 e) in *. set (q := inject_Z m) in *. clearbody p q. nra. }
    rewrite (round_neg x Hx).
    rewrite (roundPos_fix (- x) (- m) e); [lra | lra | | lia | lia].
    unfold x. rewrite inject_Z_opp. ring.
  - subst m. assert (Zx : (x == 0)%Q) by (unfold x; ring).
    rewrite (round_zero x Zx). lra.
  - assert (Hx : (0 < x)%Q).
    { unfold x. assert (inject_Z 0 < inject_Z m)%Q by (rewrite <- Zlt_Qlt; lia).
      change (inject_Z 0) with 0%Q in *.
      apply Qmult_lt_0_compat; assumption. }
    rewrite (round_pos x Hx). apply (roundPos_fix x m e); [exact Hx | reflexivity | lia | lia].
Qed.

Lemma isDouble_Z (z : Z) : Z.abs z < 2 ^ 53 -> isDouble (inject_Z z).
Proof.
  intros H. pose proof (isDouble_scaled z 0 H ltac:(lia)) as D.
  unfold isDouble in *. change (pow2 0) with 1%Q in D.
  rewrite <- (round_comp (inject_Z z * 1) (inject_Z z)) by ring.
  rewrite D. ring.
Qed.

(** What rounding gives is a multiple of the last place. *)
Lemma roundPos_grid (x : Q) :
  (0 < x)%Q ->
  exists m, (roundPos x == inject_Z m * pow2 (ulpExp x))%Q /\ 0 <= m <= 2 ^ 53.
Proof.
  intros H. exists (rne (x / pow2 (ulpExp x))). split; [reflexivity |].
  pose proof (pow2_pos (ulpExp x)) as U. split.
  - apply rne_ge. change (inject_Z 0) with 0%Q. apply Qle_shift_div_l; [exact U | lra].
  - apply rne_le. apply Qle_shift_div_r; [exact U |].
    destruct (ilog2_spec x H) as [_ Ux].
    rewrite <- pow2_Z by lia. rewrite <- pow2_add.
    assert (ilog2 x + 1 <= 53 + ulpExp x) by (unfold ulpExp; lia).
    pose proof (pow2_le _ _ H0). lra.
Qed.

Theorem round_isDouble (x : Q) : isDouble (round x).
Proof.
  assert (G : forall z, (0 < z)%Q -> isDouble (roundPos z)).
  { intros z Hz. destruct (roundPos_grid z Hz) as (m & E & M0 & M1).
    unfold isDouble. rewrite (round_comp _ _ E).
    assert (Ue : -1074 <= ulpExp z) by (unfold ulpExp; lia).
    destruct (Z.eq_dec m (2 ^ 53)) as [Em | Nm].
    - assert (E2 : (inject_Z m * pow2 (ulpExp z)
                   == inject_Z 1 * pow2 (53 + ulpExp z))%Q).
      { rewrite Em, <- pow2_Z by lia. rewrite <- pow2_add.
        change (inject_Z 1) with 1%Q. ring. }
      rewrite (round_comp _ _ E2).
      pose proof (isDouble_scaled 1 (53 + ulpExp z) ltac:(reflexivity) ltac:(lia)) as D.
      unfold isDouble in D. rewrite D, E, E2. reflexivity.
    - pose proof (isDouble_scaled m (ulpExp z) ltac:(lia) ltac:(lia)) as D.
      unfold isDouble in D. rewrite D, E. reflexivity. }
  destruct (Q_dec x 0) as [[N | P] | Z].
  - rewrite (round_neg x N). unfold isDouble.
    pose proof (G (- x)%Q ltac:(lra)) as D. unfold isDouble in D.
    rewrite round_opp, D. reflexivity.
  - rewrite (round_pos x P). apply G, P.
  - rewrite (round_zero x Z). reflexivity.
Qed.

(** Rounding does not cross a binary64 number. *)
Lemma round_le (x c : Q) : isDouble c -> (x <= c)%Q -> (round x <= c)%Q.
Proof. intros D L. unfold isDouble in D. rewrite <- D. apply round_mono, L. Qed.

Lemma round_ge (x c : Q) : isDouble c -> (c <= x)%Q -> (c <= round x)%Q.
Proof. intros D L. unfold isDouble in D. rewrite <- D. apply round_mono, L. Qed.

(** A binary64 number of size [2 ^ k] or more is a multiple of
    [2 ^ (k - 52)]. *)
Lemma isDouble_multiple (x : Q) (k : Z) :
  isDouble x -> (pow2 k <= x)%Q ->
  exists n, (x == inject_Z n * pow2 (k - 52))%Q.
Proof.
  intros D L. pose proof (pow2_pos k) as Pk.
  assert (Hx : (0 < x)%Q) by lra.
  unfold isDouble in D. rewrite (round_pos x Hx) in D.
  destruct (roundPos_grid x Hx) as (m & E & _).
  pose proof (ulpExp_ge x k L) as G.
  exists (m * 2 ^ (ulpExp x - (k - 52))).
  apply Qeq_trans with (roundPos x); [symmetry; exact D |].
  apply Qeq_trans with (inject_Z m * pow2 (ulpExp x))%Q; [exact E |].
  rewrite inject_Z_mult, <- pow2_Z by lia.
  rewrite <- Qmult_assoc, <- pow2_add.
  replace (ulpExp x - (k - 52) + (k - 52)) with (ulpExp x) by lia. reflexivity.
Qed.

(** ** [normalize] in binary64 *)

Ltac double_const := unfold isDouble; vm_compute; reflexivity.

Lemma isDouble_360 : isDouble 360.
Proof. double_const. Qed.

Lemma below_360 (x : Q) :
  isDouble x -> (x < 360)%Q -> (x <= 360 - pow2 (-44))%Q.
Proof.
  intros D L.
  assert (P : (pow2 (-44) * inject_Z (2 ^ 44) == 1)%Q) by reflexivity.
  assert (P8 : (pow2 8 == 256)%Q) by reflexivity.
  pose proof (pow2_pos (-44)) as Pp.
  destruct (Qlt_le_dec x 256) as [S | B].
  - assert (pow2 (-44) <= 1)%Q by (vm_compute; discriminate). lra.
  - destruct (isDouble_multiple x 8 D ltac:(lra)) as [n E].
    change (8 - 52) with (-44) in E.
    assert (N : n < 360 * 2 ^ 44).
    { rewrite Zlt_Qlt, inject_Z_mult.
      set (p := pow2 (-44)) in *. set (t := inject_Z (2 ^ 44)) in *.
      set (m := inject_Z n) in *. change (inject_Z 360) with 360%Q.
      clearbody p t m. 
      assert (0 < t)%Q by nra. nra. }
    assert (N' : (inject_Z n <= inject_Z (360 * 2 ^ 44 - 1))%Q) by (rewrite <- Zle_Qle; lia).
    unfold Z.sub in N'. rewrite inject_Z_plus, inject_Z_mult in N'.
    change (inject_Z 360) with 360%Q in N'. change (inject_Z (- (1))) with (-1)%Q in N'.
    set (p := pow2 (-44)) in *. set (t := inject_Z (2 ^ 44)) in *.
    set (m := inject_Z n) in *. clearbody p t m. nra.
Qed.

(** [normalize] stays within the closed interval. *)
Lemma normalize_closed (d : Q) :
  (0 <= Double.normalize d)%Q /\ (Double.normalize d <= 360)%Q.
Proof.
  unfold Double.normalize. cbv zeta.
  destruct (JS.ltb (JS.rem d 360) 0) eqn:E.
  - apply ltb_lt in E.
    assert (Hd : (d <= 0)%Q).
    { apply Qnot_lt_le. intros P.
      destruct (rem_nonneg d 360 ltac:(reflexivity) ltac:(lra)). lra. }
    destruct (rem_nonpos d 360 ltac:(reflexivity) Hd) as [R1 R2].
    unfold Double.add. split.
    + apply round_nonneg. lra.
    + apply round_le; [exact isDouble_360 | lra].
  - apply ltb_ge in E.
    destruct (Qlt_le_dec d 0) as [N | P].
    + destruct (rem_nonpos d 360 ltac:(reflexivity) ltac:(lra)). lra.
    + destruct (rem_nonneg d 360 ltac:(reflexivity) P). lra.
Qed.

(** C8: at the binary64 number -2^-60 the remainder is -2^-60 and
    the sum with 360 rounds to 360: [normalize] returns 360, which is
    not in [0, 360), where the claim's formula gives 0.  It happens
    in [calculatePositions] when a tropical longitude lies just under
    the ayanamsa: with the Moon at 24 - 2^-48 and the ayanamsa 24,
    Chandra is placed at 360, beyond the twelve signs. *)
Theorem normalize_returns_360 :
  let d := (- pow2 (-60))%Q in
  isDouble d
  /\ (Double.normalize d == 360)%Q
  /\ ~ (Double.normalize d < 360)%Q
  /\ (Double.normalize_spec d == 0)%Q
  /\ let ps :=
       Double.calculatePositions (fun _ _ => (24 - pow2 (-48))%Q) (fun _ => 0%Q)
         (fun _ _ _ => 0%Q) 0 0 0 24 in
     exists moon,
       ps !! 1%nat = Some moon /\ name moon = "Chandra"
       /\ (longitude moon == 360)%Q /\ sign moon = None /\ signId moon = 13.
Proof.
  cbv zeta. split; [double_const |].
  assert (E : (Double.normalize (- pow2 (-60)) == 360)%Q) by (vm_compute; reflexivity).
  split; [exact E |]. split; [rewrite E; apply Qlt_irrefl |].
  split; [vm_compute; reflexivity |].
  eexists. split; [reflexivity |].
  repeat split; vm_compute; reflexivity.
Qed.

(** ** Houses *)

Lemma isDouble_m15 : isDouble (-15).
Proof. double_const. Qed.
Lemma isDouble_345 : isDouble 345.
Proof. double_const. Qed.
Lemma isDouble_m345 : isDouble (-345).
Proof. double_const. Qed.
Lemma isDouble_375 : isDouble 375.
Proof. double_const. Qed.

(** The adjusted longitude before the division, for a longitude and
    an ascendant in [0, 360]. *)
Lemma adjusted_range (lon ascLon : Q) :
  (0 <= lon)%Q -> (lon <= 360)%Q -> (0 <= ascLon)%Q -> (ascLon <= 360)%Q ->
  let adj0 := Double.sub lon (Double.sub ascLon 15) in
  let adj1 := if JS.ltb adj0 0 then Double.add adj0 360 else adj0 in
  (0 <= JS.rem adj1 360)%Q /\ (JS.rem adj1 360 <= 360 - pow2 (-44))%Q.
Proof.
  intros L0 L1 A0 A1. cbv zeta. unfold Double.sub, Double.add.
  assert (S1 : (-15 <= round (ascLon - 15))%Q) by (apply round_ge; [exact isDouble_m15 | lra]).
  assert (S2 : (round (ascLon - 15) <= 345)%Q) by (apply round_le; [exact isDouble_345 | lra]).
  set (s := round (ascLon - 15)) in *.
  assert (J1 : (-345 <= round (lon - s))%Q) by (apply round_ge; [exact isDouble_m345 | lra]).
  assert (J2 : (round (lon - s) <= 375)%Q) by (apply round_le; [exact isDouble_375 | lra]).
  pose proof (round_isDouble (lon - s)) as Dj.
  set (adj0 := round (lon - s)) in *. clearbody adj0. clearbody s.
  assert (P44 : (pow2 (-44) <= 1)%Q) by (vm_compute; discriminate).
  pose proof (pow2_pos (-44)) as Pp.
  assert (G : forall a, isDouble a -> (0 <= a)%Q -> (a <= 375)%Q ->
              (0 <= JS.rem a 360)%Q /\ (JS.rem a 360 <= 360 - pow2 (-44))%Q).
  { intros a Da a0 a1. destruct (Qlt_le_dec a 360) as [S | B].
    - rewrite (rem_small a 360 ltac:(reflexivity) a0 S).
      split; [exact a0 | apply below_360; assumption].
    - rewrite (rem_shift a 360 ltac:(reflexivity) B ltac:(lra)). split; lra. }
  destruct (JS.ltb adj0 0) eqn:E.
  - apply ltb_lt in E. apply G.
    + apply round_isDouble.
    + apply round_nonneg. lra.
    + apply Qle_trans with 360%Q; [| lra]. apply round_le; [exact isDouble_360 | lra].
  - apply ltb_ge in E. apply G; assumption.
Qed.

Lemma quotient_below_12 : (round ((360 - pow2 (-44)) / 30) < 12)%Q.
Proof. vm_compute. reflexivity. Qed.

Lemma houseOf_in_range (lon ascLon : Q) :
  (0 <= lon)%Q -> (lon <= 360)%Q -> (0 <= ascLon)%Q -> (ascLon <= 360)%Q ->
  1 <= Double.houseOf lon ascLon <= 12.
Proof.
  intros L0 L1 A0 A1.
  destruct (adjusted_range lon ascLon L0 L1 A0 A1) as [R0 R1]. cbv zeta in R0, R1.
  unfold Double.houseOf. cbv zeta.
  set (r := JS.rem _ 360) in *. clearbody r. unfold Double.div.
  assert (Q0 : (0 <= round (r / 30))%Q).
  { apply round_nonneg. apply Qle_shift_div_l; [reflexivity | lra]. }
  assert (Q1 : (round (r / 30) < 12)%Q).
  { apply Qle_lt_trans with (round ((360 - pow2 (-44)) / 30)); [| exact quotient_below_12].
    apply round_mono. apply Qmult_le_compat_r; [exact R1 | discriminate]. }
  destruct (floor_spec (round (r / 30))) as [F0 F1].
  set (f := JS.floor (round (r / 30))) in *. clearbody f.
  assert (inject_Z (-1) < inject_Z f)%Q by (change (inject_Z (-1)) with (-1)%Q; lra).
  assert (inject_Z f < inject_Z 12)%Q by (change (inject_Z 12) with 12%Q; lra).
  rewrite <- Zlt_Qlt in *. lia.
Qed.

Lemma round_near (x : Q) (k : Z) :
  (- pow2 (k + 1) < x)%Q -> (x < pow2 (k + 1))%Q -> -1074 <= k - 52 ->
  (x - pow2 (k - 53) <= round x)%Q /\ (round x <= x + pow2 (k - 53))%Q.
Proof.
  intros L U K.
  assert (B : (Qabs x < pow2 (k + 1))%Q) by (apply Qabs_Qlt_condition; split; assumption).
  pose proof (round_error x k B K) as E.
  apply Qabs_Qle_condition in E. split; lra.
Qed.

(** Away from the cusps by 2^-40 of a degree the house is the one of
    the exact adjusted longitude. *)
Lemma houseOf_band (lon ascLon : Q) (k : Z) :
  (0 <= lon)%Q -> (lon <= 360)%Q -> (0 <= ascLon)%Q -> (ascLon <= 360)%Q ->
  (30 * inject_Z k + pow2 (-40) <= normalize (lon - (ascLon - 15)))%Q ->
  (normalize (lon - (ascLon - 15)) <= 30 * inject_Z k + 30 - pow2 (-40))%Q ->
  Double.houseOf lon ascLon = k + 1.
Proof.
  intros L0 L1 A0 A1 B0 B1.
  destruct (normalize_range (lon - (ascLon - 15))) as [N0 N1].
  destruct (normalize_turns (lon - (ascLon - 15))) as [n En].
  set (a := normalize (lon - (ascLon - 15))) in *. clearbody a.
  assert (E40 : (pow2 (-45) * 32 == pow2 (-40))%Q) by reflexivity.
  assert (E50 : (pow2 (-50) * 1024 == pow2 (-40))%Q) by reflexivity.
  assert (S40 : (pow2 (-40) <= 1 # 1000)%Q) by (vm_compute; discriminate).
  pose proof (pow2_pos (-40)) as P40.
  (* the band is one of the twelve *)
  assert (K : 0 <= k <= 11).
  { assert (inject_Z (-1) < inject_Z k)%Q by (change (inject_Z (-1)) with (-1)%Q; lra).
    assert (inject_Z k < inject_Z 12)%Q by (change (inject_Z 12) with 12%Q; lra).
    rewrite <- Zlt_Qlt in *. lia. }
  assert (Kq0 : (0 <= inject_Z k)%Q) by (change 0%Q with (inject_Z 0); rewrite <- Zle_Qle; lia).
  assert (Kq1 : (inject_Z k <= 11)%Q) by (change 11%Q with (inject_Z 11); rewrite <- Zle_Qle; lia).
  (* the turns taken off by the exact normalisation *)
  assert (Hn : n = -1 \/ n = 0 \/ n = 1).
  { assert (inject_Z (-2) < inject_Z n)%Q by (change (inject_Z (-2)) with (-2)%Q; lra).
    assert (inject_Z n < inject_Z 2)%Q by (change (inject_Z 2) with 2%Q; lra).
    rewrite <- Zlt_Qlt in *. lia. }
  unfold Double.houseOf. cbv zeta. unfold Double.sub, Double.add, Double.div.
  destruct (round_near (ascLon - 15) 8) as [s0 s1];
    [change (pow2 (8 + 1)) with 512%Q; lra | change (pow2 (8 + 1)) with 512%Q; lra | lia |].
  change (8 - 53) with (-45) in s0, s1.
  set (s := round (ascLon - 15)) in *. clearbody s.
  destruct (round_near (lon - s) 8) as [j0 j1];
    [change (pow2 (8 + 1)) with 512%Q; lra | change (pow2 (8 + 1)) with 512%Q; lra | lia |].
  change (8 - 53) with (-45) in j0, j1.
  set (adj0 := round (lon - s)) in *. clearbody adj0.
  (* the remainder is near the exact adjusted longitude *)
  assert (R : exists r, (r == JS.rem (if JS.ltb adj0 0 then round (adj0 + 360) else adj0) 360)%Q
                        /\ (a - pow2 (-45) * 3 <= r)%Q /\ (r <= a + pow2 (-45) * 3)%Q).
  { destruct Hn as [-> | [-> | ->]].
    - change (inject_Z (-1)) with (-1)%Q in En.
      assert (E : JS.ltb adj0 0 = true) by (apply ltb_lt; lra). rewrite E.
      destruct (round_near (adj0 + 360) 8) as [t0 t1];
        [change (pow2 (8 + 1)) with 512%Q; lra | change (pow2 (8 + 1)) with 512%Q; lra | lia |].
      change (8 - 53) with (-45) in t0, t1.
      set (adj1 := round (adj0 + 360)) in *. clearbody adj1.
      exists adj1. split; [| split; lra].
      symmetry. apply rem_small; [reflexivity | lra | lra].
    - change (inject_Z 0) with 0%Q in En.
      assert (E : JS.ltb adj0 0 = false) by (apply ltb_ge; lra). rewrite E.
      exists adj0. split; [| split; lra].
      symmetry. apply rem_small; [reflexivity | lra | lra].
    - change (inject_Z 1) with 1%Q in En.
      assert (E : JS.ltb adj0 0 = false) by (apply ltb_ge; lra). rewrite E.
      exists (adj0 - 360)%Q. split; [| split; lra].
      symmetry. apply rem_shift; [reflexivity | lra | lra]. }
  destruct R as (r & Er & r0 & r1).
  assert (Eq : (round (JS.rem (if JS.ltb adj0 0 then round (adj0 + 360) else adj0) 360 / 30)
                == round (r / 30))%Q).
  { apply round_comp. unfold Qdiv. apply Qmult_comp; [symmetry; exact Er | reflexivity]. }
  rewrite (floor_comp _ _ Eq). f_equal.
  assert (Eq0 : (r == 30 * (r / 30))%Q) by field.
  set (q0 := (r / 30)%Q) in *. clearbody q0.
  destruct (round_near q0 3) as [q1 q2];
    [change (pow2 (3 + 1)) with 16%Q; lra | change (pow2 (3 + 1)) with 16%Q; lra | lia |].
  change (3 - 53) with (-50) in q1, q2.
  assert (G : (inject_Z k <= round q0)%Q).
  { apply round_ge; [apply isDouble_Z; lia | lra]. }
  apply floor_unique; lra.
Qed.

(** Every house is taken by a whole number of degrees. *)
Lemma houseOf_attained (ascLon : Q) (k : Z) :
  (0 <= ascLon)%Q -> (ascLon < 360)%Q -> 0 <= k < 12 ->
  exists lon', isDouble lon' /\ (0 <= lon')%Q /\ (lon' < 360)%Q
               /\ Double.houseOf lon' ascLon = k + 1.
Proof.
  intros A0 A1 K.
  destruct (normalize_range (ascLon + 30 * inject_Z k)) as [C0 C1].
  destruct (normalize_turns (ascLon + 30 * inject_Z k)) as [j Ej].
  set (c := normalize (ascLon + 30 * inject_Z k)) in *. clearbody c.
  destruct (floor_spec c) as [F0 F1].
  assert (Fr : 0 <= JS.floor c < 360).
  { assert (inject_Z (-1) < inject_Z (JS.floor c))%Q by (change (inject_Z (-1)) with (-1)%Q; lra).
    assert (inject_Z (JS.floor c) < inject_Z 360)%Q by (change (inject_Z 360) with 360%Q; lra).
    rewrite <- Zlt_Qlt in *. lia. }
  assert (Fq0 : (0 <= inject_Z (JS.floor c))%Q)
    by (change 0%Q with (inject_Z 0); rewrite <- Zle_Qle; lia).
  assert (Fq1 : (inject_Z (JS.floor c) <= 359)%Q)
    by (change 359%Q with (inject_Z 359); rewrite <- Zle_Qle; lia).
  assert (Kq0 : (0 <= inject_Z k)%Q) by (change 0%Q with (inject_Z 0); rewrite <- Zle_Qle; lia).
  assert (Kq1 : (inject_Z k <= 11)%Q) by (change 11%Q with (inject_Z 11); rewrite <- Zle_Qle; lia).
  exists (inject_Z (JS.floor c)).
  split; [apply isDouble_Z; change (2 ^ 53) with 9007199254740992; lia |].
  split; [lra | split; [lra |]].
  assert (S40 : (pow2 (-40) <= 1)%Q) by (vm_compute; discriminate).
  pose proof (pow2_pos (-40)) as P40.
  set (f := inject_Z (JS.floor c)) in *. clearbody f.
  assert (En : (normalize (f - (ascLon - 15))
                == 30 * inject_Z k + 15 - (c - f))%Q).
  { apply (normalize_unique _ _ (- j)); [lra | lra |].
    rewrite inject_Z_opp. lra. }
  apply houseOf_band; lra.
Qed.

(** C5 (amended), the house as the code computes it in binary64,
    with the remainder by 360 of line 425: for a longitude and an
    ascendant in [0, 360) the house is in 1..12; it is the house
    [k + 1] of the band [30 k, 30 k + 30) that holds the exact
    adjusted longitude whenever that longitude is 2^-40 of a degree
    or more from both ends of the band; and every house is taken,
    whatever the ascendant. *)
Theorem house_cyclic_total (lon ascLon : Q) :
  (0 <= lon)%Q -> (lon < 360)%Q -> (0 <= ascLon)%Q -> (ascLon < 360)%Q ->
  1 <= Double.houseOf lon ascLon <= 12
  /\ (forall k : Z,
        (30 * inject_Z k + pow2 (-40)
         <= normalize (lon - (ascLon - 15)))%Q ->
        (normalize (lon - (ascLon - 15))
         <= 30 * inject_Z k + 30 - pow2 (-40))%Q ->
        Double.houseOf lon ascLon = k + 1)
  /\ (forall k : Z, 0 <= k < 12 ->
        exists lon' : Q,
          isDouble lon' /\ (0 <= lon')%Q /\ (lon' < 360)%Q
          /\ Double.houseOf lon' ascLon = k + 1).
Proof.
  intros L0 L1 A0 A1.
  split; [apply houseOf_in_range; lra |].
  split.
  - intros k B0 B1. apply houseOf_band; [lra | lra | lra | lra | exact B0 | exact B1].
  - intros k K. apply houseOf_attained; assumption.
Qed.

Lemma house_cyclic_total_witness :
  (0 <= 45)%Q /\ (45 < 360)%Q /\ (0 <= 100)%Q /\ (100 < 360)%Q /\
  (1 <= Double.houseOf 45 100 <= 12
   /\ (forall k : Z,
         (30 * inject_Z k + pow2 (-40)
          <= normalize (45 - (100 - 15)))%Q ->
         (normalize (45 - (100 - 15))
          <= 30 * inject_Z k + 30 - pow2 (-40))%Q ->
         Double.houseOf 45 100 = k + 1)
   /\ (forall k : Z, 0 <= k < 12 ->
         exists lon' : Q,
           isDouble lon' /\ (0 <= lon')%Q /\ (lon' < 360)%Q
           /\ Double.houseOf lon' 100 = k + 1)).
Proof.
  assert (H1 : (0 <= 45)%Q) by (unfold Qle; simpl; lia).
  assert (H2 : (45 < 360)%Q) by (unfold Qlt; simpl; lia).
  assert (H3 : (0 <= 100)%Q) by (unfold Qle; simpl; lia).
  assert (H4 : (100 < 360)%Q) by (unfold Qlt; simpl; lia).
  split; [exact H1 | split; [exact H2 | split; [exact H3 | split; [exact H4 |]]]].
  exact (house_cyclic_total 45 100 H1 H2 H3 H4).
Defined.

(** C5, as the claim states it, fails for the longitude 15 and the
    ascendant 30.000000000000004 (30 + 2^-48): the adjusted longitude
    is -2^-48, the sum with 360 rounds to 360, and the claim's
    formula gives house 13; the code takes the remainder by 360 once
    more and gives house 1, where exact arithmetic gives 12. *)
Lemma house_formula_fails_at_cusp :
  let asc := (30 + pow2 (-48))%Q in
  isDouble 15 /\ isDouble asc /\ (0 <= asc)%Q /\ (asc < 360)%Q
  /\ Double.houseOf_spec 15 asc = 13
  /\ ~ (1 <= Double.houseOf_spec 15 asc <= 12)
  /\ Double.houseOf 15 asc = 1
  /\ houseOf 15 asc = 12.
Proof.
  cbv zeta. split; [double_const |]. split; [double_const |].
  split; [vm_compute; discriminate |]. split; [vm_compute; reflexivity |].
  assert (E : Double.houseOf_spec 15 (30 + pow2 (-48)) = 13) by (vm_compute; reflexivity).
  split; [exact E |]. split; [rewrite E; lia |].
  split; vm_compute; reflexivity.
Qed.

(** ** The hourly difference *)

(** Every binary64 number is a multiple of 2^-1074. *)
Lemma isDouble_step (x : Q) :
  isDouble x -> exists m, (x == inject_Z m * pow2 (-1074))%Q.
Proof.
  assert (G : forall z, (0 < z)%Q -> isDouble z ->
              exists m, (z == inject_Z m * pow2 (-1074))%Q).
  { intros z Hz D. unfold isDouble in D. rewrite (round_pos z Hz) in D.
    destruct (roundPos_grid z Hz) as (m & E & _).
    assert (U : -1074 <= ulpExp z) by (unfold ulpExp; lia).
    exists (m * 2 ^ (ulpExp z + 1074)).
    apply Qeq_trans with (roundPos z); [symmetry; exact D |].
    apply Qeq_trans with (inject_Z m * pow2 (ulpExp z))%Q; [exact E |].
    rewrite inject_Z_mult, <- pow2_Z by lia.
    rewrite <- Qmult_assoc, <- pow2_add.
    replace (ulpExp z + 1074 + -1074) with (ulpExp z) by lia. reflexivity. }
  intros D. destruct (Q_dec x 0) as [[N | P] | Z].
  - assert (D' : isDouble (- x)).
    { unfold isDouble in *. rewrite round_opp, D. reflexivity. }
    destruct (G (- x)%Q ltac:(lra) D') as [m E].
    exists (- m). rewrite inject_Z_opp.
    set (p := pow2 (-1074)) in *. set (q := inject_Z m) in *. clearbody p q. lra.
  - apply G; assumption.
  - exists 0. rewrite Z. change (inject_Z 0) with 0%Q. ring.
Qed.

(** Two binary64 numbers that differ, differ by 2^-1074 at least. *)
Lemma isDouble_apart (x y : Q) :
  isDouble x -> isDouble y -> (x < y)%Q -> (x - y <= - pow2 (-1074))%Q.
Proof.
  intros Dx Dy L.
  destruct (isDouble_step x Dx) as [m Em].
  destruct (isDouble_step y Dy) as [n En].
  pose proof (pow2_pos (-1074)) as P.
  set (p := pow2 (-1074)) in *. clearbody p.
  assert (H : m < n).
  { rewrite Zlt_Qlt. set (a := inject_Z m) in *. set (b := inject_Z n) in *.
    clearbody a b. nra. }
  assert (H' : (inject_Z (m + 1) <= inject_Z n)%Q) by (rewrite <- Zle_Qle; lia).
  rewrite inject_Z_plus in H'. change (inject_Z 1) with 1%Q in H'.
  set (a := inject_Z m) in *. set (b := inject_Z n) in *. clearbody a b. nra.
Qed.

(** The sign of a difference of binary64 numbers survives rounding. *)
Lemma sub_negative (x y : Q) :
  isDouble x -> isDouble y -> (x < y)%Q -> (round (x - y) < 0)%Q.
Proof.
  intros Dx Dy L. pose proof (isDouble_apart x y Dx Dy L) as A.
  pose proof (pow2_pos (-1074)) as P.
  assert (D : isDouble (- pow2 (-1074))) by double_const.
  pose proof (round_le (x - y) _ D A). lra.
Qed.

(** The claim's adjusted difference, case by case. *)
Lemma wrapped_cases (cur prev : Q) :
  (0 <= cur)%Q -> (cur < 360)%Q -> (0 <= prev)%Q -> (prev < 360)%Q ->
  let w := spec_wrappedDiff cur prev in
  ((cur - prev <= -180)%Q /\ (w == cur - prev + 360)%Q)
  \/ ((-180 < cur - prev)%Q /\ (cur - prev <= 180)%Q /\ (w == cur - prev)%Q)
  \/ ((180 < cur - prev)%Q /\ (w == cur - prev - 360)%Q).
Proof.
  intros C0 C1 P0 P1 w.
  destruct (hourlyDiff_range cur prev C0 C1 P0 P1) as (_ & _ & A & B).
  fold w in A, B.
  destruct (Q_dec (cur - prev) (-180)) as [[L | G] | E].
  - left. split; [lra |]. rewrite <- (A ltac:(lra)). unfold hourlyDiff. cbv zeta.
    assert (E1 : JS.ltb (cur - prev) (-180) = true) by (apply ltb_lt; lra). rewrite E1.
    assert (E2 : JS.ltb 180 (cur - prev + 360) = false) by (apply ltb_ge; lra). rewrite E2.
    reflexivity.
  - destruct (Qlt_le_dec 180 (cur - prev)) as [H | H].
    + right. right. split; [exact H |]. rewrite <- (A ltac:(lra)). unfold hourlyDiff. cbv zeta.
      assert (E1 : JS.ltb (cur - prev) (-180) = false) by (apply ltb_ge; lra). rewrite E1.
      assert (E2 : JS.ltb 180 (cur - prev) = true) by (apply ltb_lt; lra). rewrite E2.
      reflexivity.
    + right. left. split; [lra | split; [exact H |]]. rewrite <- (A ltac:(lra)).
      unfold hourlyDiff. cbv zeta.
      assert (E1 : JS.ltb (cur - prev) (-180) = false) by (apply ltb_ge; lra). rewrite E1.
      assert (E2 : JS.ltb 180 (cur - prev) = false) by (apply ltb_ge; lra). rewrite E2.
      reflexivity.
  - left. destruct (B E) as [_ B2]. split; lra.
Qed.

Lemma isDouble_179 : isDouble 179.
Proof. double_const. Qed.
Lemma isDouble_m179 : isDouble (-179).
Proof. double_const. Qed.
Lemma isDouble_181 : isDouble 181.
Proof. double_const. Qed.
Lemma isDouble_m181 : isDouble (-181).
Proof. double_const. Qed.
Lemma isDouble_near_360 : isDouble (360 - pow2 (-44)).
Proof. double_const. Qed.
Lemma isDouble_near_m360 : isDouble (- (360 - pow2 (-44))).
Proof. double_const. Qed.
Lemma isDouble_p44 : isDouble (pow2 (-44)).
Proof. double_const. Qed.
Lemma isDouble_mp44 : isDouble (- pow2 (-44)).
Proof. double_const. Qed.

(** For binary64 longitudes that lie less than half a turn apart by
    a degree, the difference the code tests lies in (-180, 180] and
    has the sign of the claim's adjusted difference. *)
Lemma hourlyDiff_sign (cur prev : Q) :
  isDouble cur -> isDouble prev ->
  (0 <= cur)%Q -> (cur < 360)%Q -> (0 <= prev)%Q -> (prev < 360)%Q ->
  (-179 <= spec_wrappedDiff cur prev)%Q -> (spec_wrappedDiff cur prev <= 179)%Q ->
  (-180 < Double.hourlyDiff cur prev)%Q /\ (Double.hourlyDiff cur prev <= 180)%Q
  /\ ((Double.hourlyDiff cur prev < 0)%Q <-> (spec_wrappedDiff cur prev < 0)%Q).
Proof.
  intros Dc Dp C0 C1 P0 P1 W0 W1.
  pose proof (below_360 cur Dc C1) as Cb. pose proof (below_360 prev Dp P1) as Pb.
  pose proof (pow2_pos (-44)) as P44.
  assert (S44 : (pow2 (-44) <= 1)%Q) by (vm_compute; discriminate).
  destruct (wrapped_cases cur prev C0 C1 P0 P1) as [[H E] | [(H1 & H2 & E) | [H E]]];
    cbv zeta in E; set (w := spec_wrappedDiff cur prev) in *; clearbody w;
    unfold Double.hourlyDiff; cbv zeta; unfold Double.sub, Double.add.
  - (* a turn is added *)
    assert (A1 : (round (cur - prev) <= -181)%Q) by (apply round_le; [exact isDouble_m181 | lra]).
    assert (A2 : (- (360 - pow2 (-44)) <= round (cur - prev))%Q)
      by (apply round_ge; [exact isDouble_near_m360 | lra]).
    set (d := round (cur - prev)) in *. clearbody d.
    assert (E1 : JS.ltb d (-180) = true) by (apply ltb_lt; lra). rewrite E1.
    assert (B1 : (pow2 (-44) <= round (d + 360))%Q) by (apply round_ge; [exact isDouble_p44 | lra]).
    assert (B2 : (round (d + 360) <= 179)%Q) by (apply round_le; [exact isDouble_179 | lra]).
    set (d' := round (d + 360)) in *. clearbody d'.
    assert (E2 : JS.ltb 180 d' = false) by (apply ltb_ge; lra). rewrite E2.
    split; [lra | split; [lra |]]. split; intros; lra.
  - (* no turn *)
    assert (A1 : (-179 <= round (cur - prev))%Q) by (apply round_ge; [exact isDouble_m179 | lra]).
    assert (A2 : (round (cur - prev) <= 179)%Q) by (apply round_le; [exact isDouble_179 | lra]).
    assert (A3 : (w < 0)%Q -> (round (cur - prev) < 0)%Q).
    { intros N. apply sub_negative; [exact Dc | exact Dp | lra]. }
    assert (A4 : (0 <= w)%Q -> (0 <= round (cur - prev))%Q).
    { intros N. apply round_nonneg. lra. }
    set (d := round (cur - prev)) in *. clearbody d.
    assert (E1 : JS.ltb d (-180) = false) by (apply ltb_ge; lra). rewrite E1.
    assert (E2 : JS.ltb 180 d = false) by (apply ltb_ge; lra). rewrite E2.
    split; [lra | split; [lra |]]. split; intros N.
    + destruct (Qlt_le_dec w 0) as [L | G]; [exact L |]. specialize (A4 G). lra.
    + apply A3, N.
  - (* a turn is taken off *)
    assert (A1 : (181 <= round (cur - prev))%Q) by (apply round_ge; [exact isDouble_181 | lra]).
    assert (A2 : (round (cur - prev) <= 360 - pow2 (-44))%Q)
      by (apply round_le; [exact isDouble_near_360 | lra]).
    set (d := round (cur - prev)) in *. clearbody d.
    assert (E1 : JS.ltb d (-180) = false) by (apply ltb_ge; lra). rewrite E1.
    assert (E2 : JS.ltb 180 d = true) by (apply ltb_lt; lra). rewrite E2.
    assert (B1 : (round (d - 360) <= - pow2 (-44))%Q) by (apply round_le; [exact isDouble_mp44 | lra]).
    assert (B2 : (-179 <= round (d - 360))%Q) by (apply round_ge; [exact isDouble_m179 | lra]).
    set (d' := round (d - 360)) in *. clearbody d'.
    split; [lra | split; [lra |]]. split; intros; lra.
Qed.

(** C7: for longitudes that the ephemeris returns as binary64 numbers
    in [0, 360), the Sun, the Moon and the ascendant are never marked
    retrograde and Rahu and Ketu always are; each of the other five
    bodies is marked by the test [diff < 0] on the hourly difference
    after the two adjustments.  Whenever the body has moved by 179
    degrees or less in the hour, that difference lies in (-180, 180]
    and is negative exactly when the claim's adjusted difference is. *)
Theorem retrograde_classification (elon : string -> Z -> Q) (ut : Z -> Q)
    (ascDeg : Z -> Q -> Q -> Q) (date : Z) (lat lon ayanamsa : Q) :
  (forall body t,
     isDouble (elon body t) /\ (0 <= elon body t)%Q /\ (elon body t < 360)%Q) ->
  let diff body :=
    Double.hourlyDiff (elon body date) (elon body (date - 3600000)%Z) in
  let moved body :=
    spec_wrappedDiff (elon body date) (elon body (date - 3600000)%Z) in
  (fun p => (name p, isRetrograde p))
    <$> Double.calculatePositions elon ut ascDeg date lat lon ayanamsa
  = [ ("Surya", false); ("Chandra", false);
      ("Kuja", JS.ltb (diff "Mars") 0); ("Budha", JS.ltb (diff "Mercury") 0);
      ("Guru", JS.ltb (diff "Jupiter") 0); ("Shukra", JS.ltb (diff "Venus") 0);
      ("Shani", JS.ltb (diff "Saturn") 0);
      ("Rahu", true); ("Ketu", true); ("Lagna", false) ]
  /\ forall body,
       (-179 <= moved body)%Q -> (moved body <= 179)%Q ->
       (-180 < diff body)%Q /\ (diff body <= 180)%Q
       /\ (JS.ltb (diff body) 0 = true <-> (moved body < 0)%Q).
Proof.
  intros Hr diff moved. split; [reflexivity |].
  intros body M0 M1.
  destruct (Hr body date) as (Dc & C0 & C1).
  destruct (Hr body (date - 3600000)%Z) as (Dp & P0 & P1).
  destruct (hourlyDiff_sign _ _ Dc Dp C0 C1 P0 P1 M0 M1) as (A & B & C).
  split; [exact A | split; [exact B |]].
  rewrite ltb_lt. exact C.
Qed.

Lemma retrograde_classification_witness :
  let elon := fun (_ : string) (t : Z) => if t =? 0 then 10%Q else 11%Q in
  (forall body t,
     isDouble (elon body t) /\ (0 <= elon body t)%Q /\ (elon body t < 360)%Q)
  /\ let diff body :=
       Double.hourlyDiff (elon body 0%Z) (elon body (0 - 3600000)%Z) in
     let moved body :=
       spec_wrappedDiff (elon body 0%Z) (elon body (0 - 3600000)%Z) in
     (-179 <= moved "Mars")%Q /\ (moved "Mars" <= 179)%Q
     /\ (fun p => (name p, isRetrograde p))
          <$> Double.calculatePositions elon (fun _ => 0%Q) (fun _ _ _ => 0%Q)
                0 0 0 24
        = [ ("Surya", false); ("Chandra", false);
            ("Kuja", JS.ltb (diff "Mars") 0); ("Budha", JS.ltb (diff "Mercury") 0);
            ("Guru", JS.ltb (diff "Jupiter") 0); ("Shukra", JS.ltb (diff "Venus") 0);
            ("Shani", JS.ltb (diff "Saturn") 0);
            ("Rahu", true); ("Ketu", true); ("Lagna", false) ]
     /\ (-180 < diff "Mars")%Q /\ (diff "Mars" <= 180)%Q
     /\ (JS.ltb (diff "Mars") 0 = true <-> (moved "Mars" < 0)%Q).
Proof.
  intros elon.
  assert (Hr : forall body t,
             isDouble (elon body t) /\ (0 <= elon body t)%Q /\ (elon body t < 360)%Q).
  { intros body t. unfold elon.
    destruct (t =? 0); (split; [double_const |]);
      split; vm_compute; reflexivity || discriminate. }
  split; [exact Hr |].
  assert (M0 : (-179 <= spec_wrappedDiff (elon "Mars" 0%Z)
                          (elon "Mars" (0 - 3600000)%Z))%Q)
    by (vm_compute; discriminate).
  assert (M1 : (spec_wrappedDiff (elon "Mars" 0%Z)
                  (elon "Mars" (0 - 3600000)%Z) <= 179)%Q)
    by (vm_compute; discriminate).
  cbv zeta.
  split; [exact M0 | split; [exact M1 |]].
  destruct (retrograde_classification elon (fun _ => 0%Q) (fun _ _ _ => 0%Q)
              0 0 0 24 Hr) as [E F].
  split; [exact E |]. exact (F "Mars" M0 M1).
Defined.

(** ** The sub-period generators *)


Section SubLoops.
Variable tz : Z.


End SubLoops.

(** [addTime] lands within a millisecond and a half of the exact
    sum, for time values of the size a [Date] admits. *)
Lemma addTime_near (t : Z) (years : Q) :
  let x := Double.mul years Double.msPerYear in
  (Qabs (inject_Z t + x) < pow2 53)%Q ->
  (inject_Z t + x - (3 # 2) < inject_Z (Double.addTime t years))%Q
  /\ (inject_Z (Double.addTime t years) < inject_Z t + x + (3 # 2))%Q.
Proof.
  intros x B. unfold Double.addTime. cbv zeta. fold x. unfold Double.add.
  pose proof (round_error (inject_Z t + x) 52 B ltac:(lia)) as E.
  change (pow2 (52 - 53)) with (1 # 2)%Q in E.
  apply Qabs_Qle_condition in E.
  set (v := round (inject_Z t + x)) in *. clearbody v.
  destruct (Qlt_le_dec v 0) as [N | P].
  - destruct (trunc_spec_nonpos v ltac:(lra)). split; lra.
  - destruct (trunc_spec_nonneg v P). split; lra.
Qed.









Lemma isDouble_comp (x y : Q) : (x == y)%Q -> isDouble x -> isDouble y.
Proof.
  unfold isDouble. intros E D. rewrite <- E. exact D.
Qed.

Lemma isDouble_opp (x : Q) : isDouble x -> isDouble (- x).
Proof.
  unfold isDouble. intros D. rewrite round_opp, D. reflexivity.
Qed.

(** A multiple of 2^-44 below 360 in size is a binary64 number. *)
Lemma isDouble_fine (r : Q) (m : Z) :
  (r == inject_Z m * pow2 (-44))%Q -> (-360 < r)%Q -> (r < 360)%Q -> isDouble r.
Proof.
  intros E L U. apply (isDouble_comp (inject_Z m * pow2 (-44))); [symmetry; exact E |].
  apply isDouble_scaled; [| lia].
  assert (P : (pow2 (-44) * inject_Z (2 ^ 44) == 1)%Q) by reflexivity.
  pose proof (pow2_pos (-44)) as Pp.
  assert (B : - (360 * 2 ^ 44) < m < 360 * 2 ^ 44).
  { split.
    - rewrite Zlt_Qlt, inject_Z_opp, inject_Z_mult.
      change (inject_Z 360) with 360%Q.
      set (p := pow2 (-44)) in *. set (t := inject_Z (2 ^ 44)) in *.
      set (q := inject_Z m) in *. clearbody p t q.
      assert (0 < t)%Q by nra. nra.
    - rewrite Zlt_Qlt, inject_Z_mult.
      change (inject_Z 360) with 360%Q.
      set (p := pow2 (-44)) in *. set (t := inject_Z (2 ^ 44)) in *.
      set (q := inject_Z m) in *. clearbody p t q.
      assert (0 < t)%Q by nra. nra. }
  assert (360 * 2 ^ 44 < 2 ^ 53) by (vm_compute; reflexivity).
  lia.
Qed.

(** The remainder by 360 of a binary64 number is one: [%] is exact. *)
Lemma isDouble_rem360 (x : Q) : isDouble x -> isDouble (JS.rem x 360).
Proof.
  intros D.
  assert (P : (pow2 (-44) * inject_Z (2 ^ 44) == 1)%Q) by reflexivity.
  assert (P8 : (pow2 8 == 256)%Q) by reflexivity.
  assert (G : forall n : Z, (x == inject_Z n * pow2 (-44))%Q ->
              (JS.rem x 360
               == inject_Z (n - 360 * 2 ^ 44 * JS.trunc (x / 360)) * pow2 (-44))%Q).
  { intros n E. unfold JS.rem. unfold Z.sub.
    rewrite inject_Z_plus, inject_Z_opp, !inject_Z_mult.
    change (inject_Z 360) with 360%Q.
    set (p := pow2 (-44)) in *. set (t := inject_Z (2 ^ 44)) in *.
    set (q := inject_Z n) in *. set (k := inject_Z (JS.trunc (x / 360))).
    clearbody p t q k.
    assert (E2 : (360 * k == 360 * k * (p * t))%Q) by (rewrite P; ring).
    rewrite E, E2. ring. }
  destruct (Qlt_le_dec x 0) as [N | P0].
  - destruct (rem_nonpos x 360 ltac:(reflexivity) ltac:(lra)) as [R0 R1].
    destruct (Qlt_le_dec (-360) x) as [S | B].
    + apply (isDouble_comp x); [| exact D].
      symmetry. apply rem_small_neg; [reflexivity | exact S | lra].
    + destruct (isDouble_multiple (- x) 8 (isDouble_opp x D) ltac:(lra)) as [n E].
      change (8 - 52) with (-44) in E.
      assert (E' : (x == inject_Z (- n) * pow2 (-44))%Q).
      { rewrite inject_Z_opp. 
        set (p := pow2 (-44)) in *. set (q := inject_Z n) in *. clearbody p q. lra. }
      apply (isDouble_fine _ _ (G _ E')); lra.
  - destruct (rem_nonneg x 360 ltac:(reflexivity) P0) as [R0 R1].
    destruct (Qlt_le_dec x 360) as [S | B].
    + apply (isDouble_comp x); [| exact D].
      symmetry. apply rem_small; [reflexivity | exact P0 | exact S].
    + destruct (isDouble_multiple x 8 D ltac:(lra)) as [n E].
      change (8 - 52) with (-44) in E.
      apply (isDouble_fine _ _ (G _ E)); lra.
Qed.

Lemma normalize_isDouble (d : Q) : isDouble d -> isDouble (Double.normalize d).
Proof.
  intros D. unfold Double.normalize. cbv zeta.
  destruct (JS.ltb _ 0); [apply round_isDouble | apply isDouble_rem360, D].
Qed.

(** ** The mahadashas *)

Lemma years_checks : forallb yearsCheck NAKSHATRA_LORDS = true.
Proof. vm_compute. reflexivity. Qed.

Lemma full_period_length (lord : string) (y t : Z) :
  lord ∈ NAKSHATRA_LORDS -> DASHA_YEARS !! lord = Some y -> Z.abs t <= 2 ^ 52 ->
  Z.abs (Double.addTime t (inject_Z y) - t - y * 31556952000) <= 1.
Proof.
  intros Hl Hy Ht. pose proof years_checks as C. rewrite forallb_forall in C.
  specialize (C lord ltac:(by apply list_elem_of_In)).
  unfold yearsCheck in C. rewrite Hy in C. cbv zeta in C.
  apply andb_true_iff in C as [C C3]. apply andb_true_iff in C as [C1 C2].
  apply Qle_bool_iff in C1, C2, C3. apply Qabs_Qle_condition in C3.
  assert (Bq : (Qabs (inject_Z t) <= inject_Z (2 ^ 52))%Q).
  { apply Qabs_Qle_condition. rewrite <- inject_Z_opp, <- !Zle_Qle. lia. }
  assert (P : (inject_Z (2 ^ 52) + inject_Z (2 ^ 40) < pow2 53)%Q)
    by (vm_compute; reflexivity).
  pose proof (addTime_near t (inject_Z y)) as N. cbv zeta in N.
  set (x := Double.mul (inject_Z y) Double.msPerYear) in *.
  assert (B : (Qabs (inject_Z t + x) < pow2 53)%Q).
  { eapply Qle_lt_trans; [apply Qabs_triangle |].
    rewrite (Qabs_pos x C1). lra. }
  destruct (N B) as [N0 N1].
  set (e := Double.addTime t (inject_Z y)) in *. clearbody e x.
  assert (L : (inject_Z (-2) < inject_Z (e - t - y * 31556952000))%Q).
  { unfold Z.sub. rewrite !inject_Z_plus, !inject_Z_opp, inject_Z_mult.
    change (inject_Z (-2)) with (-2)%Q.
    change (inject_Z 31556952000) with 31556952000%Q.
    lra. }
  assert (U : (inject_Z (e - t - y * 31556952000) < inject_Z 2)%Q).
  { unfold Z.sub. rewrite !inject_Z_plus, !inject_Z_opp, inject_Z_mult.
    change (inject_Z 2) with 2%Q. change (inject_Z 31556952000) with 31556952000%Q.
    lra. }
  rewrite <- Zlt_Qlt in L, U. lia.
Qed.

Lemma mahadashaLoop_periods (lordIndex : Z) (idxs : list Z) (current : Z) :
  0 <= lordIndex -> Forall (fun i => 0 <= i) idxs ->
  exists tl,
    Double.mahadashaLoop lordIndex idxs current = Some tl
    /\ length tl = length idxs
    /\ mapM (fun i => JS.index NAKSHATRA_LORDS (Z.rem (lordIndex + i) 9)) idxs
       = Some (planet <$> tl)
    /\ linked current tl
    /\ Forall fullPeriod tl.
Proof.
  intros Hs Hi. revert current.
  induction Hi as [| i idxs Hi0 _ IH]; intros current.
  - exists []. repeat split. constructor.
  - destruct (lord_years (Z.rem (lordIndex + i) 9)) as (lord & yrs & A & B & _).
    { apply rem9_range; assumption. }
    destruct (IH (Double.addTime current (inject_Z yrs)))
      as (rest & E & Len & Pl & Lk & Fp).
    eexists. cbn [Double.mahadashaLoop]. rewrite A. cbn [mbind option_bind].
    rewrite B. cbn [mbind option_bind]. rewrite E. cbn [mbind option_bind].
    split; [reflexivity |].
    split; [cbn [length]; by rewrite Len |].
    split; [cbn [mapM]; rewrite A; cbn [mbind option_bind]; rewrite Pl; reflexivity |].
    split; [split; [reflexivity | exact Lk] |].
    constructor; [| exact Fp].
    unfold fullPeriod. cbn [planet durationYear durationMonth durationDay level
                            startDate endDate].
    split; [| repeat split; assumption].
    unfold JS.index in A. destruct (_ <? 0); [discriminate |].
    eapply list_elem_of_lookup_2, A.
Qed.

Lemma isDouble_1 : isDouble 1.
Proof. double_const. Qed.

(** The balance of the first period lies between nothing and the
    full allotment of its lord. *)
Lemma balance_range (pos : Q) (y : Z) :
  0 <= y -> Z.abs y < 2 ^ 53 ->
  let fractionTraversed := Double.sub pos (inject_Z (JS.floor pos)) in
  let fractionRemaining := Double.sub 1 fractionTraversed in
  (0 <= Double.mul (inject_Z y) fractionRemaining)%Q
  /\ (Double.mul (inject_Z y) fractionRemaining <= inject_Z y)%Q.
Proof.
  intros Hy Hy2. cbv zeta. unfold Double.sub, Double.mul.
  destruct (floor_spec pos) as [F0 F1].
  assert (T0 : (0 <= round (pos - inject_Z (JS.floor pos)))%Q)
    by (apply round_nonneg; lra).
  assert (T1 : (round (pos - inject_Z (JS.floor pos)) <= 1)%Q)
    by (apply round_le; [exact isDouble_1 | lra]).
  set (ft := round (pos - inject_Z (JS.floor pos))) in *. clearbody ft.
  assert (R0 : (0 <= round (1 - ft))%Q) by (apply round_nonneg; lra).
  assert (R1 : (round (1 - ft) <= 1)%Q)
    by (apply round_le; [exact isDouble_1 | lra]).
  set (fr := round (1 - ft)) in *. clearbody fr.
  assert (Qy : (0 <= inject_Z y)%Q)
    by (change 0%Q with (inject_Z 0); rewrite <- Zle_Qle; exact Hy).
  split.
  - apply round_nonneg. nra.
  - apply round_le; [apply isDouble_Z; exact Hy2 | nra].
Qed.

Section MahaFacts.
Variable tz : Z.

Lemma mahadasha_periods_double (moonLon : Q) (birthDate : Z) :
  (0 <= moonLon)%Q ->
  let span := Double.lit nakshatraSpan in
  let pos := Double.div moonLon span in
  exists first rest firstYears,
    Double.calculateMahadashas tz moonLon birthDate = Some (first :: rest)
    /\ length rest = 8%nat
    /\ planet <$> (first :: rest)
       = rotate (Z.to_nat (Z.rem (JS.floor pos) 9)) NAKSHATRA_LORDS
    /\ startDate first = birthDate
    /\ DASHA_YEARS !! planet first = Some firstYears
    /\ level first = 1
    /\ endDate first
       = Double.addTime birthDate
           (Double.mul (inject_Z firstYears)
              (Double.sub 1 (Double.sub pos (inject_Z (JS.floor pos)))))
    /\ Dur.mk (durationYear first) (durationMonth first) (durationDay first)
       = getDurationYMD tz birthDate (endDate first)
    /\ linked birthDate (first :: rest)
    /\ Forall fullPeriod rest.
Proof.
  intros Hm span pos.
  assert (Hn : 0 <= JS.floor pos).
  { unfold pos, Double.div, JS.floor. change 0 with (Qfloor 0).
    apply Qfloor_resp_le. apply round_nonneg.
    apply Qle_shift_div_l; [vm_compute; reflexivity | lra]. }
  set (s := Z.rem (JS.floor pos) 9).
  assert (Hs : 0 <= s < 9) by (apply Z.rem_bound_pos; lia).
  destruct (cycle_from s Hs) as (fl & years & C1 & C2 & _ & _ & C5).
  set (e1 := Double.addTime birthDate
               (Double.mul (inject_Z years)
                  (Double.sub 1 (Double.sub pos (inject_Z (JS.floor pos)))))).
  destruct (mahadashaLoop_periods s (seqZ 1 8) e1 (proj1 Hs)
              (seqZ_nonneg 1 8 ltac:(lia)))
    as (rest & E & Len & Pl & Lk & Fp).
  eexists _, rest, years.
  unfold Double.calculateMahadashas. cbv zeta. fold span. fold pos. fold s.
  rewrite C1. cbn [mbind option_bind]. rewrite C2. cbn [mbind option_bind].
  fold e1. rewrite E. cbn [mbind option_bind].
  split; [reflexivity |].
  split; [rewrite Len; reflexivity |].
  split.
  { rewrite Pl in C5. cbn [fmap option_fmap option_map] in C5.
    injection C5 as <-. reflexivity. }
  cbn [startDate endDate planet level durationYear durationMonth durationDay].
  split; [reflexivity |]. split; [exact C2 |]. split; [reflexivity |].
  split; [reflexivity |].
  split; [by destruct (getDurationYMD tz birthDate e1) |].
  split; [split; [reflexivity | exact Lk] | exact Fp].
Qed.

End MahaFacts.

Lemma lord_years_bound (j : Z) (lord : string) (y : Z) :
  0 <= j < 9 -> JS.index NAKSHATRA_LORDS j = Some lord ->
  DASHA_YEARS !! lord = Some y -> 0 < y <= 20.
Proof.
  intros Hj A B.
  assert (C : j = 0 \/ j = 1 \/ j = 2 \/ j = 3 \/ j = 4 \/ j = 5 \/ j = 6
              \/ j = 7 \/ j = 8) by lia.
  repeat (destruct C as [-> | C]); [.. | subst j];
    vm_compute in A; injection A as <-; vm_compute in B; injection B as <-; lia.
Qed.

(** X5: in binary64, for a Moon longitude that is not negative,
    [calculateMahadashas] returns nine periods, laid end to end from
    the birth instant; their lords are the cycle of nine turned to
    begin at the lord of the Moon's nakshatra; the first period has
    the balance of its lord's allotment, between nothing and the
    whole, and the calendar difference of its dates; each later
    period carries the full allotment of its lord with no months or
    days and, started within 2^52 ms of the epoch, lasts that many
    mean Gregorian years to the millisecond. *)
Theorem mahadasha_shape (tz : Z) (moonLon : Q) (birthDate : Z) :
  (0 <= moonLon)%Q ->
  exists first rest firstYears balance,
    Double.calculateMahadashas tz moonLon birthDate = Some (first :: rest)
    /\ length rest = 8%nat
    /\ planet <$> (first :: rest)
       = rotate (Z.to_nat (Z.rem (JS.floor (Double.div moonLon
                                              (Double.lit nakshatraSpan))) 9))
           NAKSHATRA_LORDS
    /\ planet <$> (first :: rest) ≡ₚ NAKSHATRA_LORDS
    /\ linked birthDate (first :: rest)
    /\ DASHA_YEARS !! planet first = Some firstYears
    /\ (0 <= balance)%Q /\ (balance <= inject_Z firstYears)%Q
    /\ endDate first = Double.addTime birthDate balance
    /\ Dur.mk (durationYear first) (durationMonth first) (durationDay first)
       = getDurationYMD tz birthDate (endDate first)
    /\ Forall (fun p =>
                 fullPeriod p
                 /\ (Z.abs (startDate p) <= 2 ^ 52 ->
                     Z.abs (endDate p - startDate p - durationYear p * 31556952000)
                     <= 1)) rest.
Proof.
  intros Hm.
  destruct (mahadasha_periods_double tz moonLon birthDate Hm)
    as (first & rest & fy & E & Len & Pl & S0 & Fy & _ & E1 & D1 & Lk & Fp).
  cbv zeta in Pl, E1.
  set (pos := Double.div moonLon (Double.lit nakshatraSpan)) in *.
  exists first, rest, fy,
    (Double.mul (inject_Z fy)
       (Double.sub 1 (Double.sub pos (inject_Z (JS.floor pos))))).
  assert (Hfy : 0 < fy <= 20).
  { assert (Hin : planet first ∈ rotate (Z.to_nat (Z.rem (JS.floor pos) 9))
                                   NAKSHATRA_LORDS).
    { rewrite <- Pl. rewrite fmap_cons. left. }
    rewrite rotate_Permutation in Hin.
    apply list_elem_of_lookup_1 in Hin as [i Hi].
    assert (Hi9 : (i < 9)%nat) by (apply lookup_lt_Some in Hi; exact Hi).
    apply (lord_years_bound (Z.of_nat i) (planet first) fy); [lia | | exact Fy].
    unfold JS.index. destruct (Z.of_nat i <? 0) eqn:N; [apply Z.ltb_lt in N; lia |].
    rewrite Nat2Z.id. exact Hi. }
  destruct (balance_range pos fy ltac:(lia) ltac:(lia)) as [B0 B1].
  split; [exact E |]. split; [exact Len |]. split; [exact Pl |].
  split; [rewrite Pl; apply rotate_Permutation |].
  split; [exact Lk |]. split; [exact Fy |].
  split; [exact B0 |]. split; [exact B1 |].
  split; [exact E1 |]. split; [exact D1 |].
  eapply Forall_impl; [exact Fp |]. intros p Hp. split; [exact Hp |].
  destruct Hp as (Hin & Hy & _ & _ & _ & He). intros Hb. rewrite He.
  apply (full_period_length (planet p)); assumption.
Qed.

Lemma mahadasha_shape_witness :
  (0 <= 545 # 10)%Q /\
  exists first rest firstYears balance,
    Double.calculateMahadashas 0 (545 # 10) 946684800000 = Some (first :: rest)
    /\ length rest = 8%nat
    /\ planet <$> (first :: rest)
       = rotate (Z.to_nat (Z.rem (JS.floor (Double.div (545 # 10)
                                              (Double.lit nakshatraSpan))) 9))
           NAKSHATRA_LORDS
    /\ planet <$> (first :: rest) ≡ₚ NAKSHATRA_LORDS
    /\ linked 946684800000 (first :: rest)
    /\ DASHA_YEARS !! planet first = Some firstYears
    /\ (0 <= balance)%Q /\ (balance <= inject_Z firstYears)%Q
    /\ endDate first = Double.addTime 946684800000 balance
    /\ Dur.mk (durationYear first) (durationMonth first) (durationDay first)
       = getDurationYMD 0 946684800000 (endDate first)
    /\ Forall (fun p =>
                 fullPeriod p
                 /\ (Z.abs (startDate p) <= 2 ^ 52 ->
                     Z.abs (endDate p - startDate p - durationYear p * 31556952000)
                     <= 1)) rest.
Proof.
  assert (H1 : (0 <= 545 # 10)%Q) by (unfold Qle; simpl; lia).
  split; [exact H1 |].
  exact (mahadasha_shape 0 (545 # 10) 946684800000 H1).
Defined.

(** ** The points of a chart *)

Lemma sign_index_below (lon : Q) :
  isDouble lon -> (0 <= lon)%Q -> (lon < 360)%Q ->
  0 <= JS.floor (Double.div lon 30) < 12.
Proof.
  intros D L0 L1. pose proof (below_360 lon D L1) as B. unfold Double.div.
  assert (Q0 : (0 <= round (lon / 30))%Q).
  { apply round_nonneg. apply Qle_shift_div_l; [reflexivity | lra]. }
  assert (Q1 : (round (lon / 30) < 12)%Q).
  { apply Qle_lt_trans with (round ((360 - pow2 (-44)) / 30)); [| exact quotient_below_12].
    apply round_mono. apply Qmult_le_compat_r; [exact B | discriminate]. }
  destruct (floor_spec (round (lon / 30))) as [F0 F1].
  set (f := JS.floor (round (lon / 30))) in *. clearbody f.
  assert (inject_Z (-1) < inject_Z f)%Q by (change (inject_Z (-1)) with (-1)%Q; lra).
  assert (inject_Z f < inject_Z 12)%Q by (change (inject_Z 12) with 12%Q; lra).
  rewrite <- Zlt_Qlt in *. lia.
Qed.

Lemma sign_index_360 (lon : Q) : (lon == 360)%Q -> JS.floor (Double.div lon 30) = 12.
Proof.
  intros E. unfold Double.div.
  rewrite (floor_comp (round (lon / 30)) (round (360 / 30))).
  - vm_compute. reflexivity.
  - apply round_comp. rewrite E. reflexivity.
Qed.

Lemma navamsa_index_closed (lon : Q) :
  (0 <= lon)%Q -> 0 <= Double.calculateNavamsaIndex lon < 12.
Proof.
  intros L0. unfold Double.calculateNavamsaIndex. cbv zeta.
  apply Z.rem_bound_pos; [| lia].
  unfold JS.floor. change 0 with (Qfloor 0). apply Qfloor_resp_le.
  unfold Double.div, Double.mul. apply round_nonneg.
  apply Qle_shift_div_l; [reflexivity |].
  assert (0 <= round (lon * 60))%Q by (apply round_nonneg; lra). lra.
Qed.

Lemma orElse_member (l : list string) (i : Z) (d : string) :
  JS.orElse (JS.index l i) d ∈ l ++ [d].
Proof.
  unfold JS.orElse, JS.index.
  destruct (i <? 0); [apply elem_of_app; right; left |].
  destruct (l !! Z.to_nat i) as [s |] eqn:E; [| apply elem_of_app; right; left].
  destruct (String.eqb s ""); [apply elem_of_app; right; left |].
  apply elem_of_app. left. eapply list_elem_of_lookup_2, E.
Qed.

Lemma point_placed (e : string) (x : Q) (r : bool) (asc : Q) :
  isDouble x -> (0 <= asc)%Q -> (asc <= 360)%Q ->
  wellPlaced asc (Double.formatPlanet e (Double.normalize x) r asc).
Proof.
  intros D A0 A1. destruct (normalize_closed x) as [X0 X1].
  pose proof (normalize_isDouble x D) as Dn.
  set (lon := Double.normalize x) in *. clearbody lon.
  unfold wellPlaced, Double.formatPlanet. cbv zeta.
  cbn [longitude house sign navamsaSign nakshatra].
  split; [exact Dn |]. split; [exact X0 |]. split; [exact X1 |].
  split; [apply houseOf_in_range; assumption |].
  split; [reflexivity |].
  split; [| split; [| split]].
  - split.
    + intros N. destruct (Qlt_le_dec lon 360) as [S | B]; [| lra].
      destruct (sign_lookup _ (sign_index_below lon Dn X0 S)) as (s & S1 & _).
      rewrite S1 in N. discriminate.
    + intros E. rewrite (sign_index_360 lon E). reflexivity.
  - intros s Hs. destruct (Qlt_le_dec lon 360) as [S | B].
    + destruct (sign_lookup _ (sign_index_below lon Dn X0 S)) as (s' & S1 & S2 & _).
      rewrite S1 in Hs. injection Hs as <-. exact S2.
    + rewrite (sign_index_360 lon) in Hs by lra. discriminate.
  - destruct (sign_lookup _ (navamsa_index_closed lon X0)) as (s & S1 & S2 & _).
    exists s. auto.
  - apply orElse_member.
Qed.

Lemma positions_points_double (elon : string -> Z -> Q) (ut : Z -> Q)
    (ascDeg : Z -> Q -> Q -> Q) (date : Z) (lat lon ayanamsa : Q) :
  let ps := Double.calculatePositions elon ut ascDeg date lat lon ayanamsa in
  exists asc,
    isDouble asc /\ (0 <= asc)%Q /\ (asc <= 360)%Q
    /\ Forall (wellPlaced asc) ps
    /\ ps !! 9%nat = Some (Double.formatPlanet "Ascendant" asc false asc)
    /\ List.find (fun p => String.eqb (name p) "Lagna") ps
       = Some (Double.formatPlanet "Ascendant" asc false asc)
    /\ List.find (fun p => String.eqb (name p) "Chandra") ps
       = Some (Double.formatPlanet "Moon"
                 (Double.normalize (Double.sub (elon "Moon" date) ayanamsa))
                 false asc)
    /\ length ps = 10%nat.
Proof.
  intros ps.
  set (a := Double.sub (Double.normalize (ascDeg date lat lon)) ayanamsa).
  exists (Double.normalize a).
  assert (Da : isDouble a) by apply round_isDouble.
  destruct (normalize_closed a) as [A0 A1].
  split; [apply normalize_isDouble, Da |].
  split; [exact A0 | split; [exact A1 |]].
  split; [| split; [reflexivity | split; [reflexivity | split; reflexivity]]].
  unfold ps, Double.calculatePositions. cbv zeta. fold a. apply Forall_app. split.
  - unfold bodyMap. rewrite !fmap_cons, fmap_nil.
    repeat (constructor;
            [apply point_placed; [apply round_isDouble | exact A0 | exact A1] |]).
    constructor.
  - repeat (constructor;
            [apply point_placed; [apply round_isDouble | exact A0 | exact A1] |]).
    constructor.
Qed.

Lemma houseOf_lagna (asc : Q) :
  (0 <= asc)%Q -> (asc <= 360)%Q -> Double.houseOf asc asc = 1.
Proof.
  intros A0 A1.
  assert (E : (normalize (asc - (asc - 15)) == 15)%Q).
  { apply (normalize_unique _ _ 0); [lra | lra |].
    change (inject_Z 0) with 0%Q. ring. }
  assert (P : (pow2 (-40) <= 1)%Q) by (vm_compute; discriminate).
  change 1 with (0 + 1). apply houseOf_band; try assumption.
  - rewrite E. change (inject_Z 0) with 0%Q. lra.
  - rewrite E. change (inject_Z 0) with 0%Q. lra.
Qed.

(** X4: in binary64, [calculatePositions] returns the seven planets,
    Rahu, Ketu and Lagna in that order; every longitude is a binary64
    number in the closed range from 0 to 360 and every house is in
    1..12; the sign of a point is undefined exactly when its
    longitude is 360, and is otherwise one of the twelve names; the
    navamsa sign is always one of them; Ketu is placed at Rahu's
    longitude plus 180, normalized; Lagna is in house 1. *)
Theorem positions_layout (elon : string -> Z -> Q) (ut : Z -> Q)
    (ascDeg : Z -> Q -> Q -> Q) (date : Z) (lat lon ayanamsa : Q) :
  let ps := Double.calculatePositions elon ut ascDeg date lat lon ayanamsa in
  name <$> ps = ["Surya"; "Chandra"; "Kuja"; "Budha"; "Guru"; "Shukra";
                 "Shani"; "Rahu"; "Ketu"; "Lagna"]
  /\ exists rahu ketu lagna,
       ps !! 7%nat = Some rahu /\ ps !! 8%nat = Some ketu
       /\ ps !! 9%nat = Some lagna
       /\ Forall (wellPlaced (longitude lagna)) ps
       /\ longitude ketu = Double.normalize (Double.add (longitude rahu) 180)
       /\ house lagna = 1.
Proof.
  intros ps. split; [reflexivity |].
  destruct (positions_points_double elon ut ascDeg date lat lon ayanamsa)
    as (asc & Da & A0 & A1 & HF & H9 & _).
  fold ps in HF, H9.
  eexists _, _, _.
  split; [reflexivity | split; [reflexivity | split; [exact H9 |]]].
  cbn [longitude house Double.formatPlanet].
  split; [exact HF |]. split; [reflexivity |].
  apply houseOf_lagna; assumption.
Qed.

(** ** The cells of the charts *)

(** The cells of a chart hold the points whose sign is one of the
    signs of the cells, once each, and no others. *)
Lemma cells_hold (signs : list string) (planets : list PlanetData) :
  NoDup signs ->
  concat (SouthIndianChart.getPlanets planets <$> signs)
  ≡ₚ List.filter (fun p => JS.includes signs (sign p)) planets.
Proof.
  intros Hnd.
  set (kept := List.filter (fun p => JS.includes signs (sign p)) planets).
  assert (E : SouthIndianChart.getPlanets planets <$> signs
              = SouthIndianChart.getPlanets kept <$> signs).
  { apply Forall_fmap_ext_1, Forall_forall. intros s Hs.
    unfold SouthIndianChart.getPlanets, kept. clear kept.
    induction planets as [| p ps IH]; [reflexivity |].
    cbn [List.filter].
    destruct (JS.includes signs (sign p)) eqn:I; cbn [List.filter];
      destruct (JS.strictEq (sign p) s) eqn:Q; try (rewrite IH; reflexivity).
    exfalso. unfold JS.includes in I.
    assert (T : existsb (JS.strictEq (sign p)) signs = true).
    { apply existsb_exists. exists s. split; [by apply list_elem_of_In | exact Q]. }
    rewrite T in I. discriminate. }
  rewrite E. apply cells_partition; [exact Hnd |].
  apply Forall_forall. intros p Hp. unfold kept in Hp.
  apply list_elem_of_In, filter_In in Hp as [_ Hp].
  unfold JS.includes in Hp. apply existsb_exists in Hp as (s & Hs & Q).
  exists s. split; [| by apply list_elem_of_In].
  unfold JS.strictEq in Q. destruct (sign p) as [x |]; [| discriminate].
  apply String.eqb_eq in Q. by subst.
Qed.

Lemma includes_sign (p : PlanetData) :
  (forall s, sign p = Some s -> s ∈ SIGNS) ->
  JS.includes SIGNS (sign p) = match sign p with Some _ => true | None => false end.
Proof.
  intros H. unfold JS.includes. destruct (sign p) as [s |] eqn:E.
  - apply existsb_exists. exists s. split; [apply list_elem_of_In, H; reflexivity |].
    apply String.eqb_refl.
  - apply not_true_is_false. intros T. apply existsb_exists in T as (s & _ & Q).
    discriminate.
Qed.

(** X9: the twelve cells of the chart component hold exactly the
    points whose sign is one of the twelve names, once each.  For
    the charts the application derives from the binary64
    [calculatePositions]: the birth chart draws every point but
    those at longitude 360, whose sign is undefined; the navamsa
    chart draws every point; the derived charts keep the names; and
    when Lagna is below 360 the bhava chart draws every point and
    Lagna keeps its sign there. *)
Theorem charts_draw_every_point (elon : string -> Z -> Q) (ut : Z -> Q)
    (ascDeg : Z -> Q -> Q -> Q) (date : Z) (lat lon ayanamsa : Q) :
  let ps := Double.calculatePositions elon ut ascDeg date lat lon ayanamsa in
  let d9 := App.navamsaPlanets (Some ps) in
  let bhava := App.bhavaPlanets (Some ps) in
  (forall xs, concat (SouthIndianChart.getPlanets xs <$> SIGNS)
              ≡ₚ List.filter (fun p => JS.includes SIGNS (sign p)) xs)
  /\ concat (SouthIndianChart.getPlanets ps <$> SIGNS)
     ≡ₚ List.filter (fun p => negb (Qeq_bool (longitude p) 360)) ps
  /\ concat (SouthIndianChart.getPlanets d9 <$> SIGNS) ≡ₚ d9
  /\ name <$> d9 = name <$> ps /\ name <$> bhava = name <$> ps
  /\ exists lagna,
       ps !! 9%nat = Some lagna /\ name lagna = "Lagna"
       /\ ((longitude lagna < 360)%Q ->
           concat (SouthIndianChart.getPlanets bhava <$> SIGNS) ≡ₚ bhava
           /\ exists lagna', bhava !! 9%nat = Some lagna'
                             /\ sign lagna' = sign lagna).
Proof.
  intros ps d9 bhava.
  destruct (positions_points_double elon ut ascDeg date lat lon ayanamsa)
    as (asc & Da & A0 & A1 & HF & H9 & Hfind & _ & Hlen).
  fold ps in HF, H9, Hfind, Hlen.
  set (lagna := Double.formatPlanet "Ascendant" asc false asc) in *.
  assert (Eb : bhava
               = (fun planet =>
                    withSign planet
                      (JS.index SIGNS
                         (Z.rem (match sign lagna with
                                 | Some s => JS.indexOf SIGNS s
                                 | None => -1
                                 end + (house planet - 1)) 12)))
                 <$> ps).
  { unfold bhava, App.bhavaPlanets. rewrite Hfind. reflexivity. }
  split; [intros xs; apply cells_hold, SIGNS_NoDup |].
  split.
  { rewrite cells_hold by apply SIGNS_NoDup.
    rewrite (filter_ext_in (fun p => JS.includes SIGNS (sign p))
               (fun p => negb (Qeq_bool (longitude p) 360)) ps); [reflexivity |].
    intros p Hp. apply list_elem_of_In in Hp.
    rewrite Forall_forall in HF. destruct (HF p Hp) as (_ & _ & _ & _ & _ & Hn & Hs & _).
    rewrite (includes_sign p Hs).
    destruct (sign p) as [s |].
    - destruct (Qeq_bool (longitude p) 360) eqn:Q; [| reflexivity].
      apply Qeq_bool_iff, Hn in Q. discriminate.
    - assert (Q : Qeq_bool (longitude p) 360 = true)
        by (apply Qeq_bool_iff, Hn; reflexivity).
      rewrite Q. reflexivity. }
  split.
  { apply cells_partition; [apply SIGNS_NoDup |].
    unfold d9, App.navamsaPlanets. apply Forall_fmap.
    eapply Forall_impl; [exact HF |]. intros p (_ & _ & _ & _ & _ & _ & _ & H & _).
    exact H. }
  split; [unfold d9, App.navamsaPlanets; rewrite <- list_fmap_compose; reflexivity |].
  split; [rewrite Eb, <- list_fmap_compose; reflexivity |].
  exists lagna. split; [exact H9 |]. split; [reflexivity |].
  intros Hl.
  assert (Wl : wellPlaced asc lagna).
  { rewrite Forall_forall in HF. apply HF. eapply list_elem_of_lookup_2, H9. }
  destruct Wl as (_ & _ & _ & _ & Hh & Hn & Hs & _).
  destruct (sign lagna) as [sa |] eqn:Hsa.
  2:{ assert (longitude lagna == 360)%Q by (apply Hn; reflexivity). lra. }
  pose proof (Hs sa eq_refl) as Hina.
  destruct (sign_position sa Hina) as [Hk Hidx].
  split.
  - apply cells_partition; [apply SIGNS_NoDup |].
    rewrite Eb. apply Forall_fmap.
    eapply Forall_impl; [exact HF |]. intros p (_ & _ & _ & Hp & _). cbn [withSign sign].
    assert (Hr : 0 <= Z.rem (JS.indexOf SIGNS sa + (house p - 1)) 12 < 12)
      by (apply Z.rem_bound_pos; lia).
    destruct (sign_lookup _ Hr) as (s & S1 & S2 & _ & _). exists s. auto.
  - exists (withSign lagna (Some sa)). split.
    + rewrite Eb, list_lookup_fmap, H9. cbn [fmap option_fmap option_map].
      f_equal. f_equal.
      replace (house lagna) with 1.
      * replace (JS.indexOf SIGNS sa + (1 - 1)) with (JS.indexOf SIGNS sa) by lia.
        rewrite Z.rem_small by lia. exact Hidx.
      * symmetry. unfold lagna. cbn [house Double.formatPlanet].
        apply houseOf_lagna; assumption.
    + cbn [withSign sign]. reflexivity.
Qed.

Lemma charts_draw_every_point_witness :
  let ps :=
    Double.calculatePositions (fun _ _ => 10%Q) (fun _ => 0%Q)
      (fun _ _ _ => 100%Q) 0 0 0 24 in
  let bhava := App.bhavaPlanets (Some ps) in
  exists lagna,
    ps !! 9%nat = Some lagna /\ (longitude lagna < 360)%Q
    /\ concat (SouthIndianChart.getPlanets bhava <$> SIGNS) ≡ₚ bhava.
Proof.
  intros ps bhava.
  destruct (charts_draw_every_point (fun _ _ => 10%Q) (fun _ => 0%Q)
              (fun _ _ _ => 100%Q) 0 0 0 24)
    as (_ & _ & _ & _ & _ & lagna & H9 & _ & H).
  exists lagna.
  assert (L : (longitude lagna < 360)%Q).
  { cbn [Double.calculatePositions lookup list_lookup app fmap list_fmap bodyMap] in H9.
    injection H9 as <-. vm_compute. reflexivity. }
  split; [exact H9 |]. split; [exact L |]. exact (proj1 (H L)).
Defined.

(** ** The chart as a whole *)

(** X10: in binary64, [calculateChart] throws its error exactly when
    the date and time do not parse.  Otherwise it returns the ten
    points of [calculatePositions] for the parsed instant, the
    coordinates of the place and the ayanamsa of the year; the
    ascendant sign is Lagna's sign, or Mesha when Lagna's longitude
    is 360 and its sign undefined, and is always one of the twelve
    names; the nakshatra shown is the Moon's, a name of the table or
    Unknown; the request is echoed. *)
Theorem calculateChart_result (elon : string -> Z -> Q) (ut : Z -> Q)
    (ascDeg : Z -> Q -> Q -> Q) (tz : Z) (parseDate : string -> option Z)
    (searchCities : string -> list City.t) (date time place : string) :
  match parseDate (date +:+ "T" +:+ time) with
  | None =>
      Double.calculateChart elon ut ascDeg tz parseDate searchCities date time place
      = inl "Invalid Date or Time provided."
  | Some dateObj =>
      exists data lagna moon,
        Double.calculateChart elon ut ascDeg tz parseDate searchCities date time place
        = inr data
        /\ planets data
           = Double.calculatePositions elon ut ascDeg dateObj
               (Double.getCoordinatesLocal searchCities place).1
               (Double.getCoordinatesLocal searchCities place).2
               (ayanamsa data)
        /\ length (planets data) = 10%nat
        /\ planets data !! 9%nat = Some lagna /\ name lagna = "Lagna"
        /\ planets data !! 1%nat = Some moon /\ name moon = "Chandra"
        /\ ascendantSign data
           = match sign lagna with Some s => s | None => "Mesha" end
        /\ (sign lagna = None <-> (longitude lagna == 360)%Q)
        /\ ascendantSign data ∈ SIGNS
        /\ moonNakshatra (meta data) = nakshatra moon
        /\ moonNakshatra (meta data) ∈ NAKSHATRAS ++ ["Unknown"]
        /\ ayanamsa data
           = Double.add (Double.lit (2385 # 100))
               (Double.mul (Double.lit (139 # 10000))
                  (Double.sub
                     (Double.add (inject_Z (getFullYear tz dateObj))
                        (Double.div (inject_Z (getMonth tz dateObj)) 12))
                     2000))
        /\ 0 <= getMonth tz dateObj <= 11
        /\ (metaDate (meta data), metaTime (meta data), metaPlace (meta data))
           = (date, time, place)
  end.
Proof.
  unfold Double.calculateChart. destruct (parseDate _) as [dateObj |]; [| reflexivity].
  cbv zeta.
  set (ay := Double.ayanamsaOf tz dateObj).
  set (lat := (Double.getCoordinatesLocal searchCities place).1).
  set (lng := (Double.getCoordinatesLocal searchCities place).2).
  destruct (positions_points_double elon ut ascDeg dateObj lat lng ay)
    as (asc & Da & A0 & A1 & HF & H9 & Hfind & Hmoon & Hlen).
  cbv zeta in HF, H9, Hfind, Hmoon, Hlen.
  set (lagna := Double.formatPlanet "Ascendant" asc false asc) in *.
  assert (Wl : wellPlaced asc lagna).
  { rewrite Forall_forall in HF. apply HF. eapply list_elem_of_lookup_2, H9. }
  destruct Wl as (_ & _ & _ & _ & _ & Hn & Hs & _).
  assert (Ho : JS.orElse (sign lagna) "Mesha"
               = match sign lagna with Some s => s | None => "Mesha" end).
  { destruct (sign lagna) as [s |] eqn:E; [| reflexivity].
    pose proof (Hs s eq_refl) as Hin. cbn [JS.orElse].
    assert (Hne : String.eqb s "" = false).
    { clear -Hin. unfold SIGNS in Hin.
      repeat (apply elem_of_cons in Hin as [-> | Hin]; [reflexivity |]).
      by apply elem_of_nil in Hin. }
    rewrite Hne. reflexivity. }
  eexists _, lagna, _. split; [reflexivity |].
  cbn [planets ascendantSign ayanamsa meta moonNakshatra metaDate metaTime
       metaPlace].
  rewrite Hfind, Hmoon. cbn [mbind option_bind].
  split; [reflexivity |].
  split; [exact Hlen | split; [exact H9 | split; [reflexivity |]]].
  split; [reflexivity | split; [reflexivity |]].
  split; [exact Ho |]. split; [exact Hn |].
  split.
  { rewrite Ho. destruct (sign lagna) as [s |]; [apply Hs; reflexivity |].
    unfold SIGNS. left. }
  split; [reflexivity |].
  split; [cbn [nakshatra Double.formatPlanet]; apply orElse_member |].
  split; [reflexivity |].
  split; [| reflexivity].
  pose proof (civil_from_days_range (localDay tz dateObj)) as [Hm _].
  unfold getMonth. lia.
Qed.

(** X15: the application hands the dasha table the sidereal
    longitude of Chandra in the chart, the binary64 number
    [normalize(elon - ayanamsa)], which lies in the closed range
    from 0 to 360, and 0 when there is no chart; the table then
    opens at level 1 with no history, with nine rows, or none when
    the longitude is 0. *)
Theorem chart_feeds_dasha_table (elon : string -> Z -> Q) (ut : Z -> Q)
    (ascDeg : Z -> Q -> Q -> Q) (tz date : Z) (lat lon ayanamsa : Q) (dt : Z) :
  let planets := Double.calculatePositions elon ut ascDeg date lat lon ayanamsa in
  let moonLon := App.getMoonLon (Some planets) in
  moonLon = Double.normalize (Double.sub (elon "Moon" date) ayanamsa)
  /\ isDouble moonLon /\ (0 <= moonLon)%Q /\ (moonLon <= 360)%Q
  /\ App.getMoonLon None = 0%Q
  /\ exists st,
       DashaTable.init tz moonLon dt = Some st
       /\ DashaTable.level st = 1
       /\ DashaTable.history st = []
       /\ length (DashaTable.currentRows st)
          = (if Qeq_bool moonLon 0 then 0 else 9)%nat.
Proof.
  intros planets moonLon.
  assert (E : moonLon = Double.normalize (Double.sub (elon "Moon" date) ayanamsa))
    by reflexivity.
  clearbody moonLon. subst planets.
  destruct (normalize_closed (Double.sub (elon "Moon" date) ayanamsa)) as [L0 L1].
  pose proof (normalize_isDouble _ (round_isDouble (elon "Moon" date - ayanamsa))) as Dm.
  fold (Double.sub (elon "Moon" date) ayanamsa) in Dm.
  rewrite <- E in L0, L1, Dm.
  split; [exact E |]. split; [exact Dm |]. split; [exact L0 |]. split; [exact L1 |].
  split; [reflexivity |].
  unfold DashaTable.init.
  destruct (Qeq_bool moonLon 0); [eexists; repeat split |].
  destruct (mahadasha_periods tz moonLon dt L0)
    as (first & rest & fy & M & Hlen & _).
  rewrite M. cbn [mbind option_bind]. eexists. split; [reflexivity |].
  cbn [DashaTable.level DashaTable.history DashaTable.currentRows length].
  rewrite Hlen. repeat split.
Qed.

(** ** Values of the binary64 reading *)

(** The constant of [addTime] is 31556951999.999996; the nine
    antardashas of Budha from 1960-01-01T00:00Z end 2 ms before the
    17 years are over; 18 years from the epoch end at 568025135999;
    the first mahadasha for the Moon at 54.5 and a birth at
    2000-01-01T00:19:29.100Z ends at 2006-05-21T23:59:59.997Z; 0.95
    degrees, the binary64 number nearest to it, print as 57 minutes,
    where exact arithmetic on that number has 56; the
    navamsa index of 6.666666666666664 is 1 and that of the same
    longitude plus 40 is 2. *)
Lemma binary64_values :
  (Double.msPerYear == 8272465625087999 # 262144)%Q
  /\ (timelineEnd (-315619200000) <$> Double.calculateAntarDashas 0 "Budha" (-315619200000))
     = Some (-315619200000 + 17 * 31556952000 - 2)
  /\ Double.addTime 0 18 = 568025135999
  /\ (endDate <$> (Double.calculateMahadashas 0 (545 # 10) 946685969100 ≫= head))
     = Some 1148255999997
  /\ Double.toDMS (Double.lit (95 # 100)) = (0, 57)
  /\ toDMS (Double.lit (95 # 100)) = (0, 56)
  /\ Double.calculateNavamsaIndex (Double.lit (6666666666666664 # 1000000000000000)) = 1
  /\ Double.calculateNavamsaIndex
       (Double.add (Double.lit (6666666666666664 # 1000000000000000)) 40) = 2.
Proof. repeat split; vm_compute; reflexivity. Qed.

(** ** The rounding of [IEEE] against the primitive floats *)

#[local] Set Warnings "-inexact-float".

(** The constant of [addTime], the sums that round to 360 at the
    inputs of C8 and C5, the balance of the first period at the Moon
    longitude 54.5 and the instant it ends at: the primitive floats
    give the numbers of the binary64 reading. *)
Lemma traced_values_primitive :
  Primitive.agrees (365.2425 * 24 * 60 * 60 * 1000)%float Double.msPerYear = true
  /\ Primitive.agrees (- 0x1p-60 + 360)%float (Double.add (- pow2 (-60)) 360) = true
  /\ Primitive.agrees 30.000000000000004%float (30 + pow2 (-48)) = true
  /\ Primitive.agrees (15 - (30.000000000000004 - 15) + 360)%float
       (Double.add (Double.sub 15 (Double.sub (30 + pow2 (-48)) 15)) 360) = true
  /\ Primitive.agrees (7 * (1 - (54.5 / 13.3333333333 - 4)))%float
       (Double.mul 7
          (Double.sub 1
             (Double.sub (Double.div (545 # 10) (Double.lit nakshatraSpan)) 4)))
     = true
  /\ Primitive.agrees
       (946685969100
        + 7 * (1 - (54.5 / 13.3333333333 - 4))
          * (365.2425 * 24 * 60 * 60 * 1000))%float
       (Double.add 946685969100
          (Double.mul
             (Double.mul 7
                (Double.sub 1
                   (Double.sub (Double.div (545 # 10) (Double.lit nakshatraSpan))
                      4)))
             Double.msPerYear))
     = true.
Proof. repeat split; vm_compute; reflexivity. Qed.

(** The values of [durationYears] over the loops of the two
    generators are those the primitive floats give. *)
Lemma antar_durations_primitive :
  forallb (fun parent =>
             Primitive.agree (Binary64.antarDurations parent)
               (loopYears (Primitive.yearsOf parent) (Z.of_nat parent) (seqZ 0 9)))
          (seq 0 9) = true.
Proof. vm_compute. reflexivity. Qed.

Lemma pratyantar_durations_primitive :
  forallb (fun grandParent =>
     forallb (fun parent =>
                Primitive.agree (Binary64.pratyantarDurations grandParent parent)
                  (loopYears
                     (Double.div
                        (Double.mul (Primitive.yearsOf grandParent)
                           (Primitive.yearsOf parent)) 120)
                     (Z.of_nat parent) (seqZ 0 9)))
             (seq 0 9))
    (seq 0 9) = true.
Proof. vm_compute. reflexivity. Qed.
